(** * Gaussian mixture model fitted by EM: [P4/gmm.py]

    A shallow embedding of the class [GMM] ([fit], [sample],
    [compute_log_likelihood]) and of its nested class [Gaussian_pdf], and
    the properties of the EM iteration stated about them.

    Numbers.  A numpy [float64] is modelled by [float64] below: a finite
    value is an exact real, and the three special values follow the IEEE
    rules numpy applies (division by zero yields [nan] or an infinity and a
    warning, never an exception).  Rounding, the overflow and underflow of
    float64 arithmetic and the sign of zero are not modelled; the power of
    Python floats in [Gaussian_pdf.__init__], which raises when it
    overflows, is.

    Objects.  numpy arrays live in a heap and are reached through
    references, so that the in-place row updates of [fit] and the rebinding
    of its local [pi_k] are told apart. *)

From Stdlib Require Import Reals Lra ZArith String.
From stdpp Require Import base list.

Local Open Scope R_scope.

(** ** Floating-point values *)

Inductive float64 : Type :=
| Fin (r : R)
| PInf
| NInf
| NaN.

Inductive sign : Type := Neg | Zero | Pos.

Definition Rsign (r : R) : sign :=
  if Rlt_dec 0 r then Pos else if Rlt_dec r 0 then Neg else Zero.

Definition fneg (a : float64) : float64 :=
  match a with
  | Fin x => Fin (- x)
  | PInf => NInf
  | NInf => PInf
  | NaN => NaN
  end.

Definition fadd (a b : float64) : float64 :=
  match a, b with
  | NaN, _ | _, NaN => NaN
  | Fin x, Fin y => Fin (x + y)
  | PInf, NInf | NInf, PInf => NaN
  | PInf, _ | _, PInf => PInf
  | NInf, _ | _, NInf => NInf
  end.

Definition fsub (a b : float64) : float64 := fadd a (fneg b).

(** An infinity of the sign of [s], [nan] for a zero. *)
Definition signed_inf (s : sign) : float64 :=
  match s with Pos => PInf | Neg => NInf | Zero => NaN end.

Definition fmul (a b : float64) : float64 :=
  match a, b with
  | NaN, _ | _, NaN => NaN
  | Fin x, Fin y => Fin (x * y)
  | Fin x, PInf | PInf, Fin x => signed_inf (Rsign x)
  | Fin x, NInf | NInf, Fin x => signed_inf (Rsign (- x))
  | PInf, PInf | NInf, NInf => PInf
  | PInf, NInf | NInf, PInf => NInf
  end.

(** numpy's [true_divide] on float64: [x / 0] is an infinity of the sign of
    [x], [0 / 0] is [nan]; nothing is raised. *)
Definition fdiv (a b : float64) : float64 :=
  match a, b with
  | NaN, _ | _, NaN => NaN
  | Fin x, Fin y =>
      if Req_dec_T y 0 then signed_inf (Rsign x) else Fin (x / y)
  | Fin _, PInf | Fin _, NInf => Fin 0
  | PInf, Fin y => if Rlt_dec y 0 then NInf else PInf
  | NInf, Fin y => if Rlt_dec y 0 then PInf else NInf
  | PInf, PInf | PInf, NInf | NInf, PInf | NInf, NInf => NaN
  end.

Definition fexp (a : float64) : float64 :=
  match a with
  | Fin x => Fin (exp x)
  | PInf => PInf
  | NInf => Fin 0
  | NaN => NaN
  end.

Definition fsqrt (a : float64) : float64 :=
  match a with
  | Fin x => if Rlt_dec x 0 then NaN else Fin (sqrt x)
  | PInf => PInf
  | NInf | NaN => NaN
  end.

Definition flog (a : float64) : float64 :=
  match a with
  | Fin x =>
      match Rsign x with
      | Pos => Fin (ln x)
      | Zero => NInf
      | Neg => NaN
      end
  | PInf => PInf
  | NInf | NaN => NaN
  end.

Definition fabs (a : float64) : float64 :=
  match a with
  | Fin x => Fin (Rabs x)
  | PInf | NInf => PInf
  | NaN => NaN
  end.

(** [a < b]; every comparison with [nan] is false. *)
Definition flt (a b : float64) : bool :=
  match a, b with
  | NaN, _ | _, NaN => false
  | Fin x, Fin y => if Rlt_dec x y then true else false
  | NInf, Fin _ | NInf, PInf | Fin _, PInf => true
  | _, _ => false
  end.

(** A Python [int] used as a float. *)
Definition of_nat (n : nat) : float64 := Fin (INR n).

Definition is_fin (a : float64) : Prop := exists r, a = Fin r.

(** ** Arrays

    A one-dimensional array is a list, a two-dimensional one the list of its
    rows, a three-dimensional one the list of its matrices.  An array
    without rows is given zero columns. *)

Abbreviation vec := (list float64).
Abbreviation matrix := (list (list float64)).

Definition ncols (m : matrix) : nat := length (hd [] m).

(** [a.sum()] of a one-dimensional array. *)
Definition vsum (v : vec) : float64 := fold_right fadd (Fin 0) v.

(** Element-wise operations on arrays of one shape. *)
Definition vadd (a b : vec) : vec := zip_with fadd a b.
Definition vsub (a b : vec) : vec := zip_with fsub a b.
Definition vmul (a b : vec) : vec := zip_with fmul a b.
Definition vdivv (a b : vec) : vec := zip_with fdiv a b.
Definition madd (a b : matrix) : matrix := zip_with vadd a b.

(** An array and a scalar. *)
Definition vscale (c : float64) (v : vec) : vec := map (fmul c) v.
Definition vdiv (v : vec) (c : float64) : vec := map (fun a => fdiv a c) v.
Definition mscale (c : float64) (m : matrix) : matrix := map (vscale c) m.
Definition mscale_r (m : matrix) (c : float64) : matrix :=
  map (map (fun a => fmul a c)) m.
Definition mdiv (m : matrix) (c : float64) : matrix := map (fun r => vdiv r c) m.

(** [m[:, j]] and [m.T] for a matrix of [n] columns. *)
Definition column (j : nat) (m : matrix) : vec := map (fun r => nth j r NaN) m.
Definition transpose (n : nat) (m : matrix) : matrix :=
  map (fun j => column j m) (seq 0 n).

(** [m.sum(axis=1)] and [m.sum(axis=0)]. *)
Definition sum_axis1 (m : matrix) : vec := map vsum m.
Definition sum_axis0 (n : nat) (m : matrix) : vec := map vsum (transpose n m).

(** [np.zeros([n, m])], [np.eye(n)], [np.outer(a, b)]. *)
Definition zeros (n m : nat) : matrix := replicate n (replicate m (Fin 0)).
Definition eye (n : nat) : matrix :=
  map (fun i => map (fun j => if Nat.eqb i j then Fin 1 else Fin 0) (seq 0 n))
      (seq 0 n).
Definition outer (a b : vec) : matrix := map (fun ai => map (fmul ai) b) a.

(** [np.array(ms).sum(axis=0)] for a list of [d] by [d] matrices. *)
Definition msum (d : nat) (ms : list matrix) : matrix :=
  fold_right madd (zeros d d) ms.

(** [a @ b] for two vectors, and [v @ m] for a vector and a matrix. *)
Definition dot (a b : vec) : float64 := vsum (vmul a b).
Definition vecmat (v : vec) (m : matrix) : vec :=
  map (fun j => dot v (column j m)) (seq 0 (ncols m)).

(** ** Exceptions *)

Inductive exn : Type :=
| AssertionError (msg : string)
| Exception (msg : string)
| UnboundLocalError (name : string)
| ZeroDivisionError
| IndexError
| ValueError
| TypeError
| AttributeError
| LinAlgError
| OverflowError.

Inductive result (A : Type) : Type :=
| Ok (a : A)
| Raise (e : exn).
Arguments Ok {A} a.
Arguments Raise {A} e.

Definition rbind {A B} (r : result A) (f : A -> result B) : result B :=
  match r with Ok a => f a | Raise e => Raise e end.

(** [l[i]] on a Python sequence. *)
Definition index {A} (l : list A) (i : nat) : result A :=
  match l !! i with Some a => Ok a | None => Raise IndexError end.

(** [[f(k) for k in range(n)]] when [f] may raise. *)
Fixpoint collect {A} (f : nat -> result A) (ks : list nat) : result (list A) :=
  match ks with
  | [] => Ok []
  | k :: ks' =>
      rbind (f k) (fun a => rbind (collect f ks') (fun l => Ok (a :: l)))
  end.

(** ** Operations of numpy that check shapes *)

(** [x - mean] for two one-dimensional arrays: an array of one entry is
    broadcast against the other; any other pair of different lengths is
    refused. *)
Definition broadcast_sub (x mean : vec) : result vec :=
  if Nat.eqb (length x) (length mean) then Ok (vsub x mean)
  else if Nat.eqb (length x) 1 then Ok (map (fsub (nth 0 x NaN)) mean)
  else if Nat.eqb (length mean) 1
       then Ok (map (fun a => fsub a (nth 0 mean NaN)) x)
  else Raise ValueError.

(** [v @ m] for a one-dimensional [v] and a two-dimensional [m], and
    [a @ b] for two one-dimensional arrays: the lengths along the summed
    axis have to agree. *)
Definition matmul_vm (v : vec) (m : matrix) : result vec :=
  if Nat.eqb (length v) (length m) then Ok (vecmat v m) else Raise ValueError.

Definition matmul_vv (a b : vec) : result float64 :=
  if Nat.eqb (length a) (length b) then Ok (dot a b) else Raise ValueError.

(** [a + b] for a [D] by [D] array [a] and an array [b] of [D] rows: the
    rows of [b] have [D] entries each, or one entry each, which is
    broadcast along the row, or [D] is 1 and the single row of [a] is
    broadcast; any other shape is refused. *)
Definition broadcast_add (D : nat) (a b : matrix) : result matrix :=
  if forallb (fun r => Nat.eqb (length r) D) b then Ok (madd a b)
  else if forallb (fun r => Nat.eqb (length r) 1) b
       then Ok (zip_with (fun ra rb => map (fun v => fadd v (nth 0 rb NaN)) ra)
                  a b)
  else if Nat.eqb D 1
       then Ok (zip_with (fun ra rb => map (fadd (nth 0 ra NaN)) rb) a b)
  else Raise ValueError.

(** [(2 * np.pi) ** D] is a power of Python floats, which raises
    [OverflowError] when the result is beyond the largest float:
    [(2 pi)^386] is about [1.25e308], below [1.797e308], and [(2 pi)^387]
    is about [7.9e308]. *)
Definition power_overflows (D : nat) : bool := Nat.leb 387 D.

(** ** The libraries the module calls

    [numpy.linalg], [numpy.random] and the clustering module [kmeans] are
    not part of the file: their routines are parameters.  The generator
    state of [numpy.random] is global; every drawing routine maps a state to
    a value and the next state. *)

Record library : Type := {
  rng : Type;
  random_seed : Z -> rng;
  random_sample : rng -> float64 * rng;
  random_choice : nat -> nat -> vec -> rng -> result (list nat) * rng;
  random_multivariate_normal : vec -> matrix -> rng -> result vec * rng;
  linalg_matrix_rank : matrix -> result nat;
  linalg_inv : matrix -> result matrix;
  linalg_det : matrix -> result float64;
  KMeans_fit : nat -> Z -> float64 -> matrix -> rng ->
               result (matrix * list nat) * rng
}.

Section GMM.

Context (np : library).

(** ** [class Gaussian_pdf] *)

Record Gaussian_pdf : Type := {
  pdf_mean : vec;
  pdf_variance : matrix;
  pdf_c : float64;
  pdf_inv : matrix
}.

(** The value of [(rank < D).astype(int)]. *)
Definition astype_int (b : bool) : float64 := if b then Fin 1 else Fin 0.

(** [Gaussian_pdf.__init__(self, mean, variance)]: the rank, the addition
    of [(rank < D) * eye(D) * 0.001], which checks shapes, the inverse, and
    then [c], whose left factor [(2 * np.pi) ** D] is computed, and may
    overflow, before the determinant is asked for. *)
Definition Gaussian_pdf_init (mean : vec) (variance : matrix)
  : result Gaussian_pdf :=
  let D := length variance in
  rbind (linalg_matrix_rank np variance) (fun rank =>
  rbind (broadcast_add D
           (mscale_r (mscale (astype_int (Nat.ltb rank D)) (eye D))
                     (Fin (1 / 1000)))
           variance) (fun variance' =>
  rbind (linalg_inv np variance') (fun inv =>
  if power_overflows D then Raise OverflowError
  else
    rbind (linalg_det np variance') (fun det =>
    Ok {| pdf_mean := mean;
          pdf_variance := variance';
          pdf_c := fmul (Fin ((2 * PI) ^ D)) det;
          pdf_inv := inv |})))).

(** [Gaussian_pdf.getLikelihood(self, x)]; the exponent is parsed as
    [((-0.5 * boo.T) @ inv) @ boo], and each of the two products checks
    its shapes. *)
Definition getLikelihood (g : Gaussian_pdf) (x : vec) : result float64 :=
  let mean := pdf_mean g in
  let inv := pdf_inv g in
  let c := pdf_c g in
  rbind (broadcast_sub x mean) (fun boo =>
  rbind (matmul_vm (vscale (Fin (- (1 / 2))) boo) inv) (fun t =>
  rbind (matmul_vv t boo) (fun q =>
  Ok (fdiv (fexp q) (fsqrt c))))).

(** ** [GMM.compute_log_likelihood]

    The body of the method on the arrays it has settled on: [means],
    [variances] and [pi_k], for [K = self.n_cluster] components. *)

Definition build_inst (K : nat) (means : matrix) (variances : list matrix)
  : result (list Gaussian_pdf) :=
  collect (fun k =>
    rbind (index means k) (fun m =>
    rbind (index variances k) (fun v => Gaussian_pdf_init m v)))
    (seq 0 K).

(** The second pair of loops and the sum of the logarithms, on the
    instances built by the first loop. *)
Definition log_likelihood_of (K : nat) (x : matrix) (inst : list Gaussian_pdf)
    (pi_k : vec) : result float64 :=
  rbind (collect (fun i =>
           rbind (index x i) (fun xi =>
           collect (fun k =>
             rbind (index pi_k k) (fun p =>
             rbind (index inst k) (fun g =>
             rbind (getLikelihood g xi) (fun d =>
             Ok (fmul p d))))) (seq 0 K)))
         (seq 0 (length x))) (fun normal =>
  let sumnormal := sum_axis1 normal in
  Ok (vsum (map flog sumnormal))).

Definition log_likelihood (K : nat) (x : matrix) (means : matrix)
    (variances : list matrix) (pi_k : vec) : result float64 :=
  rbind (build_inst K means variances) (fun inst =>
  log_likelihood_of K x inst pi_k).


(** ** Objects and the heap *)

Inductive ndarray : Type :=
| Arr1 (v : vec)
| Arr2 (m : matrix)
| Arr3 (t : list matrix).

Abbreviation loc := nat.

(** An instance of [GMM]; an attribute that is [None] holds no reference. *)
Record GMM : Type := {
  n_cluster : nat;
  e : float64;
  max_iter : Z;
  init : string;
  means : option loc;
  variances : option loc;
  pi_k : option loc
}.

Record state : Type := {
  self : GMM;
  heap : list ndarray;
  gen : rng np
}.

(** Computations that read and write the state and may raise. *)
Definition M (A : Type) : Type := state -> result A * state.

Definition ret {A} (a : A) : M A := fun s => (Ok a, s).
Definition raise {A} (x : exn) : M A := fun s => (Raise x, s).
Definition lift {A} (r : result A) : M A := fun s => (r, s).
Definition bind {A B} (m : M A) (f : A -> M B) : M B :=
  fun s =>
    match m s with
    | (Ok a, s') => f a s'
    | (Raise x, s') => (Raise x, s')
    end.

Notation "x <- m ;; k" := (bind m (fun x => k))
  (at level 100, m at next level, right associativity).
Notation "m ;;; k" := (bind m (fun _ => k))
  (at level 100, right associativity).

Definition get_self : M GMM := fun s => (Ok (self s), s).
Definition set_self (g : GMM) : M unit :=
  fun s => (Ok tt, {| self := g; heap := heap s; gen := gen s |}).

Definition with_heap (s : state) (h : list ndarray) : state :=
  {| self := self s; heap := h; gen := gen s |}.

Definition alloc (a : ndarray) : M loc :=
  fun s => (Ok (length (heap s)), with_heap s (heap s ++ [a])).

Definition store (l : loc) (a : ndarray) : M unit :=
  fun s => (Ok tt, with_heap s (<[l := a]> (heap s))).

(** Reading through an attribute or a local that may be [None]. *)
Definition load (r : option loc) : M ndarray :=
  fun s =>
    match r with
    | None => (Raise TypeError, s)
    | Some l =>
        match heap s !! l with
        | Some a => (Ok a, s)
        | None => (Raise TypeError, s)
        end
    end.

Definition load1 (r : option loc) : M vec :=
  a <- load r ;; match a with Arr1 v => ret v | _ => raise IndexError end.
Definition load2 (r : option loc) : M matrix :=
  a <- load r ;; match a with Arr2 m => ret m | _ => raise IndexError end.
Definition load3 (r : option loc) : M (list matrix) :=
  a <- load r ;; match a with Arr3 t => ret t | _ => raise IndexError end.

(** [a[k] = v] for a matrix [a] and [a[k, :, :] = v] for a stack of
    matrices: the row is replaced in the array [a] refers to. *)
Definition setitem2 (r : option loc) (k : nat) (v : vec) : M unit :=
  m <- load2 r ;;
  match r, m !! k with
  | Some l, Some old =>
      if Nat.eqb (length v) (length old)
      then store l (Arr2 (<[k := v]> m))
      else raise ValueError
  | _, _ => raise IndexError
  end.

Definition setitem3 (r : option loc) (k : nat) (v : matrix) : M unit :=
  t <- load3 r ;;
  match r, t !! k with
  | Some l, Some _ => store l (Arr3 (<[k := v]> t))
  | _, _ => raise IndexError
  end.

(** [np.random.seed(z)] and [np.random.rand(K, D)]. *)
Definition seed (z : Z) : M unit :=
  fun s => (Ok tt, {| self := self s; heap := heap s; gen := random_seed np z |}).

Fixpoint draw (n : nat) (g : rng np) : vec * rng np :=
  match n with
  | O => ([], g)
  | S n' =>
      let (a, g1) := random_sample np g in
      let (v, g2) := draw n' g1 in
      (a :: v, g2)
  end.

Fixpoint draw_rows (K D : nat) (g : rng np) : matrix * rng np :=
  match K with
  | O => ([], g)
  | S K' =>
      let (r, g1) := draw D g in
      let (m, g2) := draw_rows K' D g1 in
      (r :: m, g2)
  end.

Definition rand (K D : nat) : M matrix :=
  fun s =>
    let (m, g) := draw_rows K D (gen s) in
    (Ok m, {| self := self s; heap := heap s; gen := g |}).

(** ** The statistics both the initialisation and the M-step compute *)

(** [np.array([gamma_ik[i, k] * np.outer(boo[i], boo[i]) for i in range(N)])
    .sum(axis=0) / N_k[k]] with [boo = x - mean]. *)
Definition weighted_cov (D : nat) (x gamma : matrix) (k : nat) (mean : vec)
    (nk : float64) : matrix :=
  let boo := map (fun xi => vsub xi mean) x in
  mdiv (msum D (zip_with (fun g b => mscale (nth k g NaN) (outer b b)) gamma boo))
       nk.

(** [np.multiply(x.T, gamma_ik[:, k]).sum(axis=1) / N_k[k]]. *)
Definition weighted_mean (D : nat) (x gamma : matrix) (k : nat) (nk : float64)
  : vec :=
  vdiv (sum_axis1 (map (fun r => vmul r (column k gamma)) (transpose D x))) nk.

(** [((pi_k * Normal).T / (pi_k * Normal).sum(axis=1).T).T] for an [N] by
    [K] array [Normal] and the [K] weights [pi_k]; with no row at all
    [Normal] is one-dimensional and the sum over [axis=1] is refused.  The
    weights of [fit] always have [K] entries; another length is reported as
    the broadcasting error. *)
Definition responsibilities (K N : nat) (pi_k : vec) (Normal : matrix)
  : result matrix :=
  if Nat.eqb N 0 then Raise ValueError
  else if negb (Nat.eqb (length pi_k) K) then Raise ValueError
  else
    let W := map (fun row => vmul pi_k row) Normal in
    Ok (transpose N (map (fun r => vdivv r (sum_axis1 W)) (transpose K W))).

(** ** [GMM.compute_log_likelihood(self, x, means, variances, pi_k)] *)

(** The loop that fills [inst], in [compute_log_likelihood] and in the
    E-step: for each [k] in turn [means[k]] is read, then
    [variances[k, :, :]], and the constructor is called on the two. *)
Fixpoint fill_inst (means_ variances_ : option loc) (ks : list nat)
  : M (list Gaussian_pdf) :=
  match ks with
  | [] => ret []
  | k :: ks' =>
      mv <- load2 means_ ;;
      m <- lift (index mv k) ;;
      vv <- load3 variances_ ;;
      v <- lift (index vv k) ;;
      g <- lift (Gaussian_pdf_init m v) ;;
      inst <- fill_inst means_ variances_ ks' ;;
      ret (g :: inst)
  end.

Definition assert_2d (x : ndarray) : M matrix :=
  match x with
  | Arr2 m => ret m
  | _ => raise (AssertionError "x can only be 2 dimensional")
  end.

Definition or_else (a b : option loc) : option loc :=
  match a with Some _ => a | None => b end.

Definition compute_log_likelihood (x : ndarray)
    (means_arg variances_arg pi_k_arg : option loc) : M float64 :=
  xm <- assert_2d x ;;
  s <- get_self ;;
  let means_ := or_else means_arg (means s) in
  let variances_ := or_else variances_arg (variances s) in
  let pi_k_ := or_else pi_k_arg (pi_k s) in
  let K := n_cluster s in
  inst <- fill_inst means_ variances_ (seq 0 K) ;;
  pv <- (if Nat.eqb K 0 then ret []
         else if Nat.eqb (length xm) 0 then ret [] else load1 pi_k_) ;;
  lift (log_likelihood_of K xm inst pv).

(** ** [GMM.fit]: the two initialisations *)

(** [gamma_ik[np.arange(N), assign[np.arange(N)]] = 1] on [np.zeros([N, K])]. *)
Definition one_hot (K N : nat) (assign : list nat) : result matrix :=
  collect (fun i =>
    rbind (index assign i) (fun a =>
    if Nat.ltb a K then Ok (<[a := Fin 1]> (replicate K (Fin 0)))
    else Raise IndexError))
    (seq 0 N).

Definition set_parameters (m v p : loc) : M unit :=
  s <- get_self ;;
  set_self {| n_cluster := n_cluster s; e := e s; max_iter := max_iter s;
              init := init s;
              means := Some m; variances := Some v; pi_k := Some p |}.

Definition init_k_means (x : matrix) : M nat :=
  let N := length x in
  let D := ncols x in
  s <- get_self ;;
  let K := n_cluster s in
  r <- (fun st =>
          let (r, g) := KMeans_fit np K (max_iter s) (e s) x (gen st) in
          (r, {| self := self st; heap := heap st; gen := g |})) ;;
  let mu_k := fst r in
  let assign := snd r in
  gamma_ik <- lift (one_hot K N assign) ;;
  let N_k := sum_axis0 K gamma_ik in
  sigma_k <- lift (collect (fun k =>
               rbind (index mu_k k) (fun m =>
               if Nat.eqb (length m) D
               then Ok (weighted_cov D x gamma_ik k m (nth k N_k NaN))
               else Raise ValueError)) (seq 0 K)) ;;
  let pi_k_ := vdiv N_k (of_nat N) in
  lm <- alloc (Arr2 mu_k) ;;
  lv <- alloc (Arr3 sigma_k) ;;
  lp <- alloc (Arr1 pi_k_) ;;
  set_parameters lm lv lp ;;;
  ret K.

Definition init_random (x : matrix) : M nat :=
  let N := length x in
  let D := ncols x in
  s <- get_self ;;
  let K := n_cluster s in
  mu_k <- rand K D ;;
  let sigma_k := replicate K (eye D) in
  if Nat.eqb K 0 then raise ZeroDivisionError
  else
    let pi_k_ := replicate K (Fin (1 / INR K)) in
    lm <- alloc (Arr2 mu_k) ;;
    lv <- alloc (Arr3 sigma_k) ;;
    lp <- alloc (Arr1 pi_k_) ;;
    set_parameters lm lv lp ;;;
    ret K.

(** ** [GMM.fit]: one pass of the loop body *)

(** [for k in range(K): means[k] = ...]: the rows of the array that both the
    local [means] and [self.means] refer to are overwritten one by one. *)
Fixpoint update_means (D : nat) (x gamma : matrix) (N_k : vec)
    (means_ : option loc) (ks : list nat) : M unit :=
  match ks with
  | [] => ret tt
  | k :: ks' =>
      setitem2 means_ k (weighted_mean D x gamma k (nth k N_k NaN)) ;;;
      update_means D x gamma N_k means_ ks'
  end.

(** [for k in range(K): boo = x - means[k]; variances[k, :, :] = ...]: each
    pass reads row [k] of the array [means] refers to. *)
Fixpoint update_variances (D : nat) (x gamma : matrix) (N_k : vec)
    (means_ variances_ : option loc) (ks : list nat) : M unit :=
  match ks with
  | [] => ret tt
  | k :: ks' =>
      mv <- load2 means_ ;;
      m <- lift (index mv k) ;;
      setitem3 variances_ k (weighted_cov D x gamma k m (nth k N_k NaN)) ;;;
      update_variances D x gamma N_k means_ variances_ ks'
  end.

(** [Normal]: the density of every point under every component of
    [inst]. *)
Definition densities_of (K : nat) (x : matrix) (inst : list Gaussian_pdf)
  : result matrix :=
  collect (fun i =>
    rbind (index x i) (fun xi =>
    collect (fun k =>
      rbind (index inst k) (fun g => getLikelihood g xi))
      (seq 0 K)))
    (seq 0 (length x)).

(** [inst] and [Normal] on the arrays [means] and [variances]. *)
Definition densities (K : nat) (x : matrix) (mv : matrix) (vv : list matrix)
  : result matrix :=
  rbind (build_inst K mv vv) (fun inst => densities_of K x inst).

(** The E-step: [inst], [Normal] and [gamma_ik]. *)
Definition e_step (K : nat) (x : matrix) (means_ variances_ pi_k_ : option loc)
  : M matrix :=
  inst <- fill_inst means_ variances_ (seq 0 K) ;;
  Normal <- lift (densities_of K x inst) ;;
  pv <- load1 pi_k_ ;;
  lift (responsibilities K (length x) pv Normal).

(** The M-step; the local [pi_k] is bound to a new array. *)
Definition m_step (K : nat) (x gamma : matrix) (means_ variances_ : option loc)
  : M loc :=
  let N := length x in
  let D := ncols x in
  let N_k := sum_axis0 K gamma in
  update_means D x gamma N_k means_ (seq 0 K) ;;;
  update_variances D x gamma N_k means_ variances_ (seq 0 K) ;;;
  alloc (Arr1 (vdiv N_k (of_nat N))).

(** Lines 109 to 123: the new local [pi_k] and [l_new]. *)
Definition em_iteration (K : nat) (x : matrix)
    (means_ variances_ pi_k_ : option loc) : M (option loc * float64) :=
  gamma_ik <- e_step K x means_ variances_ pi_k_ ;;
  p <- m_step K x gamma_ik means_ variances_ ;;
  l_new <- compute_log_likelihood (Arr2 x) None None None ;;
  ret (Some p, l_new).

(** The test [np.absolute(l - l_new) < self.e]. *)
Definition converged (l l_new tol : float64) : bool :=
  flt (fabs (fsub l l_new)) tol.

(** [for iter in range(self.max_iter)]: the locals carried from one pass to
    the next are [l], [pi_k] and [number_of_updates], which is bound only
    when the loop is left through [break]. *)
Fixpoint em_loop (K : nat) (x : matrix) (means_ variances_ : option loc)
    (iters : list nat) (l : float64) (pi_k_ : option loc)
  : M (option loc * option Z) :=
  match iters with
  | [] => ret (pi_k_, None)
  | iter :: rest =>
      r <- em_iteration K x means_ variances_ pi_k_ ;;
      s <- get_self ;;
      if converged l (snd r) (e s)
      then ret (fst r, Some (Z.of_nat iter))
      else em_loop K x means_ variances_ rest (snd r) (fst r)
  end.

Definition set_attributes (m v p : option loc) : M unit :=
  s <- get_self ;;
  set_self {| n_cluster := n_cluster s; e := e s; max_iter := max_iter s;
              init := init s; means := m; variances := v; pi_k := p |}.

(** Lines 43 to 92: the choice of the initialisation, which binds [K]. *)
Definition initialise (xm : matrix) : M nat :=
  s <- get_self ;;
  if String.eqb (init s) "k_means" then init_k_means xm
  else if String.eqb (init s) "random" then init_random xm
  else raise (Exception "Invalid initialization provided").

(** ** [GMM.fit(self, x)] *)
Definition fit (x : ndarray) : M Z :=
  xm <- assert_2d x ;;
  seed 42 ;;;
  K <- initialise xm ;;
  l <- compute_log_likelihood x None None None ;;
  s1 <- get_self ;;
  let means_ := means s1 in
  let variances_ := variances s1 in
  r <- em_loop K xm means_ variances_ (seq 0 (Z.to_nat (max_iter s1))) l
               (pi_k s1) ;;
  set_attributes means_ variances_ (fst r) ;;;
  match snd r with
  | Some number_of_updates => ret number_of_updates
  | None => raise (UnboundLocalError "number_of_updates")
  end.

(** ** [GMM.sample(self, N)] *)

(** The values an argument may be bound to. *)
Inductive pyobj : Type :=
| PyInt (z : Z)
| PyBool (b : bool)
| PyFloat (f : float64)
| PyStr (s : string)
| PyNone.

(** [for n in range(N): samples[n, :] = np.random.multivariate_normal(...)]
    on the rows of [samples]. *)
Fixpoint fill_samples (D : nat) (k : list nat) (ns : list nat)
    (samples : matrix) : M matrix :=
  match ns with
  | [] => ret samples
  | n :: ns' =>
      kn <- lift (index k n) ;;
      s <- get_self ;;
      mv <- load2 (means s) ;;
      m <- lift (index mv kn) ;;
      vv <- load3 (variances s) ;;
      v <- lift (index vv kn) ;;
      row <- (fun st =>
                let (r, g) := random_multivariate_normal np m v (gen st) in
                (r, {| self := self st; heap := heap st; gen := g |})) ;;
      if Nat.eqb (length row) D
      then fill_samples D k ns' (<[n := row]> samples)
      else raise ValueError
  end.

Definition sample (N : pyobj) : M matrix :=
  match N with
  | PyInt z =>
      if Z.ltb 0 z then
        let n := Z.to_nat z in
        seed 42 ;;;
        s <- get_self ;;
        match means s with
        | None => raise (Exception "Train GMM before sampling")
        | Some _ =>
            pv <- (match pi_k s with
                   | None => raise AttributeError
                   | Some _ => load1 (pi_k s)
                   end) ;;
            let K := length pv in
            mv <- load2 (means s) ;;
            let D := ncols mv in
            k <- (fun st =>
                    let (r, g) := random_choice np K n pv (gen st) in
                    (r, {| self := self st; heap := heap st; gen := g |})) ;;
            fill_samples D k (seq 0 n) (zeros n D)
        end
      else raise (AssertionError "N should be a positive integer")
  | _ => raise (AssertionError "N should be a positive integer")
  end.

End GMM.

Arguments Gaussian_pdf_init np mean variance : simpl never.
Arguments state np : clear implicits.

(** ** A library for one-dimensional data

    The linear algebra is exact on one by one matrices and refuses every
    other shape; the generator seeded with [z] hands out the numbers
    [draws z], then zeros; [choice] always selects the first component and
    [multivariate_normal] returns the mean; the clustering takes the first
    [K] points as centres and assigns every point to the first of them. *)

Definition rank1 (m : matrix) : result nat :=
  match m with
  | [[Fin v]] => Ok (if Req_dec_T v 0 then 0%nat else 1%nat)
  | _ => Raise LinAlgError
  end.

Definition inv1 (m : matrix) : result matrix :=
  match m with
  | [[Fin v]] => if Req_dec_T v 0 then Raise LinAlgError else Ok [[Fin (/ v)]]
  | _ => Raise LinAlgError
  end.

Definition det1 (m : matrix) : result float64 :=
  match m with
  | [[a]] => Ok a
  | _ => Raise LinAlgError
  end.

Definition scalar_library (draws : Z -> list R) : library :=
  {| rng := list R;
     random_seed := draws;
     random_sample := fun g =>
       match g with [] => (Fin 0, []) | a :: g' => (Fin a, g') end;
     random_choice := fun K n _ g =>
       (if Nat.eqb K 0 then Raise ValueError else Ok (replicate n 0%nat), g);
     random_multivariate_normal := fun m _ g => (Ok m, g);
     linalg_matrix_rank := rank1;
     linalg_inv := inv1;
     linalg_det := det1;
     KMeans_fit := fun K _ _ x g => (Ok (take K x, replicate (length x) 0%nat), g) |}.

(** [GMM(n_cluster, init, max_iter, e)]. *)
Definition GMM_init (n : nat) (i : string) (mi : Z) (tol : float64) : GMM :=
  {| n_cluster := n; e := tol; max_iter := mi; init := i;
     means := None; variances := None; pi_k := None |}.

(** ** The Gaussian component as the specification words it *)

(** [m + s * I]. *)
Definition add_to_diagonal (s : float64) (m : matrix) : matrix :=
  imap (fun i row => imap (fun j v => if Nat.eqb i j then fadd v s else v) row) m.

(** The covariance after regularisation: [0.001 * I] is added when the rank
    is below [D]. *)
Definition regularized (D rank : nat) (variance : matrix) : matrix :=
  if Nat.ltb rank D then add_to_diagonal (Fin (1 / 1000)) variance else variance.

(** [b^T A b]. *)
Definition quadratic_form (b : vec) (A : matrix) : float64 := dot (vecmat b A) b.

(** [exp(-0.5 (x - mean)^T inv (x - mean)) / sqrt(c)]. *)
Definition density (mean : vec) (inv : matrix) (c : float64) (x : vec) : float64 :=
  fdiv (fexp (fmul (Fin (- (1 / 2))) (quadratic_form (vsub x mean) inv)))
       (fsqrt c).

(** ** The M-step in closed form *)

(** The [K] new means, the [K] new covariances taken against the means
    [mu], and the [K] new weights. *)
Definition new_means (K : nat) (x gamma : matrix) : matrix :=
  map (fun k => weighted_mean (ncols x) x gamma k (nth k (sum_axis0 K gamma) NaN))
      (seq 0 K).

Definition new_variances (K : nat) (x gamma : matrix) (mu : matrix)
  : list matrix :=
  map (fun k => weighted_cov (ncols x) x gamma k (nth k mu [])
                  (nth k (sum_axis0 K gamma) NaN))
      (seq 0 K).

Definition new_weights (K : nat) (x gamma : matrix) : vec :=
  vdiv (sum_axis0 K gamma) (of_nat (length x)).

(** A finite value that is not negative. *)
Definition nonneg (a : float64) : Prop := exists r, a = Fin r /\ 0 <= r.

(** A row divided by its total. *)
Definition normalize (w : vec) : vec := vdiv w (vsum w).

(** The sum of a list of reals. *)
Definition rsum (l : list R) : R := fold_right Rplus 0 l.

(** An [n] by [d] array. *)
Definition shape2 (n d : nat) (m : matrix) : Prop :=
  length m = n /\ Forall (fun r => length r = d) m.

(** ** The M-step as the specification words it *)

(** [N_k = sum_i gamma[i, k]]. *)
Definition responsibility_mass (gamma : matrix) (k : nat) : float64 :=
  vsum (column k gamma).

(** [(sum_i gamma[i, k] * x_i) / N_k] for points of dimension [D]. *)
Definition weighted_average (D : nat) (x gamma : matrix) (k : nat) : vec :=
  vdiv (fold_right vadd (replicate D (Fin 0))
          (zip_with (fun g xi => vscale (nth k g NaN) xi) gamma x))
       (responsibility_mass gamma k).

(** [(sum_i gamma[i, k] * outer(x_i - mean, x_i - mean)) / N_k]. *)
Definition weighted_outer_products (D : nat) (x gamma : matrix) (k : nat)
    (mean : vec) : matrix :=
  mdiv (msum D (zip_with
                  (fun g xi => mscale (nth k g NaN)
                                 (outer (vsub xi mean) (vsub xi mean)))
                  gamma x))
       (responsibility_mass gamma k).

(** ** The log-likelihood in closed form *)

(** [sum_k pi_k[k] * N(xi | mean_k, variance_k)] over the components
    [inst]. *)
Definition mixture_density (pi_k : vec) (inst : list Gaussian_pdf) (xi : vec)
  : float64 :=
  vsum (zip_with (fun p g =>
                    fmul p (density (pdf_mean g) (pdf_inv g) (pdf_c g) xi))
                 pi_k inst).

(** [sum_i log (mixture density of x_i)]. *)
Definition total_log_likelihood (pi_k : vec) (inst : list Gaussian_pdf)
    (x : matrix) : float64 :=
  vsum (map (fun xi => flog (mixture_density pi_k inst xi)) x).

(** A value that is not below zero: a finite one that is not negative,
    [inf] or [nan]. *)
Definition not_negative (a : float64) : Prop :=
  match a with
  | Fin r => 0 <= r
  | PInf | NaN => True
  | NInf => False
  end.

(** ** A small model and data set

    One component of mean [0], variance [1] and weight [1] in one
    dimension, stored at the locations [0], [1] and [2], and the two points
    [-1] and [1]. *)
Definition unit_heap : list ndarray :=
  [Arr2 [[Fin 0]]; Arr3 [[[Fin 1]]]; Arr1 [Fin 1]].

Definition two_points : matrix := [[Fin (-1)]; [Fin 1]].

Definition no_draws : Z -> list R := fun _ => [].

(** A model of one component that holds no parameters yet, beside the
    arrays of [unit_heap]. *)
Definition unfitted_state : state (scalar_library no_draws) :=
  {| self := GMM_init 1 "random" 1 (Fin 0); heap := unit_heap;
     gen := ([] : rng (scalar_library no_draws)) |}.

(** The state in which [fit] leaves the initialisation phase when it
    raises there: the generator has been seeded, nothing else happened. *)
Definition seeded (np : library) (s : state np) : state np :=
  {| self := self np s; heap := heap np s; gen := random_seed np 42 |}.

(** ** The initialisation from a clustering in closed form *)

(** The responsibilities of a hard assignment: row [i] is [1] at
    [assign[i]] and [0] elsewhere. *)
Definition hard_assignment (K : nat) (assign : list nat) : matrix :=
  map (fun a => <[a := Fin 1]> (replicate K (Fin 0))) assign.

(** The share of the points assigned to each of the [K] clusters. *)
Definition cluster_fractions (K : nat) (assign : list nat) : vec :=
  map (fun k => fdiv (of_nat (count_occ Nat.eq_dec assign k))
                     (of_nat (length assign)))
      (seq 0 K).

(** A model of one component to be initialised from a clustering. *)
Definition kmeans_state : state (scalar_library no_draws) :=
  {| self := GMM_init 1 "k_means" 100 (Fin (1 / 10000)); heap := [];
     gen := ([] : rng (scalar_library no_draws)) |}.

(** ** What a computation leaves alone *)

(** The model and the arrays are the same after the computation, whether it
    returns or raises; the state of the generator may differ. *)
Definition keeps_model (np : library) {A} (m : M np A) : Prop :=
  forall s r s', m s = (r, s') ->
    self np s' = self np s /\ heap np s' = heap np s.

(** The attributes [n_cluster], [e], [max_iter] and [init]. *)
Definition same_config (a b : GMM) : Prop :=
  n_cluster a = n_cluster b /\ e a = e b /\
  max_iter a = max_iter b /\ init a = init b.

(** The computation may assign [means], [variances] and [pi_k], and
    nothing else of the model. *)
Definition keeps_config (np : library) {A} (m : M np A) : Prop :=
  forall s r s', m s = (r, s') -> same_config (self np s) (self np s').

(** The computation assigns no attribute of the model. *)
Definition keeps_self (np : library) {A} (m : M np A) : Prop :=
  forall s r s', m s = (r, s') -> self np s' = self np s.

(** A library that is exact on identity matrices of any size: the rank is
    the number of rows, the inverse is the matrix itself and the
    determinant is [1]. *)
Definition identity_library : library :=
  {| rng := unit;
     random_seed := fun _ => tt;
     random_sample := fun g => (Fin 0, g);
     random_choice := fun _ n _ g => (Ok (replicate n 0%nat), g);
     random_multivariate_normal := fun m _ g => (Ok m, g);
     linalg_matrix_rank := fun m => Ok (length m);
     linalg_inv := fun m => Ok m;
     linalg_det := fun _ => Ok (Fin 1);
     KMeans_fit := fun K _ _ x g =>
       (Ok (take K x, replicate (length x) 0%nat), g) |}.

(** A library whose matrix inversion always fails. *)
Definition failing_inverse_library : library :=
  {| rng := unit;
     random_seed := fun _ => tt;
     random_sample := fun g => (Fin 0, g);
     random_choice := fun _ n _ g => (Ok (replicate n 0%nat), g);
     random_multivariate_normal := fun m _ g => (Ok m, g);
     linalg_matrix_rank := fun m => Ok (length m);
     linalg_inv := fun _ => Raise LinAlgError;
     linalg_det := fun _ => Ok (Fin 1);
     KMeans_fit := fun K _ _ x g =>
       (Ok (take K x, replicate (length x) 0%nat), g) |}.

(** ** Runs of [fit] on the small data set *)

(** The component of mean [0] and variance [1] once built. *)
Definition unit_pdf : Gaussian_pdf :=
  {| pdf_mean := [Fin 0]; pdf_variance := [[Fin 1]];
     pdf_c := Fin (2 * PI); pdf_inv := [[Fin 1]] |}.

(** The density of that component. *)
Definition unit_density (a : R) : R :=
  exp (- (1 / 2) * (a * a)) / sqrt (2 * PI).

(** The log-likelihood of [two_points] under that single component of
    weight [1], as the loops add it up. *)
Definition unit_log_likelihood : R :=
  ln (1 * unit_density (-1) + 0) + (ln (1 * unit_density 1 + 0) + 0).

Abbreviation toy := (scalar_library no_draws).

(** [GMM(1, init='random', max_iter=mi, e=tol)] before any call, with no
    array yet. *)
Definition fresh_state (mi : Z) (tol : float64) : state toy :=
  {| self := GMM_init 1 "random" mi tol; heap := [];
     gen := ([] : rng toy) |}.

(** The model once its attributes refer to the arrays at [0], [1] and
    [p]. *)
Definition unit_model (mi : Z) (tol : float64) (p : nat) : GMM :=
  {| n_cluster := 1; e := tol; max_iter := mi; init := "random";
     means := Some 0%nat; variances := Some 1%nat; pi_k := Some p |}.

Definition unit_state (mi : Z) (tol : float64) (p : nat) (h : list ndarray)
  : state toy :=
  {| self := unit_model mi tol p; heap := h; gen := ([] : rng toy) |}.

(** The arrays of a heap that holds the unit component at [0] and [1] and
    the weight [1] at [p]. *)
Definition unit_arrays (p : nat) (h : list ndarray) : Prop :=
  h !! 0%nat = Some (Arr2 [[Fin 0]]) /\
  h !! 1%nat = Some (Arr3 [[[Fin 1]]]) /\
  h !! p = Some (Arr1 [Fin 1]).

(** The state after the three assignments that follow the loop. *)
Definition with_parameters (np : library) (s : state np)
    (m v p : option nat) : state np :=
  {| self := {| n_cluster := n_cluster (self np s); e := e (self np s);
                max_iter := max_iter (self np s); init := init (self np s);
                means := m; variances := v; pi_k := p |};
     heap := heap np s; gen := gen np s |}.

(** The computation creates arrays and writes to those at the locations
    [L] only: no array disappears, and every other array that existed is
    the same afterwards. *)
Definition writes_only (np : library) (L : list nat) {A} (m : M np A) : Prop :=
  forall s r s', m s = (r, s') ->
    (length (heap np s) <= length (heap np s'))%nat /\
    forall l, l ∉ L -> (l < length (heap np s))%nat ->
              heap np s' !! l = heap np s !! l.

(** ** The passes of the loop and the generator *)

(** The same model and arrays with another state of the generator. *)
Definition with_gen (np : library) (s : state np) (g : rng np) : state np :=
  {| self := self np s; heap := heap np s; gen := g |}.

(** [n] passes of the loop body in a row, none of which meets the
    tolerance: from the baseline [l], the local [pi_k] and the state [s] to
    the baseline, the local [pi_k] and the state after them. *)
Inductive unconverged_passes (np : library) (K : nat) (x : matrix)
    (m v : option nat)
  : nat -> float64 -> option nat -> state np ->
    float64 -> option nat -> state np -> Prop :=
| passes_none l rp s : unconverged_passes np K x m v 0 l rp s l rp s
| passes_more n l rp s p l1 s1 l' rp' s' :
    em_iteration np K x m v rp s = (Ok (p, l1), s1) ->
    converged l l1 (e (self np s1)) = false ->
    unconverged_passes np K x m v n l1 p s1 l' rp' s' ->
    unconverged_passes np K x m v (S n) l rp s l' rp' s'.

(** A component for points of [D] coordinates: its mean has [D] entries
    and its inverse covariance is [D] by [D]. *)
Definition well_shaped (D : nat) (g : Gaussian_pdf) : Prop :=
  length (pdf_mean g) = D /\ shape2 D D (pdf_inv g).

(** * Properties *)

(** ** Arithmetic of [float64] *)

Lemma Rsign_pos r : 0 < r -> Rsign r = Pos.
Proof. intros H. unfold Rsign. destruct (Rlt_dec 0 r); [reflexivity | lra]. Qed.

Lemma Rsign_neg r : r < 0 -> Rsign r = Neg.
Proof.
  intros H. unfold Rsign.
  destruct (Rlt_dec 0 r); [lra |]. destruct (Rlt_dec r 0); [reflexivity | lra].
Qed.

Lemma Rsign_zero : Rsign 0 = Zero.
Proof.
  unfold Rsign. destruct (Rlt_dec 0 0); [lra |]. destruct (Rlt_dec 0 0); [lra | reflexivity].
Qed.

Ltac case_sign r :=
  let H := fresh "Hs" in
  destruct (Rtotal_order r 0) as [H | [H | H]];
  [ try rewrite (Rsign_neg r H) | subst; try rewrite Rsign_zero
  | try rewrite (Rsign_pos r H) ].

Lemma fadd_comm a b : fadd a b = fadd b a.
Proof. destruct a, b; simpl; try reflexivity. f_equal; ring. Qed.

Lemma fadd_0_l a : fadd (Fin 0) a = a.
Proof. destruct a; simpl; try reflexivity. f_equal; ring. Qed.

Lemma fadd_0_r a : fadd a (Fin 0) = a.
Proof. rewrite fadd_comm. apply fadd_0_l. Qed.

Lemma fadd_assoc a b c : fadd a (fadd b c) = fadd (fadd a b) c.
Proof. destruct a, b, c; simpl; try reflexivity. f_equal; ring. Qed.

Ltac sign_of t :=
  first [ rewrite (Rsign_pos t) by nra
        | rewrite (Rsign_neg t) by nra
        | replace t with 0 by nra; rewrite Rsign_zero ].

Ltac norm_sign :=
  repeat match goal with |- context [Rsign ?t] => sign_of t end.

Ltac split_sign r :=
  let H := fresh "Hs" in
  destruct (Rtotal_order r 0) as [H | [H | H]]; [| subst r |].

(** Scaling by a finite non-zero constant distributes over sums and moves
    through products, special values included. *)
Lemma fmul_fadd_distr c a b : c <> 0 ->
  fmul (Fin c) (fadd a b) = fadd (fmul (Fin c) a) (fmul (Fin c) b).
Proof.
  intros Hc. split_sign c; [| contradiction |];
    destruct a, b; simpl; norm_sign; try reflexivity; f_equal; ring.
Qed.

Lemma fmul_scalar_assoc c a b : c <> 0 ->
  fmul (fmul (Fin c) a) b = fmul (Fin c) (fmul a b).
Proof.
  intros Hc. split_sign c; [| contradiction |];
    destruct a as [x | | |], b as [y | | |]; simpl; try reflexivity;
    try (f_equal; ring);
    try (split_sign x; simpl; norm_sign; simpl; norm_sign; reflexivity);
    try (split_sign y; simpl; norm_sign; simpl; norm_sign; reflexivity);
    norm_sign; simpl; norm_sign; reflexivity.
Qed.

(** ** Lists *)

Lemma map_fmap {A B} (f : A -> B) (l : list A) : map f l = f <$> l.
Proof. reflexivity. Qed.

Lemma shape2_lookup n d m i r :
  shape2 n d m -> m !! i = Some r -> length r = d.
Proof.
  intros [_ Hall] Hi. rewrite Forall_forall in Hall.
  apply Hall. eapply list_elem_of_lookup_2; eauto.
Qed.

(** ** [Gaussian_pdf] *)

Lemma vsum_vscale c v : c <> 0 ->
  vsum (vscale (Fin c) v) = fmul (Fin c) (vsum v).
Proof.
  intros Hc. induction v as [| a v IH]; simpl.
  - f_equal. ring.
  - rewrite IH. symmetry. apply fmul_fadd_distr. exact Hc.
Qed.

Lemma vmul_vscale c a b : c <> 0 ->
  vmul (vscale (Fin c) a) b = vscale (Fin c) (vmul a b).
Proof.
  intros Hc. revert b. induction a as [| x a IH]; intros [| y b]; simpl;
    try reflexivity.
  f_equal; [apply fmul_scalar_assoc; exact Hc | apply IH].
Qed.

Lemma dot_vscale c a b : c <> 0 ->
  dot (vscale (Fin c) a) b = fmul (Fin c) (dot a b).
Proof.
  intros Hc. unfold dot. rewrite vmul_vscale, vsum_vscale by exact Hc.
  reflexivity.
Qed.

Lemma vecmat_vscale c v m : c <> 0 ->
  vecmat (vscale (Fin c) v) m = vscale (Fin c) (vecmat v m).
Proof.
  intros Hc. unfold vecmat, vscale at 2. rewrite map_map.
  apply map_ext. intros j. apply dot_vscale. exact Hc.
Qed.

Lemma ncols_shape2 D (m : matrix) : shape2 D D m -> ncols m = D.
Proof.
  intros [Hlen Hrows]. unfold ncols. destruct m as [| r m].
  - simpl in *. congruence.
  - simpl. apply Forall_cons in Hrows as [Hr _]. exact Hr.
Qed.

Lemma length_vecmat (v : vec) (m : matrix) : length (vecmat v m) = ncols m.
Proof. unfold vecmat. rewrite length_map. apply length_seq. Qed.

Lemma length_vscale c (v : vec) : length (vscale c v) = length v.
Proof. unfold vscale. apply length_map. Qed.

Lemma length_vsub_same (a b : vec) :
  length a = length b -> length (vsub a b) = length a.
Proof. intros H. unfold vsub. rewrite length_zip_with. lia. Qed.

(** On a point of the component's dimension the shape checks pass, and the
    exponent of [getLikelihood] is minus half the quadratic form. *)
Lemma getLikelihood_density D g x :
  well_shaped D g -> length x = D ->
  getLikelihood g x = Ok (density (pdf_mean g) (pdf_inv g) (pdf_c g) x).
Proof.
  intros [Hmean Hinv] Hx.
  pose proof (ncols_shape2 D _ Hinv) as Hcols. destruct Hinv as [Hrows _].
  unfold getLikelihood, broadcast_sub.
  replace (Nat.eqb (length x) (length (pdf_mean g))) with true
    by (symmetry; apply Nat.eqb_eq; congruence).
  cbn [rbind]. unfold matmul_vm.
  replace (Nat.eqb (length (vscale (Fin (- (1 / 2))) (vsub x (pdf_mean g))))
                   (length (pdf_inv g))) with true
    by (symmetry; apply Nat.eqb_eq;
        rewrite length_vscale, length_vsub_same; congruence).
  cbn [rbind]. unfold matmul_vv.
  replace (Nat.eqb _ (length (vsub x (pdf_mean g)))) with true
    by (symmetry; apply Nat.eqb_eq;
        rewrite length_vecmat, length_vsub_same; congruence).
  cbn [rbind]. unfold density, quadratic_form.
  rewrite vecmat_vscale, dot_vscale by lra. reflexivity.
Qed.

(** A point of another width, neither being of width one, is refused. *)
Lemma getLikelihood_width_mismatch g x :
  length x <> length (pdf_mean g) ->
  length x <> 1%nat -> length (pdf_mean g) <> 1%nat ->
  getLikelihood g x = Raise ValueError.
Proof.
  intros H1 H2 H3. unfold getLikelihood, broadcast_sub.
  apply Nat.eqb_neq in H1, H2, H3. rewrite H1, H2, H3. reflexivity.
Qed.

Lemma regularize_entry (b : bool) (i j : nat) (v : float64) :
  fadd (fmul (fmul (astype_int b) (if Nat.eqb i j then Fin 1 else Fin 0))
             (Fin (1 / 1000))) v
  = if b then (if Nat.eqb i j then fadd v (Fin (1 / 1000)) else v) else v.
Proof.
  destruct b, (Nat.eqb i j), v; simpl; try reflexivity;
    apply (f_equal Fin); field.
Qed.

Lemma regularize_row (b : bool) (i d : nat) (r : vec) :
  length r = d ->
  vadd (map (fun a => fmul a (Fin (1 / 1000)))
          (vscale (astype_int b)
             (map (fun j => if Nat.eqb i j then Fin 1 else Fin 0) (seq 0 d)))) r
  = if b then imap (fun j v => if Nat.eqb i j then fadd v (Fin (1 / 1000)) else v) r
    else r.
Proof.
  intros Hr. apply list_eq. intros j.
  unfold vadd, vscale. rewrite !map_fmap, lookup_zip_with, !list_lookup_fmap.
  destruct (r !! j) as [v |] eqn:Hj.
  - assert (j < d)%nat by (rewrite <- Hr; eapply lookup_lt_Some; eauto).
    rewrite lookup_seq_lt by assumption.
    cbn -[fadd fmul astype_int]. rewrite regularize_entry.
    destruct b; [rewrite list_lookup_imap, Hj | rewrite Hj]; reflexivity.
  - destruct b; rewrite ?list_lookup_imap, ?Hj;
      destruct (seq 0 d !! j); reflexivity.
Qed.

(** The covariance the constructor keeps is the regularised one. *)
Lemma regularize_matrix (rank D : nat) (variance : matrix) :
  shape2 D D variance ->
  madd (mscale_r (mscale (astype_int (Nat.ltb rank D)) (eye D)) (Fin (1 / 1000)))
       variance
  = regularized D rank variance.
Proof.
  intros Hsq. unfold regularized, add_to_diagonal.
  apply list_eq. intros i.
  unfold madd, mscale_r, mscale, eye.
  rewrite !map_fmap, lookup_zip_with, !list_lookup_fmap.
  destruct (variance !! i) as [r |] eqn:Hi.
  - pose proof (shape2_lookup _ _ _ _ _ Hsq Hi) as Hr.
    assert (i < D)%nat by (destruct Hsq as [<- _]; eapply lookup_lt_Some; eauto).
    rewrite lookup_seq_lt by assumption. simpl.
    rewrite (regularize_row (Nat.ltb rank D) i D r Hr).
    destruct (Nat.ltb rank D).
    + rewrite list_lookup_imap, Hi. reflexivity.
    + rewrite Hi. reflexivity.
  - destruct (Nat.ltb rank D); rewrite ?list_lookup_imap, ?Hi;
      destruct (seq 0 D !! i); reflexivity.
Qed.

Lemma broadcast_add_square D (a variance : matrix) :
  shape2 D D variance -> broadcast_add D a variance = Ok (madd a variance).
Proof.
  intros [_ Hrows]. unfold broadcast_add.
  assert (H : forallb (fun r : vec => Nat.eqb (length r) D) variance = true).
  { apply forallb_forall. intros r Hr. apply Nat.eqb_eq.
    rewrite Forall_forall in Hrows. apply Hrows, list_elem_of_In, Hr. }
  rewrite H. reflexivity.
Qed.

Lemma eye_shape n : shape2 n n (eye n).
Proof.
  unfold eye. split; [rewrite length_map; apply length_seq |].
  apply Forall_map, Forall_forall. intros i _.
  rewrite length_map. apply length_seq.
Qed.

Lemma power_overflows_false D : (D <= 386)%nat -> power_overflows D = false.
Proof. intros H. unfold power_overflows. apply Nat.leb_gt. lia. Qed.

Lemma power_overflows_true D : (387 <= D)%nat -> power_overflows D = true.
Proof. intros H. unfold power_overflows. apply Nat.leb_le. exact H. Qed.

(** From [D = 387] on the power [(2 * np.pi) ** D] overflows: once the
    rank is computed and the covariance inverted the constructor raises,
    and the determinant is never asked for. *)
Lemma Gaussian_pdf_init_overflow np mean (variance : matrix) rank inv :
  shape2 (length variance) (length variance) variance ->
  linalg_matrix_rank np variance = Ok rank ->
  linalg_inv np
    (madd (mscale_r (mscale (astype_int (Nat.ltb rank (length variance)))
                            (eye (length variance)))
                    (Fin (1 / 1000)))
          variance) = Ok inv ->
  (387 <= length variance)%nat ->
  Gaussian_pdf_init np mean variance = Raise OverflowError.
Proof.
  intros Hsq Hrank Hinv HD. unfold Gaussian_pdf_init.
  rewrite Hrank. cbn [rbind].
  rewrite (broadcast_add_square _ _ _ Hsq). cbn [rbind].
  rewrite Hinv. cbn [rbind].
  rewrite power_overflows_true by exact HD. reflexivity.
Qed.

(** C5: for [D] up to 386 the constructor adds [0.001 * I] to a [D] by [D]
    covariance exactly when its rank is below [D], inverts the result and
    sets [c = (2 pi)^D * det] of it; [getLikelihood] then returns
    [exp(-0.5 (x - mean)^T inv (x - mean)) / sqrt(c)] on every point of [D]
    coordinates, the inverse being [D] by [D]. *)
Theorem Gaussian_pdf_density (np : library) (D : nat) (mean : vec)
    (variance : matrix) :
  length mean = D ->
  shape2 D D variance ->
  (D <= 386)%nat ->
  Gaussian_pdf_init np mean variance =
    rbind (linalg_matrix_rank np variance) (fun rank =>
    rbind (linalg_inv np (regularized D rank variance)) (fun inv =>
    rbind (linalg_det np (regularized D rank variance)) (fun det =>
    Ok {| pdf_mean := mean;
          pdf_variance := regularized D rank variance;
          pdf_c := fmul (Fin ((2 * PI) ^ D)) det;
          pdf_inv := inv |})))
  /\ forall g x,
       Gaussian_pdf_init np mean variance = Ok g ->
       length x = D ->
       shape2 D D (pdf_inv g) ->
       exists rank inv det,
         linalg_matrix_rank np variance = Ok rank /\
         linalg_inv np (regularized D rank variance) = Ok inv /\
         linalg_det np (regularized D rank variance) = Ok det /\
         getLikelihood g x =
           Ok (fdiv (fexp (fmul (Fin (- (1 / 2)))
                                (quadratic_form (vsub x mean) inv)))
                    (fsqrt (fmul (Fin ((2 * PI) ^ D)) det))).
Proof.
  intros Hmean Hsq HD.
  assert (Hinit : Gaussian_pdf_init np mean variance =
    rbind (linalg_matrix_rank np variance) (fun rank =>
    rbind (linalg_inv np (regularized D rank variance)) (fun inv =>
    rbind (linalg_det np (regularized D rank variance)) (fun det =>
    Ok {| pdf_mean := mean;
          pdf_variance := regularized D rank variance;
          pdf_c := fmul (Fin ((2 * PI) ^ D)) det;
          pdf_inv := inv |})))).
  { unfold Gaussian_pdf_init. destruct Hsq as [Hlen Hrows]. rewrite Hlen.
    rewrite (power_overflows_false D HD).
    destruct (linalg_matrix_rank np variance) as [rank |]; [| reflexivity].
    cbn [rbind].
    rewrite (broadcast_add_square D _ variance (conj Hlen Hrows)).
    cbn [rbind].
    rewrite (regularize_matrix rank D variance (conj Hlen Hrows)).
    reflexivity. }
  split; [exact Hinit |].
  intros g x Hg Hx Hshape. rewrite Hinit in Hg.
  destruct (linalg_matrix_rank np variance) as [rank |] eqn:Hrank;
    [| discriminate].
  simpl in Hg.
  destruct (linalg_inv np (regularized D rank variance)) as [inv |] eqn:Hinv;
    [| discriminate].
  destruct (linalg_det np (regularized D rank variance)) as [det |] eqn:Hdet;
    [| discriminate].
  simpl in Hg. injection Hg as <-.
  exists rank, inv, det.
  split; [reflexivity |]. split; [exact Hinv |]. split; [exact Hdet |].
  apply (getLikelihood_density D); [| exact Hx].
  split; [exact Hmean | exact Hshape].
Qed.

(** [Gaussian_pdf_density] on the unit variance in one dimension. *)
Lemma Gaussian_pdf_density_witness :
  length [Fin 0] = 1%nat /\ shape2 1 1 [[Fin 1]] /\ (1 <= 386)%nat /\
  forall g x,
    Gaussian_pdf_init (scalar_library (fun _ => [])) [Fin 0] [[Fin 1]] = Ok g ->
    length x = 1%nat ->
    shape2 1 1 (pdf_inv g) ->
    exists rank inv det,
      rank1 [[Fin 1]] = Ok rank /\
      inv1 (regularized 1 rank [[Fin 1]]) = Ok inv /\
      det1 (regularized 1 rank [[Fin 1]]) = Ok det /\
      getLikelihood g x =
        Ok (fdiv (fexp (fmul (Fin (- (1 / 2)))
                             (quadratic_form (vsub x [Fin 0]) inv)))
                 (fsqrt (fmul (Fin ((2 * PI) ^ 1)) det))).
Proof.
  assert (Hsq : shape2 1 1 [[Fin 1]]).
  { split; [reflexivity |]. repeat constructor. }
  assert (HD : (1 <= 386)%nat) by lia.
  split; [reflexivity |]. split; [exact Hsq |]. split; [exact HD |].
  exact (proj2 (Gaussian_pdf_density (scalar_library (fun _ => [])) 1
                  [Fin 0] [[Fin 1]] eq_refl Hsq HD)).
Defined.

(** C5 as stated, for every [D], fails: on the identity of dimension 387,
    with a rank routine that finds it of full rank and an inversion that
    returns it, the constructor raises [OverflowError]; no [c] is set. *)
Lemma Gaussian_pdf_overflow_387 :
  length (replicate 387 (Fin 0)) = 387%nat /\
  shape2 387 387 (eye 387) /\
  Gaussian_pdf_init identity_library (replicate 387 (Fin 0)) (eye 387)
  = Raise OverflowError.
Proof.
  pose proof (eye_shape 387) as Hsq.
  assert (Hlen : length (eye 387) = 387%nat) by apply Hsq.
  split; [apply length_replicate |]. split; [exact Hsq |].
  eapply Gaussian_pdf_init_overflow.
  - rewrite Hlen. exact Hsq.
  - reflexivity.
  - reflexivity.
  - rewrite Hlen. apply le_n.
Qed.

(** ** Transposition and the row normalisation of the E-step *)

Lemma length_transpose n (m : matrix) : length (transpose n m) = n.
Proof. unfold transpose. rewrite length_map. apply length_seq. Qed.

Lemma lookup_transpose n (m : matrix) j :
  (j < n)%nat -> transpose n m !! j = Some (column j m).
Proof.
  intros Hj. unfold transpose.
  rewrite map_fmap, list_lookup_fmap, lookup_seq_lt by assumption. reflexivity.
Qed.

Lemma lookup_transpose_ge n (m : matrix) j :
  (n <= j)%nat -> transpose n m !! j = None.
Proof.
  intros Hj. apply lookup_ge_None_2. rewrite length_transpose. exact Hj.
Qed.

Lemma lookup_column j (m : matrix) i r :
  m !! i = Some r -> column j m !! i = Some (nth j r NaN).
Proof.
  intros Hi. unfold column. rewrite map_fmap, list_lookup_fmap, Hi. reflexivity.
Qed.

Lemma nth_zip_with {A B C} (f : A -> B -> C) (a : list A) (b : list B) i x y d :
  a !! i = Some x -> b !! i = Some y -> nth i (zip_with f a b) d = f x y.
Proof.
  intros Ha Hb. apply nth_lookup_Some.
  rewrite lookup_zip_with, Ha, Hb. reflexivity.
Qed.

Lemma map_nth_seq {A} (l : list A) d :
  map (fun j => nth j l d) (seq 0 (length l)) = l.
Proof.
  apply list_eq. intros j. rewrite map_fmap, list_lookup_fmap.
  destruct (l !! j) as [a |] eqn:Hj.
  - rewrite lookup_seq_lt by (eapply lookup_lt_Some; eauto). simpl.
    f_equal. apply nth_lookup_Some. exact Hj.
  - rewrite lookup_seq_ge by (apply lookup_ge_None_1; exact Hj). reflexivity.
Qed.

Lemma length_vmul_same (a b : vec) :
  length a = length b -> length (vmul a b) = length a.
Proof. intros H. unfold vmul. rewrite length_zip_with. lia. Qed.

(** Line 113 divides every row of [pi_k * Normal] by its sum. *)
Lemma responsibilities_rows (K N : nat) (pi_k : vec) (Normal : matrix) :
  N <> 0%nat ->
  length pi_k = K ->
  shape2 N K Normal ->
  responsibilities K N pi_k Normal =
    Ok (map (fun row => normalize (vmul pi_k row)) Normal).
Proof.
  intros HN Hpi Hshape. unfold responsibilities.
  destruct (Nat.eqb_spec N 0) as [| _]; [contradiction |].
  rewrite Hpi, Nat.eqb_refl. simpl. f_equal.
  apply list_eq. intros i.
  set (W := map (fun row => vmul pi_k row) Normal).
  rewrite (map_fmap _ Normal), list_lookup_fmap.
  destruct (Normal !! i) as [row |] eqn:Hi.
  - assert (HiN : (i < N)%nat).
    { destruct Hshape as [<- _]. eapply lookup_lt_Some; eauto. }
    pose proof (shape2_lookup _ _ _ _ _ Hshape Hi) as Hrow.
    assert (HW : W !! i = Some (vmul pi_k row)).
    { unfold W. rewrite map_fmap, list_lookup_fmap, Hi. reflexivity. }
    assert (Hs : sum_axis1 W !! i = Some (vsum (vmul pi_k row))).
    { unfold sum_axis1. rewrite map_fmap, list_lookup_fmap, HW. reflexivity. }
    rewrite lookup_transpose by assumption. simpl. f_equal.
    unfold column at 1. rewrite map_map. unfold transpose. rewrite map_map.
    unfold normalize, vdiv.
    transitivity (map (fun a => fdiv a (vsum (vmul pi_k row)))
                   (map (fun j => nth j (vmul pi_k row) NaN) (seq 0 K))).
    + rewrite map_map. apply map_ext. intros j.
      apply nth_zip_with; [apply lookup_column; exact HW | exact Hs].
    + f_equal. rewrite <- Hpi at 1.
      rewrite <- (length_vmul_same pi_k row) by congruence.
      apply map_nth_seq.
  - rewrite lookup_transpose_ge; [reflexivity |].
    destruct Hshape as [<- _]. apply lookup_ge_None_1. exact Hi.
Qed.

(** ** Sums of finite values *)

Lemma fadd_fin_inv a b m :
  fadd a b = Fin m -> exists x y, a = Fin x /\ b = Fin y /\ m = x + y.
Proof.
  destruct a as [x | | |], b as [y | | |]; simpl; try discriminate.
  intros [= <-]. eauto.
Qed.

Lemma vsum_fin (l : list R) : vsum (map Fin l) = Fin (rsum l).
Proof. induction l as [| a l IH]; simpl; [| rewrite IH]; reflexivity. Qed.

Lemma vsum_fin_inv (w : vec) m :
  vsum w = Fin m -> exists l, w = map Fin l /\ m = rsum l.
Proof.
  revert m. induction w as [| a w IH]; intros m Hm; simpl in Hm.
  - exists []. injection Hm as <-. split; reflexivity.
  - apply fadd_fin_inv in Hm as (x & y & -> & Hy & ->).
    destruct (IH y Hy) as (l & -> & ->).
    exists (x :: l). split; reflexivity.
Qed.

Lemma fdiv_fin x y : y <> 0 -> fdiv (Fin x) (Fin y) = Fin (x / y).
Proof.
  intros Hy. simpl. destruct (Req_dec_T y 0); [contradiction | reflexivity].
Qed.

Lemma vdiv_fin (l : list R) m :
  m <> 0 -> vdiv (map Fin l) (Fin m) = map Fin (map (fun a => a / m) l).
Proof.
  intros Hm. unfold vdiv. rewrite !map_map.
  apply map_ext. intros a. apply fdiv_fin. exact Hm.
Qed.

Lemma rsum_div (l : list R) m :
  rsum (map (fun a => a / m) l) = rsum l / m.
Proof.
  induction l as [| a l IH]; simpl.
  - unfold Rdiv. ring.
  - rewrite IH. unfold Rdiv. ring.
Qed.

(** A row of positive finite total, once normalised, sums to one. *)
Lemma normalize_sums_to_one (w : vec) (mass : R) :
  vsum w = Fin mass -> 0 < mass -> vsum (normalize w) = Fin 1.
Proof.
  intros Hsum Hpos. unfold normalize. rewrite Hsum.
  destruct (vsum_fin_inv w mass Hsum) as (l & -> & ->).
  rewrite vdiv_fin by lra. rewrite vsum_fin, rsum_div.
  f_equal. field. lra.
Qed.

(** A row of zero total, once normalised, holds [nan] in every entry. *)
Lemma normalize_zero_mass (w : vec) :
  Forall (fun a => a = Fin 0) w -> normalize w = map (fun _ => NaN) w.
Proof.
  intros Hw. unfold normalize.
  assert (Hsum : vsum w = Fin 0).
  { induction Hw as [| a w -> _ IH]; simpl; [reflexivity |].
    rewrite IH. simpl. f_equal. ring. }
  rewrite Hsum. clear Hsum. unfold vdiv.
  induction Hw as [| a w -> _ IH]; simpl; [reflexivity |].
  rewrite IH. f_equal.
  destruct (Req_dec_T 0 0); [| contradiction]. rewrite Rsign_zero. reflexivity.
Qed.

(** ** Running computations *)

Section Run.

Context (np : library).

Lemma bind_Ok {A B} (m : M np A) (f : A -> M np B) s b s' :
  bind np m f s = (Ok b, s') ->
  exists a s1, m s = (Ok a, s1) /\ f a s1 = (Ok b, s').
Proof.
  unfold bind. destruct (m s) as [[a | x] s1]; [eauto | discriminate].
Qed.

Lemma bind_run {A B} (m : M np A) (f : A -> M np B) s a s1 :
  m s = (Ok a, s1) -> bind np m f s = f a s1.
Proof. intros H. unfold bind. rewrite H. reflexivity. Qed.

Lemma bind_raise {A B} (m : M np A) (f : A -> M np B) s x s1 :
  m s = (Raise x, s1) -> bind np m f s = (Raise x, s1).
Proof. intros H. unfold bind. rewrite H. reflexivity. Qed.

Lemma rbind_Ok {A B} (r : result A) (f : A -> result B) b :
  rbind r f = Ok b -> exists a, r = Ok a /\ f a = Ok b.
Proof. destruct r; simpl; [eauto | discriminate]. Qed.

(** A computation that leaves the state as it found it. *)
Definition reads {A} (m : M np A) : Prop :=
  forall s r s', m s = (r, s') -> s' = s.

Lemma reads_ret {A} (a : A) : reads (ret np a).
Proof. intros s r s' [= _ <-]. reflexivity. Qed.

Lemma reads_raise {A} x : reads (@raise np A x).
Proof. intros s r s' [= _ <-]. reflexivity. Qed.

Lemma reads_lift {A} (r0 : result A) : reads (lift np r0).
Proof. intros s r s' [= _ <-]. reflexivity. Qed.

Lemma reads_get_self : reads (get_self np).
Proof. intros s r s' [= _ <-]. reflexivity. Qed.

Lemma reads_bind {A B} (m : M np A) (f : A -> M np B) :
  reads m -> (forall a, reads (f a)) -> reads (bind np m f).
Proof.
  intros Hm Hf s r s'. unfold bind.
  destruct (m s) as [[a | x] s1] eqn:E; apply Hm in E; subst s1.
  - apply Hf.
  - intros [= _ <-]. reflexivity.
Qed.

Lemma reads_load r : reads (load np r).
Proof.
  intros s res s'. unfold load.
  destruct r as [l |]; [destruct (heap np s !! l) |]; intros [= _ <-]; reflexivity.
Qed.

Lemma reads_load1 r : reads (load1 np r).
Proof.
  apply reads_bind; [apply reads_load |].
  intros [v | m | t]; auto using reads_ret, reads_raise.
Qed.

Lemma reads_load2 r : reads (load2 np r).
Proof.
  apply reads_bind; [apply reads_load |].
  intros [v | m | t]; auto using reads_ret, reads_raise.
Qed.

Lemma reads_load3 r : reads (load3 np r).
Proof.
  apply reads_bind; [apply reads_load |].
  intros [v | m | t]; auto using reads_ret, reads_raise.
Qed.

Lemma load1_Ok r s v s' :
  load1 np r s = (Ok v, s') ->
  s' = s /\ exists l, r = Some l /\ heap np s !! l = Some (Arr1 v).
Proof.
  intros H. split; [eapply reads_load1; eauto |].
  unfold load1, bind, load in H.
  destruct r as [l |]; [| discriminate].
  destruct (heap np s !! l) as [[w | m | t] |] eqn:E; try discriminate.
  injection H as -> _. eauto.
Qed.

Lemma load2_Ok r s m s' :
  load2 np r s = (Ok m, s') ->
  s' = s /\ exists l, r = Some l /\ heap np s !! l = Some (Arr2 m).
Proof.
  intros H. split; [eapply reads_load2; eauto |].
  unfold load2, bind, load in H.
  destruct r as [l |]; [| discriminate].
  destruct (heap np s !! l) as [[w | m' | t] |] eqn:E; try discriminate.
  injection H as -> _. eauto.
Qed.

Lemma load3_Ok r s t s' :
  load3 np r s = (Ok t, s') ->
  s' = s /\ exists l, r = Some l /\ heap np s !! l = Some (Arr3 t).
Proof.
  intros H. split; [eapply reads_load3; eauto |].
  unfold load3, bind, load in H.
  destruct r as [l |]; [| discriminate].
  destruct (heap np s !! l) as [[w | m' | t'] |] eqn:E; try discriminate.
  injection H as -> _. eauto.
Qed.

Lemma load1_run l s v :
  heap np s !! l = Some (Arr1 v) -> load1 np (Some l) s = (Ok v, s).
Proof. intros H. unfold load1, bind, load. rewrite H. reflexivity. Qed.

Lemma load2_run l s m :
  heap np s !! l = Some (Arr2 m) -> load2 np (Some l) s = (Ok m, s).
Proof. intros H. unfold load2, bind, load. rewrite H. reflexivity. Qed.

Lemma load3_run l s t :
  heap np s !! l = Some (Arr3 t) -> load3 np (Some l) s = (Ok t, s).
Proof. intros H. unfold load3, bind, load. rewrite H. reflexivity. Qed.

Lemma reads_fill_inst m v ks : reads (fill_inst np m v ks).
Proof.
  induction ks as [| k ks IH]; cbn [fill_inst]; [apply reads_ret |].
  apply reads_bind; [apply reads_load2 |]. intros mv.
  apply reads_bind; [apply reads_lift |]. intros a.
  apply reads_bind; [apply reads_load3 |]. intros vv.
  apply reads_bind; [apply reads_lift |]. intros b.
  apply reads_bind; [apply reads_lift |]. intros g.
  apply reads_bind; [exact IH |]. intros inst. apply reads_ret.
Qed.

(** When both arrays can be read, the loop is the comprehension over
    them, errors included. *)
Lemma fill_inst_collect m v mv vv ks s :
  load2 np m s = (Ok mv, s) -> load3 np v s = (Ok vv, s) ->
  fill_inst np m v ks s
  = (collect (fun k =>
       rbind (index mv k) (fun a =>
       rbind (index vv k) (fun b => Gaussian_pdf_init np a b))) ks, s).
Proof.
  intros Hm Hv. induction ks as [| k ks IH]; [reflexivity |].
  cbn [fill_inst collect].
  rewrite (bind_run _ _ _ _ _ Hm).
  unfold bind at 1, lift at 1.
  destruct (index mv k) as [a | err]; [| reflexivity]. cbn [rbind].
  rewrite (bind_run _ _ _ _ _ Hv).
  unfold bind at 1, lift at 1.
  destruct (index vv k) as [b | err]; [| reflexivity]. cbn [rbind].
  unfold bind at 1, lift at 1.
  destruct (Gaussian_pdf_init np a b) as [g | err]; [| reflexivity].
  cbn [rbind]. unfold bind at 1. rewrite IH.
  destruct (collect _ ks) as [inst | err]; reflexivity.
Qed.

Lemma fill_inst_run m v mv vv K s :
  load2 np m s = (Ok mv, s) -> load3 np v s = (Ok vv, s) ->
  fill_inst np m v (seq 0 K) s = (build_inst np K mv vv, s).
Proof. intros Hm Hv. apply fill_inst_collect; assumption. Qed.

Lemma fill_inst_Ok m v K s inst s' :
  fill_inst np m v (seq 0 K) s = (Ok inst, s') ->
  s' = s /\
  exists mv vv,
    build_inst np K mv vv = Ok inst /\
    (K <> 0%nat ->
     load2 np m s = (Ok mv, s) /\ load3 np v s = (Ok vv, s)).
Proof.
  intros H. split; [eapply reads_fill_inst; eauto |].
  destruct K as [| K].
  - injection H as <- _. exists [], []. split; [reflexivity |].
    intros HK. contradiction.
  - pose proof H as H0. cbn [seq fill_inst] in H0.
    apply bind_Ok in H0 as (mv & s1 & Hmv & H0).
    pose proof (reads_load2 _ _ _ _ Hmv) as ->.
    apply bind_Ok in H0 as (a & s1 & Ha & H0). injection Ha as _ <-.
    apply bind_Ok in H0 as (vv & s1 & Hvv & _).
    pose proof (reads_load3 _ _ _ _ Hvv) as ->.
    exists mv, vv. rewrite (fill_inst_run _ _ _ _ _ _ Hmv Hvv) in H.
    injection H as H _. auto.
Qed.

(** The list a comprehension builds. *)
Lemma collect_Ok {A} (f : nat -> result A) ks l :
  collect f ks = Ok l -> Forall2 (fun k a => f k = Ok a) ks l.
Proof.
  revert l. induction ks as [| k ks IH]; intros l H; simpl in H.
  - injection H as <-. constructor.
  - apply rbind_Ok in H as (a & Ha & H).
    apply rbind_Ok in H as (l' & Hl' & H). injection H as <-.
    constructor; auto.
Qed.

Lemma collect_run {A} (f : nat -> result A) ks l :
  Forall2 (fun k a => f k = Ok a) ks l -> collect f ks = Ok l.
Proof.
  induction 1 as [| k a ks l Hk _ IH]; simpl; [reflexivity |].
  rewrite Hk. simpl. rewrite IH. reflexivity.
Qed.

Lemma collect_length {A} (f : nat -> result A) ks l :
  collect f ks = Ok l -> length l = length ks.
Proof. intros H. apply collect_Ok in H. symmetry. eapply Forall2_length; eauto. Qed.

Lemma collect_lookup {A} (f : nat -> result A) n l i a :
  collect f (seq 0 n) = Ok l -> l !! i = Some a -> f i = Ok a.
Proof.
  intros H Hi. apply collect_Ok in H.
  destruct (Forall2_lookup_r _ _ _ _ _ H Hi) as (k & Hk & Hf).
  apply lookup_seq in Hk as [-> _]. exact Hf.
Qed.

End Run.

(** ** The E-step *)

Section EStep.

Context (np : library).

Lemma densities_shape K x mv vv Normal :
  densities np K x mv vv = Ok Normal -> shape2 (length x) K Normal.
Proof.
  unfold densities, densities_of. intros H.
  apply rbind_Ok in H as (inst & _ & H).
  split.
  - apply collect_length in H. rewrite H. apply length_seq.
  - apply Forall_forall. intros row Hrow.
    apply list_elem_of_lookup in Hrow as [i Hi].
    pose proof (collect_lookup _ _ _ _ _ H Hi) as Hf. simpl in Hf.
    apply rbind_Ok in Hf as (xi & _ & Hf).
    apply collect_length in Hf. rewrite Hf. apply length_seq.
Qed.

Lemma responsibilities_Ok K N pv Normal gamma :
  responsibilities K N pv Normal = Ok gamma ->
  N <> 0%nat /\ length pv = K.
Proof.
  unfold responsibilities.
  destruct (Nat.eqb_spec N 0); [discriminate |].
  destruct (Nat.eqb_spec (length pv) K); [auto | discriminate].
Qed.

Lemma e_step_Ok K x m v p st gamma st' :
  e_step np K x m v p st = (Ok gamma, st') ->
  st' = st /\
  exists mv vv pv Normal,
    densities np K x mv vv = Ok Normal /\
    load1 np p st = (Ok pv, st) /\
    responsibilities K (length x) pv Normal = Ok gamma.
Proof.
  unfold e_step. intros H.
  apply bind_Ok in H as (inst & s1 & Hinst & H).
  apply fill_inst_Ok in Hinst as (-> & mv & vv & Hinst & _).
  apply bind_Ok in H as (Normal & s3 & HN & H).
  injection HN as HN <-.
  apply bind_Ok in H as (pv & s4 & Hpv & H).
  pose proof (reads_load1 np _ _ _ _ Hpv) as ->.
  injection H as H <-.
  split; [reflexivity |]. exists mv, vv, pv, Normal.
  unfold densities. rewrite Hinst. auto.
Qed.

End EStep.

Lemma map_const_replicate {A B} (c : B) (l : list A) :
  map (fun _ => c) l = replicate (length l) c.
Proof. induction l as [| a l IH]; simpl; [| rewrite IH]; reflexivity. Qed.

Lemma vsum_nan (v : vec) : NaN ∈ v -> vsum v = NaN.
Proof.
  induction v as [| a v IH]; intros H; inversion H; subst; simpl.
  - reflexivity.
  - rewrite IH by assumption. destruct a; reflexivity.
Qed.

(** C6, for the masses that are numbers: after an E-step, the row of
    [gamma_ik] of every data point whose total unnormalised density mass is
    a positive finite number is that point's weighted densities divided by
    the mass, and it sums to 1. *)
Theorem e_step_rows_sum_to_one (np : library) K x m v p st gamma st' :
  e_step np K x m v p st = (Ok gamma, st') ->
  exists mv vv pv Normal,
    densities np K x mv vv = Ok Normal /\
    load1 np p st = (Ok pv, st) /\
    gamma = map (fun row => normalize (vmul pv row)) Normal /\
    forall i row mass,
      Normal !! i = Some row ->
      vsum (vmul pv row) = Fin mass ->
      0 < mass ->
      exists g,
        gamma !! i = Some g /\ g = vdiv (vmul pv row) (Fin mass) /\
        vsum g = Fin 1.
Proof.
  intros H. apply e_step_Ok in H as (-> & mv & vv & pv & Normal & HN & Hpv & Hg).
  exists mv, vv, pv, Normal.
  pose proof (densities_shape np _ _ _ _ _ HN) as Hshape.
  destruct (responsibilities_Ok _ _ _ _ _ Hg) as [Hn Hlen].
  rewrite responsibilities_rows in Hg by assumption.
  injection Hg as <-.
  repeat split; try assumption.
  intros i row mass Hi Hmass Hpos.
  exists (normalize (vmul pv row)). split; [| split].
  - rewrite map_fmap, list_lookup_fmap, Hi. reflexivity.
  - unfold normalize. rewrite Hmass. reflexivity.
  - eapply normalize_sums_to_one; eauto.
Qed.

(** C4, as the code has it: the row normalisation of line 113 raises
    nothing.  On [N >= 1] rows of [K] densities it returns an array, and the
    row of a data point whose weighted densities are all zero holds [nan] in
    every entry; nothing recovers it, the column sums [N_k] of the M-step
    are [nan] as well. *)
Theorem zero_mass_row_becomes_nan (K N : nat) (pv : vec) (Normal : matrix) :
  N <> 0%nat ->
  length pv = K ->
  shape2 N K Normal ->
  exists gamma,
    responsibilities K N pv Normal = Ok gamma /\
    forall i row,
      Normal !! i = Some row ->
      Forall (fun w => w = Fin 0) (vmul pv row) ->
      gamma !! i = Some (replicate K NaN) /\
      forall k, (k < K)%nat -> sum_axis0 K gamma !! k = Some NaN.
Proof.
  intros HN Hlen Hshape.
  exists (map (fun row => normalize (vmul pv row)) Normal).
  split; [apply responsibilities_rows; assumption |].
  intros i row Hi Hzero.
  pose proof (shape2_lookup _ _ _ _ _ Hshape Hi) as Hrow.
  assert (Hgi : map (fun row => normalize (vmul pv row)) Normal !! i
                = Some (replicate K NaN)).
  { rewrite map_fmap, list_lookup_fmap, Hi. simpl. f_equal.
    rewrite normalize_zero_mass by assumption.
    rewrite map_const_replicate, length_vmul_same by congruence.
    rewrite Hlen. reflexivity. }
  split; [exact Hgi |].
  intros k Hk. unfold sum_axis0.
  rewrite map_fmap, list_lookup_fmap, lookup_transpose by assumption. simpl.
  f_equal. apply vsum_nan.
  apply list_elem_of_lookup. exists i.
  rewrite (lookup_column k _ i _ Hgi).
  f_equal. apply nth_lookup_Some. apply lookup_replicate_2. exact Hk.
Qed.

Lemma shape2_one_row (d : nat) (r : vec) : length r = d -> shape2 1 d [r].
Proof. intros H. split; [reflexivity |]. repeat constructor. exact H. Qed.

(** [zero_mass_row_becomes_nan] on one point and two components of weight
    one half whose densities are both zero. *)
Lemma zero_mass_row_becomes_nan_witness :
  1%nat <> 0%nat /\ length [Fin (1 / 2); Fin (1 / 2)] = 2%nat /\
  shape2 1 2 [[Fin 0; Fin 0]] /\
  exists gamma,
    responsibilities 2 1 [Fin (1 / 2); Fin (1 / 2)] [[Fin 0; Fin 0]] = Ok gamma /\
    forall i row,
      [[Fin 0; Fin 0]] !! i = Some row ->
      Forall (fun w => w = Fin 0) (vmul [Fin (1 / 2); Fin (1 / 2)] row) ->
      gamma !! i = Some (replicate 2 NaN) /\
      forall k, (k < 2)%nat -> sum_axis0 2 gamma !! k = Some NaN.
Proof.
  assert (H1 : 1%nat <> 0%nat) by discriminate.
  assert (H2 : shape2 1 2 [[Fin 0; Fin 0]]) by (apply shape2_one_row; reflexivity).
  split; [exact H1 |]. split; [reflexivity |]. split; [exact H2 |].
  exact (zero_mass_row_becomes_nan 2 1 [Fin (1 / 2); Fin (1 / 2)]
           [[Fin 0; Fin 0]] H1 eq_refl H2).
Defined.

(** C4 as stated fails: normalising the row of a point whose two weighted
    densities are zero returns [nan, nan]; no division-by-zero error is
    raised. *)
Lemma zero_mass_is_not_an_error :
  responsibilities 2 1 [Fin (1 / 2); Fin (1 / 2)] [[Fin 0; Fin 0]]
    = Ok [[NaN; NaN]] /\
  responsibilities 2 1 [Fin (1 / 2); Fin (1 / 2)] [[Fin 0; Fin 0]]
    <> Raise ZeroDivisionError.
Proof.
  assert (H : responsibilities 2 1 [Fin (1 / 2); Fin (1 / 2)] [[Fin 0; Fin 0]]
              = Ok [[NaN; NaN]]).
  { rewrite responsibilities_rows;
      [| discriminate | reflexivity | apply shape2_one_row; reflexivity].
    simpl map. rewrite normalize_zero_mass; [reflexivity |].
    repeat constructor; simpl; f_equal; lra. }
  split; [exact H |]. rewrite H. discriminate.
Qed.

(** ** The M-step *)

Section MStep.

Context (np : library).

Lemma with_heap_id (s : state np) : with_heap np s (heap np s) = s.
Proof. destruct s; reflexivity. Qed.

Lemma with_heap_with_heap (s : state np) h1 h2 :
  with_heap np (with_heap np s h1) h2 = with_heap np s h2.
Proof. reflexivity. Qed.

Lemma setitem2_run l k v s m old :
  heap np s !! l = Some (Arr2 m) ->
  m !! k = Some old ->
  length v = length old ->
  setitem2 np (Some l) k v s
  = (Ok tt, with_heap np s (<[l := Arr2 (<[k := v]> m)]> (heap np s))).
Proof.
  intros Hl Hk Hlen. unfold setitem2.
  rewrite (bind_run np _ _ _ _ _ (load2_run np _ _ _ Hl)).
  rewrite Hk, Hlen, Nat.eqb_refl. reflexivity.
Qed.

Lemma setitem3_run l k v s t old :
  heap np s !! l = Some (Arr3 t) ->
  t !! k = Some old ->
  setitem3 np (Some l) k v s
  = (Ok tt, with_heap np s (<[l := Arr3 (<[k := v]> t)]> (heap np s))).
Proof.
  intros Hl Hk. unfold setitem3.
  rewrite (bind_run np _ _ _ _ _ (load3_run np _ _ _ Hl)).
  rewrite Hk. reflexivity.
Qed.

Lemma length_weighted_mean D x gamma k nk :
  length (weighted_mean D x gamma k nk) = D.
Proof.
  unfold weighted_mean, vdiv, sum_axis1.
  rewrite !length_map. apply length_transpose.
Qed.

Lemma map_seq_snoc {A} (f : nat -> A) j :
  map f (seq 0 (S j)) = map f (seq 0 j) ++ [f j].
Proof. rewrite seq_S, map_app. reflexivity. Qed.

(** The first loop of the M-step, from row [j] on: rows [0 .. j-1] already
    hold their new value. *)
Lemma update_means_run D x gamma N_k l n :
  forall j rest s,
    let f := fun k => weighted_mean D x gamma k (nth k N_k NaN) in
    heap np s !! l = Some (Arr2 (map f (seq 0 j) ++ rest)) ->
    length rest = n ->
    Forall (fun r => length r = D) rest ->
    update_means np D x gamma N_k (Some l) (seq j n) s
    = (Ok tt, with_heap np s (<[l := Arr2 (map f (seq 0 (j + n)))]> (heap np s))).
Proof.
  induction n as [| n IH]; intros j rest s f Hl Hlen Hrows.
  - destruct rest; [| discriminate]. rewrite app_nil_r in Hl.
    rewrite Nat.add_0_r. simpl. unfold ret.
    rewrite list_insert_id by exact Hl. rewrite with_heap_id. reflexivity.
  - destruct rest as [| old rest]; [discriminate |].
    injection Hlen as Hlen. apply Forall_cons in Hrows as [Hold Hrest].
    cbn [seq update_means].
    assert (Hj : length (map f (seq 0 j)) = j)
      by (rewrite length_map; apply length_seq).
    assert (Hk : (map f (seq 0 j) ++ old :: rest) !! j = Some old).
    { rewrite lookup_app_r by lia. rewrite Hj, Nat.sub_diag. reflexivity. }
    rewrite (bind_run np _ _ _ _ _
               (setitem2_run l j (f j) s _ old Hl Hk
                  (eq_trans (length_weighted_mean _ _ _ _ _) (eq_sym Hold)))).
    rewrite insert_app_r_alt by lia. rewrite Hj, Nat.sub_diag. cbn [insert list_insert].
    rewrite (IH (S j) rest); cbn [heap with_heap].
    + rewrite with_heap_with_heap, list_insert_insert_eq.
      replace (j + S n)%nat with (S j + n)%nat by lia.
      reflexivity.
    + rewrite list_lookup_insert_eq by (eapply lookup_lt_Some; eauto).
      rewrite map_seq_snoc, <- app_assoc. reflexivity.
    + assumption.
    + assumption.
Qed.

(** The second loop, from matrix [j] on; the means are all new already. *)
Lemma update_variances_run D x gamma N_k lm lv (mu : matrix) n :
  forall j rest s,
    let g := fun k => weighted_cov D x gamma k (nth k mu []) (nth k N_k NaN) in
    lm <> lv ->
    heap np s !! lm = Some (Arr2 mu) ->
    (j + n <= length mu)%nat ->
    heap np s !! lv = Some (Arr3 (map g (seq 0 j) ++ rest)) ->
    length rest = n ->
    update_variances np D x gamma N_k (Some lm) (Some lv) (seq j n) s
    = (Ok tt, with_heap np s (<[lv := Arr3 (map g (seq 0 (j + n)))]> (heap np s))).
Proof.
  induction n as [| n IH]; intros j rest s g Hne Hm Hmu Hl Hlen.
  - destruct rest; [| discriminate]. rewrite app_nil_r in Hl.
    rewrite Nat.add_0_r. simpl. unfold ret.
    rewrite list_insert_id by exact Hl. rewrite with_heap_id. reflexivity.
  - destruct rest as [| old rest]; [discriminate |].
    injection Hlen as Hlen. subst n.
    cbn [seq update_variances].
    assert (Hj : length (map g (seq 0 j)) = j)
      by (rewrite length_map; apply length_seq).
    assert (Hk : (map g (seq 0 j) ++ old :: rest) !! j = Some old).
    { rewrite lookup_app_r by lia. rewrite Hj, Nat.sub_diag. reflexivity. }
    destruct (lookup_lt_is_Some_2 mu j ltac:(lia)) as [mj Hmj].
    rewrite (bind_run np _ _ _ _ _ (load2_run np _ _ _ Hm)).
    unfold index. rewrite Hmj. unfold bind at 1, lift at 1.
    rewrite (bind_run np _ _ _ _ _ (setitem3_run lv j _ s _ old Hl Hk)).
    rewrite insert_app_r_alt by lia. rewrite Hj, Nat.sub_diag.
    cbn [insert list_insert].
    rewrite <- (nth_lookup_Some mu j [] mj Hmj).
    rewrite (IH (S j) rest); cbn [heap with_heap].
    + rewrite with_heap_with_heap, list_insert_insert_eq.
      replace (j + S (length rest))%nat with (S j + length rest)%nat by lia.
      reflexivity.
    + assumption.
    + rewrite list_lookup_insert_ne by (intros ->; contradiction). exact Hm.
    + lia.
    + rewrite list_lookup_insert_eq by (eapply lookup_lt_Some; eauto).
      rewrite map_seq_snoc, <- app_assoc. reflexivity.
    + reflexivity.
Qed.

Lemma length_new_means K x gamma : length (new_means K x gamma) = K.
Proof. unfold new_means. rewrite length_map. apply length_seq. Qed.

(** The whole M-step on well-shaped arrays: it returns, the arrays that
    [means] and [variances] refer to hold the new parameters, and the new
    weights are a fresh array. *)
Lemma m_step_run K x gamma lm lv s (mv : matrix) (vv : list matrix) :
  lm <> lv ->
  heap np s !! lm = Some (Arr2 mv) ->
  shape2 K (ncols x) mv ->
  heap np s !! lv = Some (Arr3 vv) ->
  length vv = K ->
  m_step np K x gamma (Some lm) (Some lv) s
  = (Ok (length (heap np s)),
     with_heap np s
       (<[lv := Arr3 (new_variances K x gamma (new_means K x gamma))]>
          (<[lm := Arr2 (new_means K x gamma)]> (heap np s))
        ++ [Arr1 (new_weights K x gamma)])).
Proof.
  intros Hne Hm [Hmlen Hmrows] Hv Hvlen. unfold m_step.
  pose proof (update_means_run (ncols x) x gamma (sum_axis0 K gamma) lm K
                0 mv s Hm Hmlen Hmrows) as Hmeans.
  cbn zeta in Hmeans. simpl in Hmeans.
  fold (new_means K x gamma) in Hmeans.
  rewrite (bind_run np _ _ _ _ _ Hmeans).
  set (s1 := with_heap np s (<[lm := Arr2 (new_means K x gamma)]> (heap np s))).
  assert (Hm1 : heap np s1 !! lm = Some (Arr2 (new_means K x gamma))).
  { apply list_lookup_insert_eq. eapply lookup_lt_Some; exact Hm. }
  assert (Hv1 : heap np s1 !! lv = Some (Arr3 ([] ++ vv))).
  { unfold s1. cbn [heap with_heap].
    rewrite list_lookup_insert_ne by exact Hne. exact Hv. }
  pose proof (update_variances_run (ncols x) x gamma (sum_axis0 K gamma) lm lv
                (new_means K x gamma) K 0 vv s1 Hne Hm1) as Hvars.
  cbn zeta in Hvars. rewrite length_new_means in Hvars.
  specialize (Hvars (le_n K) Hv1 Hvlen). simpl in Hvars.
  fold (new_variances K x gamma (new_means K x gamma)) in Hvars.
  rewrite (bind_run np _ _ _ _ _ Hvars).
  unfold alloc, s1. cbn [heap with_heap self gen].
  rewrite !length_insert. reflexivity.
Qed.

End MStep.

(** ** The new weights *)

Lemma sum_axis0_nil K : sum_axis0 K [] = replicate K (Fin 0).
Proof.
  unfold sum_axis0, transpose. rewrite map_map. simpl.
  rewrite map_const_replicate, length_seq. reflexivity.
Qed.

Lemma sum_axis0_cons K (row : vec) (g : matrix) :
  length row = K -> sum_axis0 K (row :: g) = vadd row (sum_axis0 K g).
Proof.
  intros Hrow. unfold sum_axis0, transpose, vadd. rewrite !map_map. simpl.
  transitivity (zip_with fadd (map (fun j => nth j row NaN) (seq 0 K))
                  (map (fun j => vsum (column j g)) (seq 0 K))).
  - generalize (seq 0 K). intros ks.
    induction ks as [| k ks IH]; simpl; [reflexivity | f_equal; exact IH].
  - rewrite <- Hrow, map_nth_seq. reflexivity.
Qed.

Lemma vsum_vadd (a b : vec) :
  length a = length b -> vsum (vadd a b) = fadd (vsum a) (vsum b).
Proof.
  revert b. induction a as [| x a IH]; intros [| y b] Hlen; try discriminate.
  - simpl. f_equal. ring.
  - simpl. rewrite IH by (simpl in Hlen; lia).
    rewrite <- !fadd_assoc. f_equal.
    rewrite !fadd_assoc. rewrite (fadd_comm y). reflexivity.
Qed.

Lemma length_sum_axis0 K g : length (sum_axis0 K g) = K.
Proof. unfold sum_axis0. rewrite length_map. apply length_transpose. Qed.

Lemma nonneg_fadd a b : nonneg a -> nonneg b -> nonneg (fadd a b).
Proof.
  intros (x & -> & Hx) (y & -> & Hy). exists (x + y). split; [reflexivity | lra].
Qed.

Lemma nonneg_vadd (a b : vec) :
  Forall nonneg a -> Forall nonneg b -> Forall nonneg (vadd a b).
Proof.
  intros Ha. revert b. induction Ha as [| x a Hx _ IH]; intros b Hb.
  - constructor.
  - destruct Hb as [| y b Hy Hb]; [constructor |].
    simpl. constructor; [apply nonneg_fadd; assumption | apply IH; assumption].
Qed.

(** Rows that are non-negative and sum to one: the column sums are
    non-negative and add up to the number of rows. *)
Lemma sum_axis0_stochastic K (gamma : matrix) :
  Forall (fun row => length row = K /\ Forall nonneg row /\ vsum row = Fin 1)
         gamma ->
  Forall nonneg (sum_axis0 K gamma) /\
  vsum (sum_axis0 K gamma) = Fin (INR (length gamma)).
Proof.
  induction 1 as [| row g (Hlen & Hnn & Hsum) _ [IHnn IHsum]].
  - rewrite sum_axis0_nil. split.
    + apply Forall_replicate. exists 0. split; [reflexivity | lra].
    + simpl. clear. induction K as [| K IH]; simpl; [reflexivity |].
      rewrite IH. simpl. f_equal. ring.
  - rewrite sum_axis0_cons by assumption. split.
    + apply nonneg_vadd; assumption.
    + rewrite vsum_vadd by (rewrite length_sum_axis0; assumption).
      rewrite Hsum, IHsum. cbn [length fadd]. f_equal.
      rewrite S_INR. ring.
Qed.

Lemma Forall_nonneg_fin (l : list R) :
  Forall nonneg (map Fin l) -> Forall (fun a => 0 <= a) l.
Proof.
  induction l as [| a l IH]; simpl; intros H; [constructor |].
  apply Forall_cons in H as [(r & [= ->] & Hr) Hl]. constructor; auto.
Qed.

(** The weights [N_k / N] form a probability vector. *)
Lemma new_weights_distribution K (x gamma : matrix) :
  length gamma = length x ->
  x <> [] ->
  Forall (fun row => length row = K /\ Forall nonneg row /\ vsum row = Fin 1)
         gamma ->
  Forall nonneg (new_weights K x gamma) /\
  vsum (new_weights K x gamma) = Fin 1 /\
  length (new_weights K x gamma) = K.
Proof.
  intros Hlen Hx Hrows.
  destruct (sum_axis0_stochastic K gamma Hrows) as [Hnn Hsum].
  assert (HN : 0 < INR (length x)).
  { apply lt_0_INR. destruct x; [contradiction | simpl; lia]. }
  unfold new_weights, of_nat.
  destruct (vsum_fin_inv _ _ Hsum) as (l & Hl & Hl').
  rewrite Hlen in Hl'.
  split; [| split].
  - rewrite Hl in Hnn |- *. apply Forall_nonneg_fin in Hnn.
    rewrite vdiv_fin by lra.
    rewrite Forall_forall in Hnn. apply Forall_forall. intros a Ha.
    rewrite !map_fmap in Ha.
    apply list_elem_of_fmap in Ha as (b & -> & Hb).
    apply list_elem_of_fmap in Hb as (c & -> & Hc).
    exists (c / INR (length x)). split; [reflexivity |].
    assert (0 <= c) by (apply Hnn; exact Hc).
    unfold Rdiv. apply Rmult_le_pos; [assumption |].
    apply Rlt_le, Rinv_0_lt_compat, HN.
  - rewrite Hl, vdiv_fin by lra. rewrite vsum_fin, rsum_div, <- Hl'.
    f_equal. field. lra.
  - unfold vdiv. rewrite length_map. apply length_sum_axis0.
Qed.

(** ** The M-step formulas *)

Lemma fmul_comm a b : fmul a b = fmul b a.
Proof. destruct a, b; simpl; try reflexivity. f_equal; ring. Qed.

Lemma nth_sum_axis0 K (gamma : matrix) k :
  (k < K)%nat -> nth k (sum_axis0 K gamma) NaN = responsibility_mass gamma k.
Proof.
  intros Hk. apply nth_lookup_Some with (d := NaN).
  unfold sum_axis0, transpose. rewrite map_map, map_fmap, list_lookup_fmap.
  rewrite lookup_seq_lt by exact Hk. reflexivity.
Qed.

(** The sum over the points, coordinate by coordinate, is the sum of the
    scaled points. *)
Lemma weighted_sum_rows D (x gamma : matrix) k :
  Forall (fun r => length r = D) x ->
  sum_axis1 (map (fun r => vmul r (column k gamma)) (transpose D x))
  = fold_right vadd (replicate D (Fin 0))
      (zip_with (fun g xi => vscale (nth k g NaN) xi) gamma x).
Proof.
  unfold sum_axis1, transpose. rewrite !map_map.
  intros Hx. revert gamma.
  induction Hx as [| xi x Hxi _ IH]; intros gamma.
  - rewrite zip_with_nil_r. simpl.
    rewrite map_const_replicate, length_seq. reflexivity.
  - destruct gamma as [| g gamma].
    + simpl. rewrite map_const_replicate, length_seq. reflexivity.
    + cbn [zip_with fold_right]. rewrite <- IH.
      rewrite <- (map_nth_seq (vscale (nth k g NaN) xi) NaN).
      replace (length (vscale (nth k g NaN) xi)) with D
        by (unfold vscale; rewrite length_map; symmetry; exact Hxi).
      unfold vadd. generalize (seq 0 D). intros ds.
      induction ds as [| d ds IHd]; [reflexivity |].
      cbn [map zip_with]. f_equal; [| exact IHd].
      simpl. f_equal.
      destruct (le_lt_dec (length xi) d) as [Hd | Hd].
      * rewrite (nth_overflow xi) by lia.
        rewrite (nth_overflow (vscale (nth k g NaN) xi))
          by (unfold vscale; rewrite length_map; lia).
        reflexivity.
      * unfold vscale.
        rewrite (nth_indep (map (fmul (nth k g NaN)) xi) NaN
                   (fmul (nth k g NaN) NaN))
          by (rewrite length_map; lia).
        rewrite map_nth. apply fmul_comm.
Qed.

Lemma weighted_mean_average K (x gamma : matrix) k :
  (k < K)%nat ->
  Forall (fun r => length r = ncols x) x ->
  weighted_mean (ncols x) x gamma k (nth k (sum_axis0 K gamma) NaN)
  = weighted_average (ncols x) x gamma k.
Proof.
  intros Hk Hx. unfold weighted_mean, weighted_average.
  rewrite nth_sum_axis0 by exact Hk. rewrite weighted_sum_rows by exact Hx.
  reflexivity.
Qed.

Lemma weighted_cov_outer_products K (x gamma : matrix) k mean :
  (k < K)%nat ->
  weighted_cov (ncols x) x gamma k mean (nth k (sum_axis0 K gamma) NaN)
  = weighted_outer_products (ncols x) x gamma k mean.
Proof.
  intros Hk. unfold weighted_cov, weighted_outer_products.
  rewrite nth_sum_axis0 by exact Hk. f_equal. f_equal.
  rewrite map_fmap, zip_with_fmap_r. reflexivity.
Qed.

(** ** [compute_log_likelihood] *)

Lemma collect_map {A} (f : nat -> result A) (g : nat -> A) ks :
  (forall k, k ∈ ks -> f k = Ok (g k)) -> collect f ks = Ok (map g ks).
Proof.
  induction ks as [| k ks IH]; intros H; simpl; [reflexivity |].
  rewrite H by left. simpl. rewrite IH; [reflexivity |].
  intros j Hj. apply H. right. exact Hj.
Qed.

(** A comprehension over the rows of [x]. *)
Lemma collect_rows {A B} (x : list A) (F : A -> result B) (g : A -> B) :
  (forall xi, xi ∈ x -> F xi = Ok (g xi)) ->
  collect (fun i => rbind (index x i) F) (seq 0 (length x)) = Ok (map g x).
Proof.
  intros H. apply collect_run. apply Forall2_same_length_lookup_2.
  - rewrite length_seq, length_map. reflexivity.
  - intros i k b Hk Hb. apply lookup_seq in Hk as [-> _].
    rewrite map_fmap, list_lookup_fmap in Hb.
    unfold index. simpl.
    destruct (x !! i) as [xi |] eqn:Hi; [| discriminate].
    injection Hb as <-. simpl. apply H. eapply list_elem_of_lookup_2; eauto.
Qed.

(** A comprehension over [range(n)] that reads two arrays. *)
Lemma collect_zip {A B C} (f : A -> B -> C) (a : list A) (b : list B) n :
  length b = n -> (n <= length a)%nat ->
  collect (fun k => rbind (index a k) (fun p =>
                    rbind (index b k) (fun g => Ok (f p g)))) (seq 0 n)
  = Ok (zip_with f a b).
Proof.
  intros Hb Ha. apply collect_run. apply Forall2_same_length_lookup_2.
  - rewrite length_seq, length_zip_with. lia.
  - intros i k c Hk Hc. apply lookup_seq in Hk as [-> _]. simpl.
    rewrite lookup_zip_with in Hc. unfold index.
    destruct (a !! i) as [p |]; [| discriminate]. simpl in Hc.
    destruct (b !! i) as [g |]; [| discriminate]. simpl in Hc.
    injection Hc as <-. reflexivity.
Qed.

Lemma build_inst_length np K mv vv inst :
  build_inst np K mv vv = Ok inst -> length inst = K.
Proof.
  unfold build_inst. intros H. apply collect_length in H.
  rewrite H. apply length_seq.
Qed.

(** A comprehension over [range(n)] that reads two arrays and calls a
    routine that may raise on the entries of the second. *)
Lemma collect_zip_call {A B C D} (F : B -> result C) (G : B -> C)
    (f : A -> C -> D) (a : list A) (b : list B) n :
  length b = n -> (n <= length a)%nat ->
  (forall g, g ∈ b -> F g = Ok (G g)) ->
  collect (fun k => rbind (index a k) (fun p =>
                    rbind (index b k) (fun g =>
                    rbind (F g) (fun d => Ok (f p d))))) (seq 0 n)
  = Ok (zip_with (fun p g => f p (G g)) a b).
Proof.
  intros Hb Ha HF. apply collect_run. apply Forall2_same_length_lookup_2.
  - rewrite length_seq, length_zip_with. lia.
  - intros i k c Hk Hc. apply lookup_seq in Hk as [-> _]. simpl.
    rewrite lookup_zip_with in Hc. unfold index.
    destruct (a !! i) as [p |]; [| discriminate]. simpl in Hc.
    destruct (b !! i) as [g |] eqn:Hg; [| discriminate]. simpl in Hc.
    injection Hc as <-. simpl.
    rewrite HF by (eapply list_elem_of_lookup_2; eauto). reflexivity.
Qed.

Lemma log_likelihood_of_run K D (x : matrix) (pv : vec)
    (inst : list Gaussian_pdf) :
  length inst = K ->
  (K <= length pv)%nat ->
  Forall (well_shaped D) inst ->
  Forall (fun xi => length xi = D) x ->
  log_likelihood_of K x inst pv = Ok (total_log_likelihood pv inst x).
Proof.
  intros Hlen Hpv Hinst Hx. unfold log_likelihood_of.
  rewrite Forall_forall in Hinst. rewrite Forall_forall in Hx.
  rewrite (collect_rows x _
             (fun xi => zip_with
                (fun p g => fmul p (density (pdf_mean g) (pdf_inv g)
                                      (pdf_c g) xi))
                pv inst)).
  - simpl. unfold total_log_likelihood, mixture_density, sum_axis1.
    rewrite !map_map. reflexivity.
  - intros xi Hxi.
    apply (collect_zip_call (fun g => getLikelihood g xi)
             (fun g => density (pdf_mean g) (pdf_inv g) (pdf_c g) xi)
             fmul pv inst K); try assumption.
    intros g Hg. apply (getLikelihood_density D); auto.
Qed.

Lemma log_likelihood_run np K D (x mv : matrix) (vv : list matrix) (pv : vec)
    (inst : list Gaussian_pdf) :
  build_inst np K mv vv = Ok inst ->
  (K <= length pv)%nat ->
  Forall (well_shaped D) inst ->
  Forall (fun xi => length xi = D) x ->
  log_likelihood np K x mv vv pv = Ok (total_log_likelihood pv inst x).
Proof.
  intros Hinst Hpv Hshape Hx. unfold log_likelihood. rewrite Hinst. simpl.
  apply (log_likelihood_of_run K D); try assumption.
  eapply build_inst_length; eauto.
Qed.

(** Once the [K] components are built, for points of [D] coordinates
    (means of [D] entries, inverses [D] by [D]), on data of [D] columns
    and with an entry of [pi_k] for each component, the method returns the
    sum over the points of the logarithm of the mixture density. *)
Theorem log_likelihood_closed_form (np : library) (K D : nat) (x mv : matrix)
    (vv : list matrix) (pv : vec) (inst : list Gaussian_pdf) :
  build_inst np K mv vv = Ok inst ->
  (K <= length pv)%nat ->
  Forall (well_shaped D) inst ->
  Forall (fun xi => length xi = D) x ->
  log_likelihood np K x mv vv pv = Ok (total_log_likelihood pv inst x).
Proof.
  intros Hinst Hpv Hshape Hx. apply (log_likelihood_run np K D); assumption.
Qed.

Lemma Gaussian_pdf_init_unit d :
  Gaussian_pdf_init (scalar_library d) [Fin 0] [[Fin 1]] = Ok unit_pdf.
Proof.
  unfold Gaussian_pdf_init. simpl.
  destruct (Req_dec_T 1 0) as [H | _]; [lra |]. simpl.
  destruct (Req_dec_T _ 0) as [H | _]; [lra |]. simpl.
  replace (0 * 1 * (1 / 1000) + 1) with 1 by lra.
  replace (2 * PI * 1 * 1) with (2 * PI) by lra.
  replace (/ 1) with 1 by field.
  reflexivity.
Qed.

Lemma build_inst_unit_pdf d :
  build_inst (scalar_library d) 1 [[Fin 0]] [[[Fin 1]]] = Ok [unit_pdf].
Proof.
  unfold build_inst. simpl. rewrite Gaussian_pdf_init_unit. reflexivity.
Qed.

Lemma well_shaped_unit : Forall (well_shaped 1) [unit_pdf].
Proof.
  constructor; [| constructor]. split; [reflexivity |].
  apply shape2_one_row. reflexivity.
Qed.

Lemma two_points_width : Forall (fun xi : vec => length xi = 1%nat) two_points.
Proof. repeat constructor. Qed.

(** [log_likelihood_closed_form] on two points and the unit Gaussian. *)
Lemma log_likelihood_closed_form_witness :
  log_likelihood (scalar_library no_draws) 1 two_points
    [[Fin 0]] [[[Fin 1]]] [Fin 1]
  = Ok (total_log_likelihood [Fin 1] [unit_pdf] two_points).
Proof.
  exact (log_likelihood_closed_form (scalar_library no_draws) 1 1 two_points
           [[Fin 0]] [[[Fin 1]]] [Fin 1] [unit_pdf]
           (build_inst_unit_pdf no_draws) (le_n 1) well_shaped_unit
           two_points_width).
Defined.

Lemma reads_snd {A} np (m : M np A) s : reads np m -> snd (m s) = s.
Proof. intros H. destruct (m s) as [r s'] eqn:E. simpl. eapply H; eauto. Qed.

Lemma reads_assert_2d np x : reads np (assert_2d np x).
Proof. destruct x; simpl; auto using reads_ret, reads_raise. Qed.

Lemma reads_compute_log_likelihood np x m v p :
  reads np (compute_log_likelihood np x m v p).
Proof.
  unfold compute_log_likelihood.
  apply reads_bind; [apply reads_assert_2d |]. intros xm.
  apply reads_bind; [apply reads_get_self |]. intros g.
  apply reads_bind; [apply reads_fill_inst |].
  intros inst. apply reads_bind.
  { destruct (Nat.eqb _ 0); [apply reads_ret |].
    destruct (Nat.eqb _ 0); auto using reads_ret, reads_load1. }
  intros pv. apply reads_lift.
Qed.

(** Whatever it is given and whatever it returns or raises,
    [compute_log_likelihood] leaves the model, the arrays and the state of
    the generator as they were. *)
Theorem compute_log_likelihood_state_untouched (np : library) (x : ndarray)
    (means_arg variances_arg pi_k_arg : option nat) (s : state np) :
  snd (compute_log_likelihood np x means_arg variances_arg pi_k_arg s) = s.
Proof. apply reads_snd, reads_compute_log_likelihood. Qed.

Lemma vsum_ninf {A} (l : list A) :
  vsum (map (fun _ => NInf) l) = if Nat.eqb (length l) 0 then Fin 0 else NInf.
Proof.
  induction l as [| a l IH]; [reflexivity |].
  simpl. simpl in IH. rewrite IH. destruct (Nat.eqb (length l) 0); reflexivity.
Qed.

(** On a model that has not been fitted the parameters are [None]: with at
    least one component the first read [means[0]] raises [TypeError]; with
    no component nothing is read and the result is the sum of [log(0)] over
    the points, [-inf], or [0.0] when there is no point. *)
Theorem compute_log_likelihood_before_fit (np : library) (x : matrix)
    (K : nat) (i : string) (mi : Z) (tol : float64) (h : list ndarray)
    (g : rng np) :
  compute_log_likelihood np (Arr2 x) None None None
    {| self := GMM_init K i mi tol; heap := h; gen := g |}
  = (match K with
     | O => Ok (if Nat.eqb (length x) 0 then Fin 0 else NInf)
     | S _ => Raise TypeError
     end,
     {| self := GMM_init K i mi tol; heap := h; gen := g |}).
Proof.
  destruct K as [| K]; [| reflexivity].
  unfold compute_log_likelihood, bind, lift. simpl.
  f_equal. unfold log_likelihood_of. simpl.
  rewrite (collect_rows x _ (fun _ => [])) by reflexivity. simpl.
  f_equal. unfold sum_axis1. rewrite !map_map. simpl.
  rewrite Rsign_zero. apply vsum_ninf.
Qed.

Lemma log_likelihood_of_no_point K inst pv :
  log_likelihood_of K [] inst pv = Ok (Fin 0).
Proof. reflexivity. Qed.

Lemma total_log_likelihood_no_component pv pv' x :
  total_log_likelihood pv [] x = total_log_likelihood pv' [] x.
Proof.
  unfold total_log_likelihood, mixture_density.
  f_equal. apply map_ext. intros xi. rewrite !zip_with_nil_r. reflexivity.
Qed.

Lemma log_likelihood_of_no_component x pv pv' :
  log_likelihood_of 0 x [] pv = Ok (total_log_likelihood pv' [] x).
Proof.
  unfold log_likelihood_of. simpl.
  rewrite (collect_rows x _ (fun _ => [])) by reflexivity. simpl.
  unfold total_log_likelihood, mixture_density, sum_axis1.
  rewrite !map_map. do 2 f_equal. apply map_ext. intros xi.
  rewrite zip_with_nil_r. reflexivity.
Qed.

Lemma compute_log_likelihood_run (np : library) (D : nat) (x mv : matrix)
    (vv : list matrix) (pv : vec) (inst : list Gaussian_pdf)
    (lm lv lp : nat) (s : state np) :
  heap np s !! lm = Some (Arr2 mv) ->
  heap np s !! lv = Some (Arr3 vv) ->
  heap np s !! lp = Some (Arr1 pv) ->
  build_inst np (n_cluster (self np s)) mv vv = Ok inst ->
  (n_cluster (self np s) <= length pv)%nat ->
  Forall (well_shaped D) inst ->
  Forall (fun xi => length xi = D) x ->
  compute_log_likelihood np (Arr2 x) (Some lm) (Some lv) (Some lp) s
  = (Ok (total_log_likelihood pv inst x), s).
Proof.
  intros Hm Hv Hp Hinst Hlen Hshape Hx.
  unfold compute_log_likelihood. simpl assert_2d.
  unfold bind at 1, ret at 1. unfold bind at 1, get_self at 1. cbn [or_else].
  destruct (Nat.eqb_spec (n_cluster (self np s)) 0) as [HK | HK].
  - unfold bind, ret, lift. rewrite HK in Hinst |- *.
    simpl in Hinst. injection Hinst as <-. cbn [fill_inst seq ret].
    f_equal. apply log_likelihood_of_no_component.
  - unfold bind at 1.
    rewrite (fill_inst_run np _ _ _ _ _ _ (load2_run np _ _ _ Hm)
               (load3_run np _ _ _ Hv)), Hinst.
    destruct (Nat.eqb_spec (length x) 0) as [HN | HN].
    + unfold bind, ret, lift. f_equal.
      destruct x; [| discriminate]. reflexivity.
    + rewrite (bind_run np _ _ _ _ _ (load1_run np _ _ _ Hp)).
      unfold lift. f_equal.
      apply (log_likelihood_of_run _ D); try assumption.
      eapply build_inst_length; eauto.
Qed.

(** With the three parameters passed explicitly the attributes
    [self.means], [self.variances] and [self.pi_k] play no part: on
    components and data of the same dimension [D] the result is the closed
    form on the arrays passed, for [K = self.n_cluster]. *)
Theorem compute_log_likelihood_explicit (np : library) (D : nat)
    (x mv : matrix) (vv : list matrix) (pv : vec) (inst : list Gaussian_pdf)
    (lm lv lp : nat) (s : state np) :
  heap np s !! lm = Some (Arr2 mv) ->
  heap np s !! lv = Some (Arr3 vv) ->
  heap np s !! lp = Some (Arr1 pv) ->
  build_inst np (n_cluster (self np s)) mv vv = Ok inst ->
  (n_cluster (self np s) <= length pv)%nat ->
  Forall (well_shaped D) inst ->
  Forall (fun xi => length xi = D) x ->
  compute_log_likelihood np (Arr2 x) (Some lm) (Some lv) (Some lp) s
  = (Ok (total_log_likelihood pv inst x), s).
Proof.
  intros Hm Hv Hp Hinst Hlen Hshape Hx.
  apply (compute_log_likelihood_run np D x mv vv); assumption.
Qed.

(** [compute_log_likelihood_explicit] on a model whose attributes are still
    [None]. *)
Lemma compute_log_likelihood_explicit_witness :
  compute_log_likelihood (scalar_library no_draws) (Arr2 two_points)
    (Some 0%nat) (Some 1%nat) (Some 2%nat) unfitted_state
  = (Ok (total_log_likelihood [Fin 1] [unit_pdf] two_points), unfitted_state).
Proof.
  exact (compute_log_likelihood_explicit (scalar_library no_draws) 1
           two_points [[Fin 0]] [[[Fin 1]]] [Fin 1] [unit_pdf] 0 1 2
           unfitted_state eq_refl eq_refl eq_refl
           (build_inst_unit_pdf no_draws) (le_n 1) well_shaped_unit
           two_points_width).
Defined.

(** ** [fit]: the checks and the initialisations *)

(** An array that is not two-dimensional is refused by the first statement
    of [fit] and of [compute_log_likelihood]: nothing has been touched, and
    the generator has not been seeded. *)
Theorem non_2d_input_rejected (np : library) (s : state np) :
  (forall v, fit np (Arr1 v) s
             = (Raise (AssertionError "x can only be 2 dimensional"), s)) /\
  (forall t, fit np (Arr3 t) s
             = (Raise (AssertionError "x can only be 2 dimensional"), s)) /\
  (forall v m c p, compute_log_likelihood np (Arr1 v) m c p s
             = (Raise (AssertionError "x can only be 2 dimensional"), s)) /\
  (forall t m c p, compute_log_likelihood np (Arr3 t) m c p s
             = (Raise (AssertionError "x can only be 2 dimensional"), s)).
Proof. repeat split; reflexivity. Qed.

(** Any [init] other than ['k_means'] and ['random'] makes [fit] raise
    after the seeding; the model and the arrays are as before. *)
Theorem fit_invalid_init (np : library) (x : matrix) (s : state np) :
  init (self np s) <> "k_means"%string ->
  init (self np s) <> "random"%string ->
  fit np (Arr2 x) s
  = (Raise (Exception "Invalid initialization provided"), seeded np s).
Proof.
  intros H1 H2. apply String.eqb_neq in H1, H2.
  unfold fit, bind, assert_2d, ret, seed, initialise, get_self.
  cbn -[String.eqb]. rewrite H1, H2. reflexivity.
Qed.

(** [fit_invalid_init] on the spelling ['kmeans']. *)
Lemma fit_invalid_init_witness :
  fit (scalar_library no_draws) (Arr2 two_points)
    {| self := GMM_init 1 "kmeans" 100 (Fin (1 / 10000)); heap := [];
       gen := ([] : rng (scalar_library no_draws)) |}
  = (Raise (Exception "Invalid initialization provided"),
     seeded (scalar_library no_draws)
       {| self := GMM_init 1 "kmeans" 100 (Fin (1 / 10000)); heap := [];
          gen := ([] : rng (scalar_library no_draws)) |}).
Proof.
  apply (fit_invalid_init (scalar_library no_draws) two_points
           {| self := GMM_init 1 "kmeans" 100 (Fin (1 / 10000)); heap := [];
              gen := ([] : rng (scalar_library no_draws)) |});
    discriminate.
Defined.

Lemma draw_rows_0 np D g : draw_rows np 0 D g = ([], g).
Proof. reflexivity. Qed.

(** With [init = 'random'] and no component, [pi_k[:] = 1 / K] divides by
    zero: [fit] raises [ZeroDivisionError] before any attribute is
    assigned. *)
Theorem fit_random_no_component (np : library) (x : matrix) (s : state np) :
  init (self np s) = "random"%string ->
  n_cluster (self np s) = 0%nat ->
  fit np (Arr2 x) s = (Raise ZeroDivisionError, seeded np s).
Proof.
  intros Hi HK.
  unfold fit, bind, assert_2d, ret, seed, initialise, get_self.
  cbn -[String.eqb init_random]. rewrite Hi. cbn -[init_random].
  unfold init_random, bind, get_self, rand. cbn [self heap gen].
  rewrite HK. reflexivity.
Qed.

(** [fit_random_no_component] on [GMM(0, init='random')]. *)
Lemma fit_random_no_component_witness :
  fit (scalar_library no_draws) (Arr2 two_points)
    {| self := GMM_init 0 "random" 100 (Fin (1 / 10000)); heap := [];
       gen := ([] : rng (scalar_library no_draws)) |}
  = (Raise ZeroDivisionError,
     seeded (scalar_library no_draws)
       {| self := GMM_init 0 "random" 100 (Fin (1 / 10000)); heap := [];
          gen := ([] : rng (scalar_library no_draws)) |}).
Proof.
  apply (fit_random_no_component (scalar_library no_draws) two_points
           {| self := GMM_init 0 "random" 100 (Fin (1 / 10000)); heap := [];
              gen := ([] : rng (scalar_library no_draws)) |});
    reflexivity.
Defined.

Lemma vsum_replicate n a : vsum (replicate n (Fin a)) = Fin (INR n * a).
Proof.
  induction n as [| n IH].
  - simpl. f_equal. ring.
  - cbn [replicate vsum fold_right]. fold (vsum (replicate n (Fin a))).
    rewrite IH, S_INR. simpl. f_equal. ring.
Qed.



(** *** The initialisation from [KMeans.fit] *)

Lemma one_hot_run K N assign :
  length assign = N ->
  Forall (fun a => (a < K)%nat) assign ->
  one_hot K N assign = Ok (hard_assignment K assign).
Proof.
  intros <- Hall. unfold one_hot, hard_assignment.
  apply collect_rows. intros a Ha.
  rewrite Forall_forall in Hall. apply Hall in Ha.
  apply Nat.ltb_lt in Ha. rewrite Ha. reflexivity.
Qed.

Lemma nth_one_hot_row K a k :
  (a < K)%nat -> (k < K)%nat ->
  nth k (<[a := Fin 1]> (replicate K (Fin 0))) NaN
  = if Nat.eq_dec a k then Fin 1 else Fin 0.
Proof.
  intros Ha Hk. apply nth_lookup_Some.
  destruct (Nat.eq_dec a k) as [-> | Hne].
  - apply list_lookup_insert_eq. rewrite length_replicate. exact Hk.
  - rewrite list_lookup_insert_ne by exact Hne.
    apply lookup_replicate_2. exact Hk.
Qed.

(** The mass of a cluster under a hard assignment is the number of its
    points. *)
Lemma responsibility_mass_hard K assign k :
  (k < K)%nat ->
  Forall (fun a => (a < K)%nat) assign ->
  responsibility_mass (hard_assignment K assign) k
  = of_nat (count_occ Nat.eq_dec assign k).
Proof.
  intros Hk Hall. unfold responsibility_mass, hard_assignment, column, of_nat.
  induction Hall as [| a assign Ha _ IH]; [reflexivity |].
  cbn [map vsum fold_right count_occ].
  fold (vsum (map (fun r : vec => nth k r NaN)
                 (map (fun a => <[a := Fin 1]> (replicate K (Fin 0))) assign))).
  rewrite IH, nth_one_hot_row by assumption.
  destruct (Nat.eq_dec a k); cbn [fadd]; f_equal; [rewrite S_INR |]; ring.
Qed.

Lemma sum_axis0_hard K assign :
  Forall (fun a => (a < K)%nat) assign ->
  vdiv (sum_axis0 K (hard_assignment K assign)) (of_nat (length assign))
  = cluster_fractions K assign.
Proof.
  intros Hall. unfold sum_axis0, transpose, vdiv, cluster_fractions.
  rewrite !map_map. apply map_ext_in. intros k Hk.
  apply in_seq in Hk.
  fold (responsibility_mass (hard_assignment K assign) k).
  rewrite responsibility_mass_hard by (assumption || lia). reflexivity.
Qed.

Lemma one_hot_row_stochastic K a :
  (a < K)%nat ->
  length (<[a := Fin 1]> (replicate K (Fin 0))) = K /\
  Forall nonneg (<[a := Fin 1]> (replicate K (Fin 0))) /\
  vsum (<[a := Fin 1]> (replicate K (Fin 0))) = Fin 1.
Proof.
  intros Ha. split; [| split].
  - rewrite length_insert. apply length_replicate.
  - apply Forall_insert.
    + apply Forall_replicate. exists 0. split; [reflexivity | lra].
    + exists 1. split; [reflexivity | lra].
  - revert a Ha. induction K as [| K IH]; intros a Ha; [lia |].
    destruct a as [| a]; cbn [replicate insert list_insert vsum fold_right].
    + fold (vsum (replicate K (Fin 0))). rewrite vsum_replicate.
      simpl. f_equal. ring.
    + fold (vsum (<[a := Fin 1]> (replicate K (Fin 0)))).
      rewrite IH by lia. simpl. f_equal. ring.
Qed.

Lemma sigma_k_run K (x mu gamma : matrix) :
  shape2 K (ncols x) mu ->
  collect (fun k =>
     rbind (index mu k) (fun m =>
     if Nat.eqb (length m) (ncols x)
     then Ok (weighted_cov (ncols x) x gamma k m
                (nth k (sum_axis0 K gamma) NaN))
     else Raise ValueError)) (seq 0 K)
  = Ok (map (fun k => weighted_outer_products (ncols x) x gamma k
                        (nth k mu []))
            (seq 0 K)).
Proof.
  intros [Hlen Hrows]. apply collect_map. intros k Hk.
  apply elem_of_seq in Hk as [_ Hk]. simpl in Hk.
  destruct (lookup_lt_is_Some_2 mu k) as [m Hm]; [lia |].
  unfold index. rewrite Hm. simpl.
  rewrite (nth_lookup_Some _ _ [] _ Hm).
  assert (Hd : length m = ncols x).
  { rewrite Forall_forall in Hrows. apply Hrows.
    eapply list_elem_of_lookup_2; eauto. }
  rewrite Hd, Nat.eqb_refl.
  rewrite (weighted_cov_outer_products K) by exact Hk. reflexivity.
Qed.

(** The initialisation from a clustering that returns [K] centres of the
    data's dimension and assigns every point to one of the [K] clusters:
    the means are the centres, covariance [k] is the sum of the outer
    products of the residuals of the points of cluster [k] divided by their
    number, and weight [k] is the share of the points in cluster [k]; the
    weights are non-negative and sum to one when there is a point. *)
Theorem init_k_means_fractions (np : library) (x mu : matrix)
    (assign : list nat) (g' : rng np) (s : state np) :
  KMeans_fit np (n_cluster (self np s)) (max_iter (self np s))
    (e (self np s)) x (gen np s) = (Ok (mu, assign), g') ->
  shape2 (n_cluster (self np s)) (ncols x) mu ->
  length assign = length x ->
  Forall (fun a => (a < n_cluster (self np s))%nat) assign ->
  init_k_means np x s
  = (Ok (n_cluster (self np s)),
     {| self := {| n_cluster := n_cluster (self np s);
                   e := e (self np s);
                   max_iter := max_iter (self np s);
                   init := init (self np s);
                   means := Some (length (heap np s));
                   variances := Some (S (length (heap np s)));
                   pi_k := Some (S (S (length (heap np s)))) |};
        heap := heap np s ++
                [Arr2 mu;
                 Arr3 (map (fun k =>
                         weighted_outer_products (ncols x) x
                           (hard_assignment (n_cluster (self np s)) assign) k
                           (nth k mu []))
                         (seq 0 (n_cluster (self np s))));
                 Arr1 (cluster_fractions (n_cluster (self np s)) assign)];
        gen := g' |}) /\
  (x <> [] ->
   Forall nonneg (cluster_fractions (n_cluster (self np s)) assign) /\
   vsum (cluster_fractions (n_cluster (self np s)) assign) = Fin 1).
Proof.
  intros HKM Hmu Hlen Hall. split.
  - unfold init_k_means. unfold bind at 1, get_self at 1.
    unfold bind at 1. rewrite HKM. cbn [fst snd].
    unfold bind at 1, lift at 1.
    rewrite (one_hot_run _ _ _ Hlen Hall).
    unfold bind at 1, lift at 1.
    rewrite (sigma_k_run _ x mu _ Hmu).
    rewrite <- Hlen, (sum_axis0_hard _ _ Hall).
    unfold alloc, set_parameters, bind, get_self, set_self, ret, with_heap.
    cbn [self heap gen fst snd n_cluster e max_iter init].
    rewrite !length_app. cbn [length]. rewrite !Nat.add_1_r.
    rewrite <- !app_assoc. reflexivity.
  - intros Hx.
    rewrite <- (sum_axis0_hard _ _ Hall), Hlen.
    fold (new_weights (n_cluster (self np s)) x
            (hard_assignment (n_cluster (self np s)) assign)).
    destruct (new_weights_distribution (n_cluster (self np s)) x
                (hard_assignment (n_cluster (self np s)) assign))
      as (Hnn & Hsum & _); auto.
    + unfold hard_assignment. rewrite length_map. exact Hlen.
    + unfold hard_assignment. apply Forall_map.
      eapply Forall_impl; [exact Hall |]. intros a Ha.
      apply one_hot_row_stochastic, Ha.
Qed.

(** [init_k_means_fractions] on two points in one cluster whose centre is
    the first point. *)
Lemma init_k_means_fractions_witness :
  init_k_means (scalar_library no_draws) two_points kmeans_state
  = (Ok 1%nat,
     {| self := {| n_cluster := 1; e := Fin (1 / 10000); max_iter := 100;
                   init := "k_means";
                   means := Some 0%nat; variances := Some 1%nat;
                   pi_k := Some 2%nat |};
        heap := [] ++
                [Arr2 [[Fin (-1)]];
                 Arr3 (map (fun k =>
                         weighted_outer_products 1 two_points
                           (hard_assignment 1 [0; 0]%nat) k
                           (nth k [[Fin (-1)]] []))
                         (seq 0 1));
                 Arr1 (cluster_fractions 1 [0; 0]%nat)];
        gen := ([] : rng (scalar_library no_draws)) |}) /\
  (two_points <> [] ->
   Forall nonneg (cluster_fractions 1 [0; 0]%nat) /\
   vsum (cluster_fractions 1 [0; 0]%nat) = Fin 1).
Proof.
  apply (init_k_means_fractions (scalar_library no_draws) two_points
           [[Fin (-1)]] [0; 0]%nat [] kmeans_state eq_refl
           (shape2_one_row 1 [Fin (-1)] eq_refl) eq_refl).
  repeat constructor.
Defined.

(** ** [Gaussian_pdf.getLikelihood] is never negative *)

Lemma getLikelihood_unit a :
  getLikelihood unit_pdf [Fin a] = Ok (Fin (unit_density a)).
Proof.
  pose proof PI_RGT_0 as HPI.
  unfold getLikelihood. simpl.
  destruct (Rlt_dec (2 * PI) 0) as [H | _]; [lra |].
  destruct (Req_dec_T (sqrt (2 * PI)) 0) as [H | _].
  { pose proof (sqrt_lt_R0 (2 * PI)). lra. }
  unfold unit_density. do 4 f_equal. ring.
Qed.

Lemma fdiv_fexp_fsqrt_not_negative (q c : float64) :
  c <> Fin 0 -> not_negative (fdiv (fexp q) (fsqrt c)).
Proof.
  intros Hc.
  destruct q as [a | | |], c as [c | | |]; simpl;
    try exact I; try lra;
    try (destruct (Rlt_dec c 0); simpl; try exact I; try lra).
  - destruct (Req_dec_T (sqrt c) 0) as [Hz | Hz].
    + rewrite Rsign_pos by apply exp_pos. exact I.
    + simpl. apply Rlt_le, Rdiv_lt_0_compat; [apply exp_pos |].
      destruct (sqrt_pos c) as [Hp | Hp]; [exact Hp | congruence].
  - destruct (Rlt_dec (sqrt c) 0) as [Hneg | _]; [| exact I].
    pose proof (sqrt_pos c). lra.
  - destruct (Req_dec_T (sqrt c) 0) as [Hz | Hz].
    + rewrite Rsign_zero. exact I.
    + simpl. unfold Rdiv. rewrite Rmult_0_l. lra.
Qed.

(** When the constant [c] of the instance is not a zero, a value that
    [getLikelihood] returns is a number that is not negative, [inf] or
    [nan], whatever the point and the other fields.  (With [c] a zero the
    sign of the zero decides the sign of the result, and the model does not
    tell the two zeros apart.) *)
Theorem getLikelihood_not_negative (g : Gaussian_pdf) (x : vec)
    (a : float64) :
  pdf_c g <> Fin 0 ->
  getLikelihood g x = Ok a ->
  not_negative a.
Proof.
  intros Hc. unfold getLikelihood.
  destruct (broadcast_sub x (pdf_mean g)) as [boo | err]; simpl;
    [| discriminate].
  destruct (matmul_vm _ (pdf_inv g)) as [t | err]; simpl; [| discriminate].
  destruct (matmul_vv t boo) as [q | err]; simpl; [| discriminate].
  intros E. injection E as <-.
  apply fdiv_fexp_fsqrt_not_negative, Hc.
Qed.

Lemma unit_pdf_c_not_zero : pdf_c unit_pdf <> Fin 0.
Proof.
  simpl. intros H. injection H as H. pose proof PI_RGT_0. lra.
Qed.

(** [getLikelihood_not_negative] on the unit Gaussian at its mean. *)
Lemma getLikelihood_not_negative_witness :
  not_negative (Fin (unit_density 0)).
Proof.
  exact (getLikelihood_not_negative unit_pdf [Fin 0] (Fin (unit_density 0))
           unit_pdf_c_not_zero (getLikelihood_unit 0)).
Defined.

(** ** What [sample] and [fit] leave alone *)

Section Frames.

Context (np : library).

Lemma keeps_model_reads {A} (m : M np A) : reads np m -> keeps_model np m.
Proof. intros H s r s' E. apply H in E. subst. auto. Qed.

Lemma keeps_model_bind {A B} (m : M np A) (f : A -> M np B) :
  keeps_model np m -> (forall a, keeps_model np (f a)) ->
  keeps_model np (bind np m f).
Proof.
  intros Hm Hf s r s' E. unfold bind in E.
  destruct (m s) as [[a | x] s1] eqn:E1.
  - destruct (Hm _ _ _ E1) as [H1 H2]. destruct (Hf a _ _ _ E) as [H3 H4].
    split; congruence.
  - injection E as <- <-. eapply Hm; eauto.
Qed.

Lemma keeps_model_seed z : keeps_model np (seed np z).
Proof. intros s r s' E. injection E as <- <-. auto. Qed.

(** A call into [numpy.random]: only the generator moves. *)
Lemma keeps_model_draw {A} (f : rng np -> result A * rng np) :
  keeps_model np (fun st =>
    let (r, g) := f (gen np st) in
    (r, {| self := self np st; heap := heap np st; gen := g |})).
Proof.
  intros s r s' E. destruct (f (gen np s)) as [r0 g].
  injection E as <- <-. auto.
Qed.

Lemma keeps_model_fill_samples D k ns :
  forall samples, keeps_model np (fill_samples np D k ns samples).
Proof.
  induction ns as [| n ns IH]; intros samples; cbn [fill_samples].
  - apply keeps_model_reads, reads_ret.
  - apply keeps_model_bind; [apply keeps_model_reads, reads_lift |].
    intros kn. apply keeps_model_bind;
      [apply keeps_model_reads, reads_get_self |].
    intros g. apply keeps_model_bind;
      [apply keeps_model_reads, reads_load2 |].
    intros mv. apply keeps_model_bind;
      [apply keeps_model_reads, reads_lift |].
    intros m. apply keeps_model_bind;
      [apply keeps_model_reads, reads_load3 |].
    intros vv. apply keeps_model_bind;
      [apply keeps_model_reads, reads_lift |].
    intros v. apply keeps_model_bind;
      [apply (keeps_model_draw (random_multivariate_normal np m v)) |].
    intros row. destruct (Nat.eqb (length row) D);
      [apply IH | apply keeps_model_reads, reads_raise].
Qed.

Lemma keeps_model_sample N : keeps_model np (sample np N).
Proof.
  unfold sample.
  destruct N as [z | | | |]; try (apply keeps_model_reads, reads_raise).
  destruct (Z.ltb 0 z); [| apply keeps_model_reads, reads_raise].
  apply keeps_model_bind; [apply keeps_model_seed |]. intros _.
  apply keeps_model_bind; [apply keeps_model_reads, reads_get_self |].
  intros g. destruct (means g); [| apply keeps_model_reads, reads_raise].
  apply keeps_model_bind.
  { destruct (pi_k g);
      [apply keeps_model_reads, reads_load1 | apply keeps_model_reads, reads_raise]. }
  intros pv. apply keeps_model_bind;
    [apply keeps_model_reads, reads_load2 |].
  intros mv. apply keeps_model_bind;
    [apply (keeps_model_draw
              (random_choice np (length pv) (Z.to_nat z) pv)) |].
  intros k. apply keeps_model_fill_samples.
Qed.

End Frames.

(** Whatever its argument and whether it returns or raises, [sample]
    assigns no attribute of the model and writes to none of its arrays:
    only the state of the generator changes. *)
Theorem sample_model_untouched (np : library) (N : pyobj) (s : state np) :
  self np (snd (sample np N s)) = self np s /\
  heap np (snd (sample np N s)) = heap np s.
Proof.
  destruct (sample np N s) as [r s'] eqn:E. simpl.
  eapply keeps_model_sample; eauto.
Qed.

Section Attributes.

Context (np : library).

Lemma keeps_self_reads {A} (m : M np A) : reads np m -> keeps_self np m.
Proof. intros H s r s' E. apply H in E. subst. reflexivity. Qed.

Lemma keeps_self_bind {A B} (m : M np A) (f : A -> M np B) :
  keeps_self np m -> (forall a, keeps_self np (f a)) ->
  keeps_self np (bind np m f).
Proof.
  intros Hm Hf s r s' E. unfold bind in E.
  destruct (m s) as [[a | x] s1] eqn:E1.
  - rewrite (Hf a _ _ _ E). eapply Hm; eauto.
  - injection E as <- <-. eapply Hm; eauto.
Qed.

Lemma keeps_self_alloc a : keeps_self np (alloc np a).
Proof. intros s r s' E. injection E as <- <-. reflexivity. Qed.

Lemma keeps_self_store l a : keeps_self np (store np l a).
Proof. intros s r s' E. injection E as <- <-. reflexivity. Qed.

Lemma keeps_self_seed z : keeps_self np (seed np z).
Proof. intros s r s' E. injection E as <- <-. reflexivity. Qed.

Lemma keeps_self_rand K D : keeps_self np (rand np K D).
Proof.
  intros s r s' E. unfold rand in E.
  destruct (draw_rows np K D (gen np s)). injection E as <- <-. reflexivity.
Qed.

Lemma keeps_self_draw {A} (f : rng np -> result A * rng np) :
  keeps_self np (fun st =>
    let (r, g) := f (gen np st) in
    (r, {| self := self np st; heap := heap np st; gen := g |})).
Proof.
  intros s r s' E. destruct (f (gen np s)) as [r0 g].
  injection E as <- <-. reflexivity.
Qed.

Lemma keeps_self_setitem2 r k v : keeps_self np (setitem2 np r k v).
Proof.
  unfold setitem2. apply keeps_self_bind;
    [apply keeps_self_reads, reads_load2 |].
  intros m. destruct r as [l |]; [| apply keeps_self_reads, reads_raise].
  destruct (m !! k); [| apply keeps_self_reads, reads_raise].
  destruct (Nat.eqb _ _);
    [apply keeps_self_store | apply keeps_self_reads, reads_raise].
Qed.

Lemma keeps_self_setitem3 r k v : keeps_self np (setitem3 np r k v).
Proof.
  unfold setitem3. apply keeps_self_bind;
    [apply keeps_self_reads, reads_load3 |].
  intros t. destruct r as [l |]; [| apply keeps_self_reads, reads_raise].
  destruct (t !! k);
    [apply keeps_self_store | apply keeps_self_reads, reads_raise].
Qed.

Lemma keeps_self_update_means D x gamma N_k r ks :
  keeps_self np (update_means np D x gamma N_k r ks).
Proof.
  induction ks as [| k ks IH]; cbn [update_means].
  - apply keeps_self_reads, reads_ret.
  - apply keeps_self_bind; [apply keeps_self_setitem2 | intros _; exact IH].
Qed.

Lemma keeps_self_update_variances D x gamma N_k rm rv ks :
  keeps_self np (update_variances np D x gamma N_k rm rv ks).
Proof.
  induction ks as [| k ks IH]; cbn [update_variances].
  - apply keeps_self_reads, reads_ret.
  - apply keeps_self_bind; [apply keeps_self_reads, reads_load2 |].
    intros mv. apply keeps_self_bind; [apply keeps_self_reads, reads_lift |].
    intros m. apply keeps_self_bind;
      [apply keeps_self_setitem3 | intros _; exact IH].
Qed.

Lemma reads_e_step K x m v p : reads np (e_step np K x m v p).
Proof.
  unfold e_step. apply reads_bind; [apply reads_fill_inst |].
  intros inst. apply reads_bind; [apply reads_lift |].
  intros Normal. apply reads_bind; [apply reads_load1 |].
  intros pv. apply reads_lift.
Qed.

Lemma keeps_self_m_step K x gamma rm rv :
  keeps_self np (m_step np K x gamma rm rv).
Proof.
  unfold m_step. apply keeps_self_bind; [apply keeps_self_update_means |].
  intros _. apply keeps_self_bind; [apply keeps_self_update_variances |].
  intros _. apply keeps_self_alloc.
Qed.

Lemma keeps_self_em_iteration K x rm rv rp :
  keeps_self np (em_iteration np K x rm rv rp).
Proof.
  unfold em_iteration. apply keeps_self_bind;
    [apply keeps_self_reads, reads_e_step |].
  intros gamma. apply keeps_self_bind; [apply keeps_self_m_step |].
  intros p. apply keeps_self_bind;
    [apply keeps_self_reads, reads_compute_log_likelihood |].
  intros l. apply keeps_self_reads, reads_ret.
Qed.

Lemma keeps_self_em_loop K x rm rv iters :
  forall l rp, keeps_self np (em_loop np K x rm rv iters l rp).
Proof.
  induction iters as [| i iters IH]; intros l rp; cbn [em_loop].
  - apply keeps_self_reads, reads_ret.
  - apply keeps_self_bind; [apply keeps_self_em_iteration |].
    intros r. apply keeps_self_bind;
      [apply keeps_self_reads, reads_get_self |].
    intros g. destruct (converged _ _ _);
      [apply keeps_self_reads, reads_ret | apply IH].
Qed.

End Attributes.

(** The loop of [fit] assigns no attribute: until the three assignments
    that follow it, [self.means], [self.variances] and [self.pi_k] refer to
    the arrays the initialisation bound them to, however many passes are
    made and however the loop ends. *)
Theorem em_loop_assigns_no_attribute (np : library) (K : nat) (x : matrix)
    (means_ variances_ pi_k_ : option nat) (iters : list nat) (l : float64)
    (s : state np) :
  self np (snd (em_loop np K x means_ variances_ iters l pi_k_ s))
  = self np s.
Proof.
  destruct (em_loop np K x means_ variances_ iters l pi_k_ s) as [r s'] eqn:E.
  simpl. eapply keeps_self_em_loop; eauto.
Qed.

Section Configuration.

Context (np : library).

Lemma same_config_refl a : same_config a a.
Proof. repeat split. Qed.

Lemma same_config_trans a b c :
  same_config a b -> same_config b c -> same_config a c.
Proof.
  intros (H1 & H2 & H3 & H4) (H5 & H6 & H7 & H8). repeat split; congruence.
Qed.

Lemma keeps_config_self {A} (m : M np A) :
  keeps_self np m -> keeps_config np m.
Proof. intros H s r s' E. rewrite (H _ _ _ E). apply same_config_refl. Qed.

Lemma keeps_config_bind {A B} (m : M np A) (f : A -> M np B) :
  keeps_config np m -> (forall a, keeps_config np (f a)) ->
  keeps_config np (bind np m f).
Proof.
  intros Hm Hf s r s' E. unfold bind in E.
  destruct (m s) as [[a | x] s1] eqn:E1.
  - eapply same_config_trans; [eapply Hm | eapply Hf]; eauto.
  - injection E as <- <-. eapply Hm; eauto.
Qed.

Lemma keeps_config_set_parameters m v p :
  keeps_config np (set_parameters np m v p).
Proof. intros s r s' E. injection E as <- <-. repeat split. Qed.

Lemma keeps_config_set_attributes m v p :
  keeps_config np (set_attributes np m v p).
Proof. intros s r s' E. injection E as <- <-. repeat split. Qed.

Ltac frame :=
  repeat first
    [ apply keeps_config_set_parameters
    | apply keeps_config_set_attributes
    | apply keeps_config_bind; [| intros ? ]
    | apply keeps_config_self, keeps_self_alloc
    | apply keeps_config_self, keeps_self_seed
    | apply keeps_config_self, keeps_self_rand
    | apply keeps_config_self, keeps_self_em_loop
    | apply keeps_config_self, keeps_self_reads, reads_get_self
    | apply keeps_config_self, keeps_self_reads, reads_lift
    | apply keeps_config_self, keeps_self_reads, reads_ret
    | apply keeps_config_self, keeps_self_reads, reads_raise
    | apply keeps_config_self, keeps_self_reads, reads_assert_2d
    | apply keeps_config_self, keeps_self_reads,
        reads_compute_log_likelihood ].

Lemma keeps_config_init_k_means x : keeps_config np (init_k_means np x).
Proof.
  unfold init_k_means.
  apply keeps_config_bind; [frame |]. intros g.
  apply keeps_config_bind.
  { apply keeps_config_self.
    apply (keeps_self_draw np
             (KMeans_fit np (n_cluster g) (max_iter g) (e g) x)). }
  intros r. frame.
Qed.

Lemma keeps_config_init_random x : keeps_config np (init_random np x).
Proof.
  unfold init_random.
  apply keeps_config_bind; [frame |]. intros g.
  apply keeps_config_bind; [frame |]. intros mu.
  destruct (Nat.eqb _ 0); frame.
Qed.

Lemma keeps_config_initialise x : keeps_config np (initialise np x).
Proof.
  unfold initialise. apply keeps_config_bind; [frame |]. intros g.
  destruct (String.eqb _ _); [apply keeps_config_init_k_means |].
  destruct (String.eqb _ _); [apply keeps_config_init_random | frame].
Qed.

Lemma keeps_config_fit x : keeps_config np (fit np x).
Proof.
  unfold fit.
  apply keeps_config_bind;
    [apply keeps_config_self, keeps_self_reads, reads_assert_2d |].
  intros xm.
  apply keeps_config_bind; [apply keeps_config_self, keeps_self_seed |].
  intros _.
  apply keeps_config_bind; [apply keeps_config_initialise |]. intros K.
  apply keeps_config_bind;
    [apply keeps_config_self, keeps_self_reads,
       reads_compute_log_likelihood |].
  intros l.
  apply keeps_config_bind;
    [apply keeps_config_self, keeps_self_reads, reads_get_self |].
  intros g.
  apply keeps_config_bind; [apply keeps_config_self, keeps_self_em_loop |].
  intros r.
  apply keeps_config_bind; [apply keeps_config_set_attributes |]. intros _.
  destruct (snd r); apply keeps_config_self, keeps_self_reads;
    [apply reads_ret | apply reads_raise].
Qed.

End Configuration.

(** Whether [fit] returns or raises, it has assigned none of [n_cluster],
    [e], [max_iter] and [init]. *)
Theorem fit_keeps_configuration (np : library) (x : ndarray) (s : state np) :
  same_config (self np s) (self np (snd (fit np x s))).
Proof.
  destruct (fit np x s) as [r s'] eqn:E. simpl.
  eapply keeps_config_fit; eauto.
Qed.

(** ** Errors raised inside the comprehensions *)

Lemma collect_raise {A} (f : nat -> result A) ks1 k ks2 err :
  (forall j, j ∈ ks1 -> exists a, f j = Ok a) ->
  f k = Raise err ->
  collect f (ks1 ++ k :: ks2) = Raise err.
Proof.
  intros Hpre Hk. induction ks1 as [| j ks1 IH]; simpl.
  - rewrite Hk. reflexivity.
  - destruct (Hpre j) as [a Ha]; [left |]. rewrite Ha. simpl.
    rewrite IH; [reflexivity |]. intros i Hi. apply Hpre. right. exact Hi.
Qed.

Lemma collect_prefix {A} (f : nat -> result A) ks l :
  collect f ks = Ok l -> forall j, j ∈ ks -> exists a, f j = Ok a.
Proof.
  intros H j Hj. apply collect_Ok in H.
  apply list_elem_of_lookup in Hj as [i Hi].
  destruct (Forall2_lookup_l _ _ _ _ _ H Hi) as (a & _ & Ha). eauto.
Qed.

Lemma seq_split n K :
  (n < K)%nat -> seq 0 K = seq 0 n ++ n :: seq (S n) (K - S n).
Proof.
  intros H. replace K with (n + S (K - S n))%nat at 1 by lia.
  rewrite seq_app. reflexivity.
Qed.

(** A [pi_k] with fewer than [K] entries is not padded: on components and
    data of the same dimension [D], as soon as there is a point, the read
    [pi_k[len(pi_k)]] raises [IndexError]. *)
Theorem log_likelihood_short_weights (np : library) (K D : nat)
    (x mv : matrix) (vv : list matrix) (pv : vec)
    (inst : list Gaussian_pdf) :
  build_inst np K mv vv = Ok inst ->
  (length pv < K)%nat ->
  x <> [] ->
  Forall (well_shaped D) inst ->
  Forall (fun xi => length xi = D) x ->
  log_likelihood np K x mv vv pv = Raise IndexError.
Proof.
  intros Hinst Hpv Hx Hshape Hwidth. unfold log_likelihood.
  rewrite Hinst. simpl.
  pose proof (build_inst_length _ _ _ _ _ Hinst) as Hlen.
  destruct x as [| xi x]; [contradiction |].
  apply Forall_cons in Hwidth as [Hxi _].
  rewrite Forall_forall in Hshape.
  unfold log_likelihood_of.
  cbn [length seq collect]. unfold index at 1. simpl.
  rewrite (seq_split (length pv) K Hpv).
  rewrite collect_raise with (err := IndexError); [reflexivity | |].
  - intros j Hj. apply elem_of_seq in Hj as [_ Hj]. simpl in Hj.
    destruct (lookup_lt_is_Some_2 pv j Hj) as [p Hp].
    destruct (lookup_lt_is_Some_2 inst j) as [g Hg]; [lia |].
    unfold index. rewrite Hp, Hg. simpl.
    rewrite (getLikelihood_density D g xi); auto; [simpl; eauto |].
    apply Hshape. eapply list_elem_of_lookup_2; eauto.
  - unfold index. rewrite (lookup_ge_None_2 pv) by lia. reflexivity.
Qed.

Lemma two_points_not_empty : two_points <> [].
Proof. discriminate. Qed.

(** [log_likelihood_short_weights] on one component and no weight. *)
Lemma log_likelihood_short_weights_witness :
  log_likelihood (scalar_library no_draws) 1 two_points
    [[Fin 0]] [[[Fin 1]]] [] = Raise IndexError.
Proof.
  exact (log_likelihood_short_weights (scalar_library no_draws) 1 1
           two_points [[Fin 0]] [[[Fin 1]]] [] [unit_pdf]
           (build_inst_unit_pdf no_draws) (le_n 1) two_points_not_empty
           well_shaped_unit two_points_width).
Defined.

Lemma Gaussian_pdf_init_singular np m (v : matrix) rank err :
  shape2 (length v) (length v) v ->
  linalg_matrix_rank np v = Ok rank ->
  linalg_inv np (regularized (length v) rank v) = Raise err ->
  Gaussian_pdf_init np m v = Raise err.
Proof.
  intros Hsq Hrank Hinv. unfold Gaussian_pdf_init. rewrite Hrank.
  cbn [rbind]. rewrite (broadcast_add_square _ _ _ Hsq). cbn [rbind].
  rewrite (regularize_matrix rank (length v) v Hsq), Hinv. reflexivity.
Qed.

(** The covariance is regularised once and never again: when the first
    [k] components can be built and the inversion of the regularised
    covariance of component [k < K] fails, that error is what building the
    components, the log-likelihood and the densities of the E-step
    raise. *)
Theorem singular_covariance_propagates (np : library) (K k : nat)
    (x mv : matrix) (vv : list matrix) (pv m : vec) (v : matrix)
    (rank : nat) (err : exn) (built : list Gaussian_pdf) :
  (k < K)%nat ->
  build_inst np k mv vv = Ok built ->
  mv !! k = Some m ->
  vv !! k = Some v ->
  shape2 (length v) (length v) v ->
  linalg_matrix_rank np v = Ok rank ->
  linalg_inv np (regularized (length v) rank v) = Raise err ->
  build_inst np K mv vv = Raise err /\
  log_likelihood np K x mv vv pv = Raise err /\
  densities np K x mv vv = Raise err.
Proof.
  intros Hk Hbuilt Hm Hv Hsq Hrank Hinv.
  assert (H : build_inst np K mv vv = Raise err).
  { unfold build_inst in *. rewrite (seq_split k K Hk).
    apply collect_raise.
    - eapply collect_prefix; eauto.
    - unfold index. rewrite Hm, Hv. simpl.
      eapply Gaussian_pdf_init_singular; eauto. }
  split; [exact H |]. split.
  - unfold log_likelihood. rewrite H. reflexivity.
  - unfold densities. rewrite H. reflexivity.
Qed.

(** [singular_covariance_propagates] on the library whose inversion
    fails. *)
Lemma singular_covariance_propagates_witness :
  build_inst failing_inverse_library 1 [[Fin 0]] [[[Fin 1]]]
    = Raise LinAlgError /\
  log_likelihood failing_inverse_library 1 two_points [[Fin 0]] [[[Fin 1]]]
    [Fin 1] = Raise LinAlgError /\
  densities failing_inverse_library 1 two_points [[Fin 0]] [[[Fin 1]]]
    = Raise LinAlgError.
Proof.
  exact (singular_covariance_propagates failing_inverse_library 1 0
           two_points [[Fin 0]] [[[Fin 1]]] [Fin 1] [Fin 0] [[Fin 1]] 1
           LinAlgError [] (le_n 1) eq_refl eq_refl eq_refl
           (shape2_one_row 1 [Fin 1] eq_refl) eq_refl eq_refl).
Defined.

(** ** Runs of [fit] on the small data set *)

Lemma unit_density_pos a : 0 < unit_density a.
Proof.
  unfold unit_density. apply Rdiv_lt_0_compat; [apply exp_pos |].
  apply sqrt_lt_R0. pose proof PI_RGT_0. lra.
Qed.

Lemma density_unit a :
  density (pdf_mean unit_pdf) (pdf_inv unit_pdf) (pdf_c unit_pdf) [Fin a]
  = Fin (unit_density a).
Proof.
  assert (H : Ok (density (pdf_mean unit_pdf) (pdf_inv unit_pdf)
                    (pdf_c unit_pdf) [Fin a])
              = Ok (Fin (unit_density a))).
  { rewrite <- (getLikelihood_density 1 unit_pdf [Fin a]).
    - apply getLikelihood_unit.
    - split; [reflexivity |]. apply shape2_one_row. reflexivity.
    - reflexivity. }
  injection H as H. exact H.
Qed.

Lemma total_log_likelihood_unit :
  total_log_likelihood [Fin 1] [unit_pdf] two_points = Fin unit_log_likelihood.
Proof.
  unfold total_log_likelihood, mixture_density, two_points.
  cbn [map zip_with vsum fold_right].
  rewrite !density_unit. cbn [fmul fadd flog].
  rewrite !Rsign_pos.
  - reflexivity.
  - pose proof (unit_density_pos 1). lra.
  - pose proof (unit_density_pos (-1)). lra.
Qed.

Lemma densities_of_unit :
  densities_of 1 two_points [unit_pdf]
  = Ok [[Fin (unit_density (-1))]; [Fin (unit_density 1)]].
Proof.
  unfold densities_of, two_points.
  cbn [rbind length seq collect index lookup list_lookup option_map].
  rewrite !getLikelihood_unit. reflexivity.
Qed.

Lemma normalize_one w : w <> 0 -> normalize [Fin w] = [Fin 1].
Proof.
  intros H. unfold normalize. simpl.
  destruct (Req_dec_T (w + 0) 0) as [Hz | _]; [lra |].
  do 2 f_equal. field. lra.
Qed.

Lemma responsibilities_unit :
  responsibilities 1 2 [Fin 1]
    [[Fin (unit_density (-1))]; [Fin (unit_density 1)]]
  = Ok [[Fin 1]; [Fin 1]].
Proof.
  rewrite responsibilities_rows.
  - simpl. rewrite !normalize_one; [reflexivity | |].
    + pose proof (unit_density_pos 1). lra.
    + pose proof (unit_density_pos (-1)). lra.
  - discriminate.
  - reflexivity.
  - split; [reflexivity |]. repeat constructor.
Qed.

Lemma new_means_unit :
  new_means 1 two_points [[Fin 1]; [Fin 1]] = [[Fin 0]].
Proof.
  unfold new_means, weighted_mean, two_points. simpl.
  destruct (Req_dec_T (1 + (1 + 0)) 0) as [H | _]; [lra |].
  do 3 f_equal. field.
Qed.

Lemma new_variances_unit :
  new_variances 1 two_points [[Fin 1]; [Fin 1]] [[Fin 0]] = [[[Fin 1]]].
Proof.
  unfold new_variances, weighted_cov, two_points. simpl.
  destruct (Req_dec_T (1 + (1 + 0)) 0) as [H | _]; [lra |].
  do 4 f_equal. field.
Qed.

Lemma new_weights_unit :
  new_weights 1 two_points [[Fin 1]; [Fin 1]] = [Fin 1].
Proof.
  unfold new_weights, two_points, of_nat. simpl.
  destruct (Req_dec_T (1 + 1) 0) as [H | _]; [lra |].
  do 2 f_equal. field.
Qed.

Lemma initialise_unit mi tol :
  initialise toy two_points (seeded toy (fresh_state mi tol))
  = (Ok 1%nat, unit_state mi tol 2 unit_heap).
Proof.
  unfold initialise, bind, get_self. cbn.
  unfold unit_state, unit_model, unit_heap.
  replace (1 / 1) with 1 by field. reflexivity.
Qed.

Lemma compute_log_likelihood_defaults np x (s : state np) :
  compute_log_likelihood np x None None None s
  = compute_log_likelihood np x (means (self np s)) (variances (self np s))
      (pi_k (self np s)) s.
Proof.
  unfold compute_log_likelihood, bind, get_self.
  destruct (assert_2d np x s) as [[xm | err] s1] eqn:E; [| reflexivity].
  assert (s1 = s) as -> by (eapply reads_assert_2d; eauto).
  destruct (means (self np s)), (variances (self np s)), (pi_k (self np s));
    reflexivity.
Qed.

Lemma unit_arrays_app p h a : unit_arrays p h -> unit_arrays p (h ++ [a]).
Proof.
  intros (H0 & H1 & Hp). repeat split; apply lookup_app_l_Some; assumption.
Qed.

Lemma compute_log_likelihood_unit mi tol p h :
  unit_arrays p h ->
  compute_log_likelihood toy (Arr2 two_points) None None None
    (unit_state mi tol p h)
  = (Ok (Fin unit_log_likelihood), unit_state mi tol p h).
Proof.
  intros (H0 & H1 & Hp). rewrite compute_log_likelihood_defaults.
  cbn [unit_state unit_model self means variances pi_k].
  rewrite (compute_log_likelihood_run toy 1 two_points [[Fin 0]] [[[Fin 1]]]
             [Fin 1] [unit_pdf] 0 1 p); auto.
  - rewrite total_log_likelihood_unit. reflexivity.
  - apply build_inst_unit_pdf.
  - apply well_shaped_unit.
  - apply two_points_width.
Qed.

Lemma e_step_unit mi tol p q h :
  unit_arrays q h ->
  e_step toy 1 two_points (Some 0%nat) (Some 1%nat) (Some q)
    (unit_state mi tol p h)
  = (Ok [[Fin 1]; [Fin 1]], unit_state mi tol p h).
Proof.
  intros (H0 & H1 & Hq). unfold e_step. unfold bind at 1.
  rewrite (fill_inst_run toy _ _ _ _ _ _
             (load2_run toy 0%nat (unit_state mi tol p h) _ H0)
             (load3_run toy 1%nat (unit_state mi tol p h) _ H1)).
  rewrite build_inst_unit_pdf. rewrite densities_of_unit.
  unfold bind at 1, lift at 1.
  rewrite (bind_run toy _ _ _ _ _
             (load1_run toy q (unit_state mi tol p h) _ Hq)).
  unfold lift. change (length two_points) with 2%nat.
  rewrite responsibilities_unit. reflexivity.
Qed.

Lemma m_step_unit mi tol p q h :
  unit_arrays q h ->
  m_step toy 1 two_points [[Fin 1]; [Fin 1]] (Some 0%nat) (Some 1%nat)
    (unit_state mi tol p h)
  = (Ok (length h), unit_state mi tol p (h ++ [Arr1 [Fin 1]])).
Proof.
  intros (H0 & H1 & _).
  rewrite (m_step_run toy 1 two_points _ 0 1 _ [[Fin 0]] [[[Fin 1]]]).
  - rewrite new_means_unit, new_variances_unit, new_weights_unit.
    cbn [heap unit_state].
    rewrite (list_insert_id h 0 _ H0), (list_insert_id h 1 _ H1).
    reflexivity.
  - discriminate.
  - exact H0.
  - split; [reflexivity |]. repeat constructor.
  - exact H1.
  - reflexivity.
Qed.

(** One pass on the unit component: the parameters do not move, the new
    weights are a new array, and the log-likelihood is the same. *)
Lemma em_iteration_unit mi tol p q h :
  unit_arrays p h -> unit_arrays q h ->
  em_iteration toy 1 two_points (Some 0%nat) (Some 1%nat) (Some q)
    (unit_state mi tol p h)
  = (Ok (Some (length h), Fin unit_log_likelihood),
     unit_state mi tol p (h ++ [Arr1 [Fin 1]])).
Proof.
  intros Hp Hq. unfold em_iteration.
  rewrite (bind_run toy _ _ _ _ _ (e_step_unit mi tol p q h Hq)).
  rewrite (bind_run toy _ _ _ _ _ (m_step_unit mi tol p q h Hq)).
  rewrite (bind_run toy _ _ _ _ _
             (compute_log_likelihood_unit mi tol p _
                (unit_arrays_app p h _ Hp))).
  reflexivity.
Qed.

Lemma converged_same l tol :
  0 < tol -> converged (Fin l) (Fin l) (Fin tol) = true.
Proof.
  intros H. unfold converged. simpl.
  replace (l + - l) with 0 by ring. rewrite Rabs_R0.
  destruct (Rlt_dec 0 tol); [reflexivity | contradiction].
Qed.

Lemma converged_never l : converged (Fin l) (Fin l) (Fin 0) = false.
Proof.
  unfold converged. simpl.
  replace (l + - l) with 0 by ring. rewrite Rabs_R0.
  destruct (Rlt_dec 0 0); [lra | reflexivity].
Qed.

Lemma unit_arrays_heap : unit_arrays 2 unit_heap.
Proof. repeat split. Qed.

Lemma em_loop_unit mi (tol : R) i iters p q h :
  0 < tol -> unit_arrays p h -> unit_arrays q h ->
  em_loop toy 1 two_points (Some 0%nat) (Some 1%nat) (i :: iters)
    (Fin unit_log_likelihood) (Some q) (unit_state mi (Fin tol) p h)
  = (Ok (Some (length h), Some (Z.of_nat i)),
     unit_state mi (Fin tol) p (h ++ [Arr1 [Fin 1]])).
Proof.
  intros Htol Hp Hq. cbn [em_loop].
  rewrite (bind_run toy _ _ _ _ _
             (em_iteration_unit mi (Fin tol) p q h Hp Hq)).
  unfold bind at 1, get_self at 1.
  cbn [fst snd self unit_state unit_model e].
  rewrite converged_same by exact Htol. reflexivity.
Qed.

Lemma fit_unit (mi : Z) (tol : R) :
  (0 < mi)%Z -> 0 < tol ->
  fit toy (Arr2 two_points) (fresh_state mi (Fin tol))
  = (Ok 0%Z, unit_state mi (Fin tol) 3 (unit_heap ++ [Arr1 [Fin 1]])).
Proof.
  intros Hmi Htol.
  unfold fit. cbn [assert_2d]. unfold bind at 1, ret at 1.
  rewrite (bind_run toy (seed toy 42) _ (fresh_state mi (Fin tol)) tt
             (seeded toy (fresh_state mi (Fin tol))) eq_refl).
  rewrite (bind_run toy _ _ _ _ _ (initialise_unit mi (Fin tol))).
  rewrite (bind_run toy _ _ _ _ _
             (compute_log_likelihood_unit mi (Fin tol) 2 unit_heap
                unit_arrays_heap)).
  unfold bind at 1, get_self at 1.
  cbn [self unit_state unit_model means variances pi_k max_iter].
  destruct (Z.to_nat mi) as [| n] eqn:En; [lia |].
  cbn [seq].
  rewrite (bind_run toy _ _ _ _ _
             (em_loop_unit mi tol 0 (seq 1 n) 2 2 unit_heap Htol
                unit_arrays_heap unit_arrays_heap)).
  reflexivity.
Qed.

(** With the tolerance [0.0] no pass can meet the test. *)
Lemma em_loop_unit_exhausted mi iters :
  forall p q h,
    unit_arrays p h -> unit_arrays q h ->
    exists q' h',
      em_loop toy 1 two_points (Some 0%nat) (Some 1%nat) iters
        (Fin unit_log_likelihood) (Some q) (unit_state mi (Fin 0) p h)
      = (Ok (Some q', None), unit_state mi (Fin 0) p h').
Proof.
  induction iters as [| i iters IH]; intros p q h Hp Hq.
  - exists q, h. reflexivity.
  - cbn [em_loop].
    rewrite (bind_run toy _ _ _ _ _
               (em_iteration_unit mi (Fin 0) p q h Hp Hq)).
    unfold bind at 1, get_self at 1.
    cbn [fst snd self unit_state unit_model e].
    rewrite converged_never.
    apply IH.
    + apply unit_arrays_app, Hp.
    + destruct Hp as (H0 & H1 & _). repeat split.
      * apply lookup_app_l_Some, H0.
      * apply lookup_app_l_Some, H1.
      * rewrite lookup_app_r, Nat.sub_diag by lia. reflexivity.
Qed.

Lemma fit_unit_exhausted (mi : Z) :
  exists q h,
    fit toy (Arr2 two_points) (fresh_state mi (Fin 0))
    = (Raise (UnboundLocalError "number_of_updates"),
       unit_state mi (Fin 0) q h).
Proof.
  destruct (em_loop_unit_exhausted mi (seq 0 (Z.to_nat mi)) 2 2 unit_heap
              unit_arrays_heap unit_arrays_heap) as (q & h & Hloop).
  exists q, h.
  unfold fit. cbn [assert_2d]. unfold bind at 1, ret at 1.
  rewrite (bind_run toy (seed toy 42) _ (fresh_state mi (Fin 0)) tt
             (seeded toy (fresh_state mi (Fin 0))) eq_refl).
  rewrite (bind_run toy _ _ _ _ _ (initialise_unit mi (Fin 0))).
  rewrite (bind_run toy _ _ _ _ _
             (compute_log_likelihood_unit mi (Fin 0) 2 unit_heap
                unit_arrays_heap)).
  unfold bind at 1, get_self at 1.
  cbn [self unit_state unit_model means variances pi_k max_iter].
  rewrite (bind_run toy _ _ _ _ _ Hloop).
  reflexivity.
Qed.

(** ** When [fit] returns *)

Section Fitted.

Context (np : library).

Lemma alloc_Ok a s p s' :
  alloc np a s = (Ok p, s') ->
  p = length (heap np s) /\ heap np s' = heap np s ++ [a] /\
  self np s' = self np s.
Proof. intros H. injection H as <- <-. auto. Qed.

Lemma set_parameters_Ok m v p s u s' :
  set_parameters np m v p s = (Ok u, s') ->
  means (self np s') = Some m /\ variances (self np s') = Some v /\
  pi_k (self np s') = Some p /\ heap np s' = heap np s.
Proof. intros H. injection H as _ <-. auto. Qed.

(** The three allocations that end both initialisations. *)
Lemma bind_parameters_Ok (mu : matrix) (sigma : list matrix) (w : vec)
    (K : nat) s r s' :
  bind np (alloc np (Arr2 mu)) (fun lm =>
  bind np (alloc np (Arr3 sigma)) (fun lv =>
  bind np (alloc np (Arr1 w)) (fun lp =>
  bind np (set_parameters np lm lv lp) (fun _ => ret np K)))) s
  = (Ok r, s') ->
  means (self np s') = Some (length (heap np s)) /\
  variances (self np s') = Some (S (length (heap np s))) /\
  pi_k (self np s') = Some (S (S (length (heap np s)))).
Proof.
  intros H.
  apply bind_Ok in H as (lm & s1 & H1 & H).
  apply bind_Ok in H as (lv & s2 & H2 & H).
  apply bind_Ok in H as (lp & s3 & H3 & H).
  apply bind_Ok in H as (u & s4 & H4 & H).
  injection H as _ <-.
  apply alloc_Ok in H1 as (-> & Hh1 & _).
  apply alloc_Ok in H2 as (-> & Hh2 & _).
  apply alloc_Ok in H3 as (-> & _ & _).
  apply set_parameters_Ok in H4 as (Hm & Hv & Hp & _).
  rewrite Hm, Hv, Hp, Hh2, Hh1, !length_app. cbn [length].
  rewrite !Nat.add_1_r. auto.
Qed.

Lemma initialise_Ok x s K s' :
  initialise np x s = (Ok K, s') ->
  means (self np s') = Some (length (heap np s)) /\
  variances (self np s') = Some (S (length (heap np s))) /\
  pi_k (self np s') = Some (S (S (length (heap np s)))).
Proof.
  unfold initialise. intros H.
  apply bind_Ok in H as (g & s0 & Hg & H). injection Hg as <- <-.
  destruct (String.eqb (init (self np s)) "k_means").
  - unfold init_k_means in H.
    apply bind_Ok in H as (g & s0 & Hg & H). injection Hg as <- <-.
    apply bind_Ok in H as (r & s1 & Hr & H).
    assert (Hh : heap np s1 = heap np s).
    { destruct (KMeans_fit np _ _ _ x (gen np s)) as [r0 g0].
      injection Hr as _ <-. reflexivity. }
    apply bind_Ok in H as (gamma & s2 & Hgamma & H).
    injection Hgamma as _ <-.
    apply bind_Ok in H as (sigma & s2 & Hsigma & H).
    injection Hsigma as _ <-.
    apply bind_parameters_Ok in H. rewrite Hh in H. exact H.
  - destruct (String.eqb (init (self np s)) "random"); [| discriminate].
    unfold init_random in H.
    apply bind_Ok in H as (g & s0 & Hg & H). injection Hg as <- <-.
    apply bind_Ok in H as (mu & s1 & Hmu & H).
    assert (Hh : heap np s1 = heap np s).
    { unfold rand in Hmu. destruct (draw_rows np _ _ (gen np s)).
      injection Hmu as _ <-. reflexivity. }
    destruct (Nat.eqb (n_cluster (self np s)) 0); [discriminate |].
    apply bind_parameters_Ok in H. rewrite Hh in H. exact H.
Qed.

Lemma m_step_Ok K x gamma rm rv s p s' :
  m_step np K x gamma rm rv s = (Ok p, s') ->
  exists h w, heap np s' = h ++ [Arr1 w] /\ p = length h.
Proof.
  unfold m_step. intros H.
  apply bind_Ok in H as (u1 & s1 & _ & H).
  apply bind_Ok in H as (u2 & s2 & _ & H).
  apply alloc_Ok in H as (-> & Hh & _). eauto.
Qed.

Lemma em_iteration_Ok K x rm rv rp s r s' :
  em_iteration np K x rm rv rp s = (Ok r, s') ->
  exists h w, heap np s' = h ++ [Arr1 w] /\ fst r = Some (length h).
Proof.
  unfold em_iteration. intros H.
  apply bind_Ok in H as (gamma & s1 & _ & H).
  apply bind_Ok in H as (p & s2 & Hm & H).
  apply bind_Ok in H as (l & s3 & Hl & H).
  injection H as <- <-.
  apply reads_compute_log_likelihood in Hl as ->.
  apply m_step_Ok in Hm as (h & w & Hh & ->). eauto.
Qed.

Lemma em_loop_Ok K x rm rv iters :
  forall l rp s r n s',
    em_loop np K x rm rv iters l rp s = (Ok (r, Some n), s') ->
    exists h w, heap np s' = h ++ [Arr1 w] /\ r = Some (length h).
Proof.
  induction iters as [| i iters IH]; intros l rp s r n s' H;
    cbn [em_loop] in H.
  - discriminate.
  - apply bind_Ok in H as (r1 & s1 & Hit & H).
    apply bind_Ok in H as (g & s2 & Hg & H). injection Hg as <- <-.
    destruct (converged l (snd r1) (e (self np s1))).
    + injection H as <- _ <-. eapply em_iteration_Ok; eauto.
    + eapply IH; eauto.
Qed.

End Fitted.

(** When [fit] returns, [self.means] and [self.variances] are the first two
    arrays the call created, those of the initialisation, updated in
    place, and [self.pi_k] is the last array the call created: the weights of
    the last M-step. *)
Theorem fit_returns_fitted (np : library) (x : ndarray) (s : state np)
    (n : Z) (s' : state np) :
  fit np x s = (Ok n, s') ->
  means (self np s') = Some (length (heap np s)) /\
  variances (self np s') = Some (S (length (heap np s))) /\
  exists h w,
    heap np s' = h ++ [Arr1 w] /\ pi_k (self np s') = Some (length h).
Proof.
  unfold fit. intros H.
  apply bind_Ok in H as (xm & s0 & Hx & H).
  apply reads_assert_2d in Hx as ->.
  apply bind_Ok in H as (u & s1 & Hseed & H). injection Hseed as _ <-.
  apply bind_Ok in H as (K & s2 & Hinit & H).
  apply initialise_Ok in Hinit as (Hm & Hv & _). cbn [heap] in Hm, Hv.
  apply bind_Ok in H as (l & s3 & Hl & H).
  apply reads_compute_log_likelihood in Hl as ->.
  apply bind_Ok in H as (g & s3 & Hg & H). injection Hg as <- <-.
  apply bind_Ok in H as ([r on] & s4 & Hloop & H).
  apply bind_Ok in H as (u2 & s5 & Hset & H).
  cbn [fst snd] in *. injection Hset as _ <-.
  destruct on as [k |]; [| discriminate]. injection H as _ <-.
  cbn [self heap means variances pi_k].
  apply em_loop_Ok in Hloop as (h & w & Hh & ->).
  split; [exact Hm |]. split; [exact Hv |]. eauto.
Qed.

(** [fit_returns_fitted] on the run that converges in its first pass. *)
Lemma fit_returns_fitted_witness :
  means (self toy (unit_state 100 (Fin (1 / 10000)) 3
                     (unit_heap ++ [Arr1 [Fin 1]])))
    = Some (length (heap toy (fresh_state 100 (Fin (1 / 10000))))) /\
  variances (self toy (unit_state 100 (Fin (1 / 10000)) 3
                         (unit_heap ++ [Arr1 [Fin 1]])))
    = Some (S (length (heap toy (fresh_state 100 (Fin (1 / 10000)))))) /\
  exists h w,
    heap toy (unit_state 100 (Fin (1 / 10000)) 3
                (unit_heap ++ [Arr1 [Fin 1]])) = h ++ [Arr1 w] /\
    pi_k (self toy (unit_state 100 (Fin (1 / 10000)) 3
                      (unit_heap ++ [Arr1 [Fin 1]])))
      = Some (length h).
Proof.
  assert (Hmi : (0 < 100)%Z) by reflexivity.
  assert (Htol : 0 < 1 / 10000) by lra.
  exact (fit_returns_fitted toy (Arr2 two_points)
           (fresh_state 100 (Fin (1 / 10000))) 0
           (unit_state 100 (Fin (1 / 10000)) 3 (unit_heap ++ [Arr1 [Fin 1]]))
           (fit_unit 100 (1 / 10000) Hmi Htol)).
Defined.

(** ** When the loop of [fit] ends without [break] *)

(** When the loop ends without [break], because every pass ran and none
    met the tolerance or because there was no pass at all, the three
    attributes are assigned and [return number_of_updates] raises
    [UnboundLocalError]: the name was never bound. *)
Theorem fit_without_break (np : library) (x : matrix) (s s1 s2 : state np)
    (K : nat) (l : float64) (p : option nat) :
  initialise np x (seeded np s) = (Ok K, s1) ->
  compute_log_likelihood np (Arr2 x) None None None s1 = (Ok l, s1) ->
  em_loop np K x (means (self np s1)) (variances (self np s1))
    (seq 0 (Z.to_nat (max_iter (self np s1)))) l (pi_k (self np s1)) s1
    = (Ok (p, None), s2) ->
  fit np (Arr2 x) s
  = (Raise (UnboundLocalError "number_of_updates"),
     with_parameters np s2 (means (self np s1)) (variances (self np s1)) p).
Proof.
  intros Hinit Hl Hloop.
  unfold fit. cbn [assert_2d]. unfold bind at 1, ret at 1.
  rewrite (bind_run np (seed np 42) _ s tt (seeded np s) eq_refl).
  rewrite (bind_run np _ _ _ _ _ Hinit).
  rewrite (bind_run np _ _ _ _ _ Hl).
  unfold bind at 1, get_self at 1.
  rewrite (bind_run np _ _ _ _ _ Hloop).
  reflexivity.
Qed.

(** [fit_without_break] on one pass with the tolerance [0.0]. *)
Lemma fit_without_break_witness :
  exists p s2,
    em_loop toy 1 two_points (Some 0%nat) (Some 1%nat) (seq 0 (Z.to_nat 1))
      (Fin unit_log_likelihood) (Some 2%nat) (unit_state 1 (Fin 0) 2 unit_heap)
    = (Ok (p, None), s2) /\
    fit toy (Arr2 two_points) (fresh_state 1 (Fin 0))
    = (Raise (UnboundLocalError "number_of_updates"),
       with_parameters toy s2 (Some 0%nat) (Some 1%nat) p).
Proof.
  destruct (em_loop_unit_exhausted 1 (seq 0 (Z.to_nat 1)) 2 2 unit_heap
              unit_arrays_heap unit_arrays_heap) as (q & h & H).
  exists (Some q), (unit_state 1 (Fin 0) 2 h). split; [exact H |].
  exact (fit_without_break toy two_points (fresh_state 1 (Fin 0))
           (unit_state 1 (Fin 0) 2 unit_heap) (unit_state 1 (Fin 0) 2 h)
           1 (Fin unit_log_likelihood) (Some q)
           (initialise_unit 1 (Fin 0))
           (compute_log_likelihood_unit 1 (Fin 0) 2 unit_heap
              unit_arrays_heap)
           H).
Defined.

Lemma flt_fabs_nonpositive d t : t <= 0 -> flt (fabs d) (Fin t) = false.
Proof.
  intros Ht. destruct d as [r | | |]; simpl; try reflexivity.
  destruct (Rlt_dec (Rabs r) t) as [H | _]; [| reflexivity].
  pose proof (Rabs_pos r). lra.
Qed.

Lemma em_loop_no_break np K x rm rv iters t :
  t <= 0 ->
  forall l rp s r on s',
    e (self np s) = Fin t ->
    em_loop np K x rm rv iters l rp s = (Ok (r, on), s') ->
    on = None.
Proof.
  intros Ht. induction iters as [| i iters IH]; intros l rp s r on s' He H;
    cbn [em_loop] in H.
  - injection H as _ <- _. reflexivity.
  - apply bind_Ok in H as (r1 & s1 & Hit & H).
    apply bind_Ok in H as (g & s2 & Hg & H). injection Hg as <- <-.
    assert (He1 : e (self np s1) = Fin t).
    { rewrite (keeps_self_em_iteration np _ _ _ _ _ _ _ _ Hit). exact He. }
    rewrite He1 in H. unfold converged in H.
    rewrite flt_fabs_nonpositive in H by exact Ht.
    eapply IH; eauto.
Qed.

(** With a tolerance that is zero or negative the test
    [np.absolute(l - l_new) < self.e] can never hold, so [fit] never
    returns: every call ends in an exception. *)
Theorem fit_needs_positive_tolerance (np : library) (x : ndarray)
    (s : state np) (t : R) :
  e (self np s) = Fin t -> t <= 0 ->
  forall n s', fit np x s <> (Ok n, s').
Proof.
  intros He Ht n s' H. unfold fit in H.
  apply bind_Ok in H as (xm & s0 & Hx & H).
  apply reads_assert_2d in Hx as ->.
  apply bind_Ok in H as (u & s1 & Hseed & H). injection Hseed as _ <-.
  apply bind_Ok in H as (K & s2 & Hinit & H).
  assert (He2 : e (self np s2) = Fin t).
  { destruct (keeps_config_initialise np _ _ _ _ Hinit) as (_ & He2 & _).
    cbn [self] in He2. congruence. }
  apply bind_Ok in H as (l & s3 & Hl & H).
  apply reads_compute_log_likelihood in Hl as ->.
  apply bind_Ok in H as (g & s3 & Hg & H). injection Hg as <- <-.
  apply bind_Ok in H as ([r on] & s4 & Hloop & H).
  apply (em_loop_no_break np _ _ _ _ _ t Ht) in Hloop; [| exact He2].
  subst on.
  apply bind_Ok in H as (u2 & s5 & Hset & H). discriminate.
Qed.

(** [fit_needs_positive_tolerance] on the tolerance [0.0]. *)
Lemma fit_needs_positive_tolerance_witness :
  0 <= 0 /\
  forall n s', fit toy (Arr2 two_points) (fresh_state 100 (Fin 0)) <> (Ok n, s').
Proof.
  split; [apply Rle_refl |].
  exact (fit_needs_positive_tolerance toy (Arr2 two_points)
           (fresh_state 100 (Fin 0)) 0 eq_refl (Rle_refl 0)).
Defined.

(** ** What the loop of [fit] writes *)

Section Writes.

Context (np : library).

Lemma writes_only_reads L {A} (m : M np A) : reads np m -> writes_only np L m.
Proof. intros H s r s' E. apply H in E. subst. auto. Qed.

Lemma writes_only_bind L {A B} (m : M np A) (f : A -> M np B) :
  writes_only np L m -> (forall a, writes_only np L (f a)) ->
  writes_only np L (bind np m f).
Proof.
  intros Hm Hf s r s' E. unfold bind in E.
  destruct (m s) as [[a | x] s1] eqn:E1.
  - destruct (Hm _ _ _ E1) as [H1 H2]. destruct (Hf a _ _ _ E) as [H3 H4].
    split; [lia |]. intros l Hl Hlt.
    rewrite H4 by (auto; lia). apply H2; assumption.
  - injection E as <- <-. eapply Hm; eauto.
Qed.

Lemma writes_only_alloc L a : writes_only np L (alloc np a).
Proof.
  intros s r s' E. injection E as <- <-. cbn [heap with_heap]. split.
  - rewrite length_app. lia.
  - intros l _ Hl. apply lookup_app_l. exact Hl.
Qed.

Lemma writes_only_store L l a : l ∈ L -> writes_only np L (store np l a).
Proof.
  intros Hin s r s' E. injection E as <- <-. cbn [heap with_heap]. split.
  - rewrite length_insert. lia.
  - intros l' Hl' _. apply list_lookup_insert_ne. intros ->. contradiction.
Qed.

Lemma writes_only_setitem2 L l k v :
  l ∈ L -> writes_only np L (setitem2 np (Some l) k v).
Proof.
  intros Hin. unfold setitem2.
  apply writes_only_bind; [apply writes_only_reads, reads_load2 |].
  intros m. destruct (m !! k); [| apply writes_only_reads, reads_raise].
  destruct (Nat.eqb _ _);
    [apply writes_only_store, Hin | apply writes_only_reads, reads_raise].
Qed.

Lemma writes_only_setitem3 L l k v :
  l ∈ L -> writes_only np L (setitem3 np (Some l) k v).
Proof.
  intros Hin. unfold setitem3.
  apply writes_only_bind; [apply writes_only_reads, reads_load3 |].
  intros t. destruct (t !! k);
    [apply writes_only_store, Hin | apply writes_only_reads, reads_raise].
Qed.

Lemma writes_only_update_means L D x gamma N_k l ks :
  l ∈ L -> writes_only np L (update_means np D x gamma N_k (Some l) ks).
Proof.
  intros Hin. induction ks as [| k ks IH]; cbn [update_means].
  - apply writes_only_reads, reads_ret.
  - apply writes_only_bind;
      [apply writes_only_setitem2, Hin | intros _; exact IH].
Qed.

Lemma writes_only_update_variances L D x gamma N_k rm l ks :
  l ∈ L ->
  writes_only np L (update_variances np D x gamma N_k rm (Some l) ks).
Proof.
  intros Hin. induction ks as [| k ks IH]; cbn [update_variances].
  - apply writes_only_reads, reads_ret.
  - apply writes_only_bind; [apply writes_only_reads, reads_load2 |].
    intros mv. apply writes_only_bind; [apply writes_only_reads, reads_lift |].
    intros m. apply writes_only_bind;
      [apply writes_only_setitem3, Hin | intros _; exact IH].
Qed.

Lemma writes_only_m_step K x gamma lm lv :
  writes_only np [lm; lv] (m_step np K x gamma (Some lm) (Some lv)).
Proof.
  unfold m_step.
  apply writes_only_bind;
    [apply writes_only_update_means; left |].
  intros _. apply writes_only_bind;
    [apply writes_only_update_variances; right; left |].
  intros _. apply writes_only_alloc.
Qed.

Lemma writes_only_em_iteration K x lm lv rp :
  writes_only np [lm; lv] (em_iteration np K x (Some lm) (Some lv) rp).
Proof.
  unfold em_iteration.
  apply writes_only_bind; [apply writes_only_reads, reads_e_step |].
  intros gamma. apply writes_only_bind; [apply writes_only_m_step |].
  intros p. apply writes_only_bind;
    [apply writes_only_reads, reads_compute_log_likelihood |].
  intros l. apply writes_only_reads, reads_ret.
Qed.

Lemma writes_only_em_loop K x lm lv iters :
  forall l rp,
    writes_only np [lm; lv] (em_loop np K x (Some lm) (Some lv) iters l rp).
Proof.
  induction iters as [| i iters IH]; intros l rp; cbn [em_loop].
  - apply writes_only_reads, reads_ret.
  - apply writes_only_bind; [apply writes_only_em_iteration |].
    intros r. apply writes_only_bind;
      [apply writes_only_reads, reads_get_self |].
    intros g. destruct (converged _ _ _);
      [apply writes_only_reads, reads_ret | apply IH].
Qed.

End Writes.

(** The loop writes to the two arrays [means] and [variances] refer to
    and to no other array that existed before it: whatever the number of
    passes and however the loop ends, every other array, the one
    [self.pi_k] refers to among them, holds what it held. *)
Theorem em_loop_writes_means_and_variances_only (np : library) (K : nat)
    (x : matrix) (lm lv : nat) (rp : option nat) (iters : list nat)
    (l : float64) (s : state np) (lp : nat) :
  lp <> lm -> lp <> lv -> (lp < length (heap np s))%nat ->
  heap np (snd (em_loop np K x (Some lm) (Some lv) iters l rp s)) !! lp
  = heap np s !! lp.
Proof.
  intros Hm Hv Hlt.
  destruct (em_loop np K x (Some lm) (Some lv) iters l rp s) as [r s'] eqn:E.
  simpl. destruct (writes_only_em_loop np K x lm lv iters l rp s r s' E)
    as [_ H].
  apply H; [| exact Hlt].
  intros Hin. inversion Hin as [| ? ? ? Hin1]; subst; [contradiction |].
  inversion Hin1 as [| ? ? ? Hin2]; subst; [contradiction |].
  inversion Hin2.
Qed.

(** [em_loop_writes_means_and_variances_only] on the weights of the small
    model. *)
Lemma em_loop_writes_means_and_variances_only_witness :
  heap toy
    (snd (em_loop toy 1 two_points (Some 0%nat) (Some 1%nat) (seq 0 100)
            (Fin unit_log_likelihood) (Some 2%nat)
            (unit_state 100 (Fin (1 / 10000)) 2 unit_heap))) !! 2%nat
  = heap toy (unit_state 100 (Fin (1 / 10000)) 2 unit_heap) !! 2%nat.
Proof.
  apply (em_loop_writes_means_and_variances_only toy 1 two_points 0 1
           (Some 2%nat) (seq 0 100) (Fin unit_log_likelihood)
           (unit_state 100 (Fin (1 / 10000)) 2 unit_heap) 2).
  - discriminate.
  - discriminate.
  - simpl. lia.
Defined.

Lemma compute_log_likelihood_Ok np x s l s' :
  compute_log_likelihood np (Arr2 x) None None None s = (Ok l, s') ->
  n_cluster (self np s) <> 0%nat -> x <> [] ->
  exists lm lv lp mv vv pv,
    means (self np s) = Some lm /\ variances (self np s) = Some lv /\
    pi_k (self np s) = Some lp /\
    heap np s !! lm = Some (Arr2 mv) /\
    heap np s !! lv = Some (Arr3 vv) /\
    heap np s !! lp = Some (Arr1 pv) /\
    log_likelihood np (n_cluster (self np s)) x mv vv pv = Ok l.
Proof.
  intros H HK Hx. unfold compute_log_likelihood in H. cbn [assert_2d] in H.
  unfold bind at 1, ret at 1 in H. unfold bind at 1, get_self at 1 in H.
  cbn [or_else] in H.
  apply Nat.eqb_neq in HK. rewrite HK in H.
  assert (HN : Nat.eqb (length x) 0 = false).
  { apply Nat.eqb_neq. destruct x; [contradiction | discriminate]. }
  rewrite HN in H.
  apply bind_Ok in H as (inst & s1 & Hinst & H).
  apply fill_inst_Ok in Hinst as (-> & mv & vv & Hinst & Hload).
  apply Nat.eqb_neq in HK. destruct (Hload HK) as [Hmv Hvv].
  apply load2_Ok in Hmv as (_ & lm & Hlm & Hmv).
  apply load3_Ok in Hvv as (_ & lv & Hlv & Hvv).
  apply bind_Ok in H as (pv & s1 & Hpv & H).
  apply load1_Ok in Hpv as (-> & lp & Hlp & Hpv).
  injection H as H _.
  exists lm, lv, lp, mv, vv, pv.
  unfold log_likelihood. rewrite Hinst. simpl. auto 10.
Qed.

Lemma em_iteration_inv (np : library) (K : nat)
    (x : matrix) (lm lv lp : nat) (rp p : option nat) (w : vec)
    (l_new : float64) (s s' : state np) :
  means (self np s) = Some lm ->
  variances (self np s) = Some lv ->
  pi_k (self np s) = Some lp ->
  lp <> lm -> lp <> lv ->
  heap np s !! lp = Some (Arr1 w) ->
  n_cluster (self np s) <> 0%nat -> x <> [] ->
  em_iteration np K x (Some lm) (Some lv) rp s = (Ok (p, l_new), s') ->
  exists gamma mv vv pnew,
    e_step np K x (Some lm) (Some lv) rp s = (Ok gamma, s) /\
    heap np s' !! lm = Some (Arr2 mv) /\
    heap np s' !! lv = Some (Arr3 vv) /\
    p = Some pnew /\ pnew <> lp /\
    heap np s' !! pnew = Some (Arr1 (new_weights K x gamma)) /\
    heap np s' !! lp = Some (Arr1 w) /\
    log_likelihood np (n_cluster (self np s)) x mv vv w = Ok l_new.
Proof.
  intros Hm Hv Hp Hnm Hnv Hw HK Hx H. unfold em_iteration in H.
  apply bind_Ok in H as (gamma & s1 & Hgamma & H).
  pose proof (reads_e_step np _ _ _ _ _ _ _ _ Hgamma) as ->.
  apply bind_Ok in H as (p0 & s2 & Hstep & H).
  apply bind_Ok in H as (l & s3 & Hl & H).
  pose proof (reads_compute_log_likelihood np _ _ _ _ _ _ _ Hl) as ->.
  injection H as <- <- <-.
  pose proof (keeps_self_m_step np _ _ _ _ _ _ _ _ Hstep) as Hself.
  destruct (writes_only_m_step np _ _ _ _ _ _ _ _ Hstep) as [Hlen Hframe].
  assert (Hlt : (lp < length (heap np s))%nat)
    by (eapply lookup_lt_Some; eauto).
  assert (Hw2 : heap np s2 !! lp = Some (Arr1 w)).
  { rewrite Hframe; [exact Hw | | exact Hlt].
    intros Hin. inversion Hin as [| ? ? ? Hin1]; subst; [contradiction |].
    inversion Hin1 as [| ? ? ? Hin2]; subst; [contradiction |].
    inversion Hin2. }
  unfold m_step in Hstep.
  apply bind_Ok in Hstep as (u1 & sa & Hmeans & Hstep).
  apply bind_Ok in Hstep as (u2 & sb & Hvars & Hstep).
  injection Hstep as <- <-.
  destruct (writes_only_update_means np [lm; lv] _ _ _ _ lm _
              ltac:(left) _ _ _ Hmeans) as [Hlen1 _].
  destruct (writes_only_update_variances np [lm; lv] _ _ _ _ (Some lm) lv _
              ltac:(right; left) _ _ _ Hvars) as [Hlen2 _].
  apply compute_log_likelihood_Ok in Hl as
      (lm' & lv' & lp' & mv & vv & pv & Hm' & Hv' & Hp' & Hmv & Hvv & Hpv & Hll);
    [| rewrite Hself; exact HK | exact Hx].
  rewrite Hself in Hm', Hv', Hp', Hll.
  assert (lm' = lm) as -> by congruence.
  assert (lv' = lv) as -> by congruence.
  assert (lp' = lp) as -> by congruence.
  assert (pv = w) as -> by congruence.
  exists gamma, mv, vv, (length (heap np sb)).
  split; [exact Hgamma |]. split; [exact Hmv |]. split; [exact Hvv |].
  split; [reflexivity |]. split; [lia |].
  split; [| split; [exact Hw2 | exact Hll]].
  cbn [heap with_heap]. rewrite lookup_app_r, Nat.sub_diag by lia.
  reflexivity.
Qed.

(** In every pass the new log-likelihood is computed from the arrays the
    attributes refer to: the means and the covariances just updated in
    place, and the weights [self.pi_k] still refers to, which the pass has
    not touched; the weights of the M-step are another, new array. *)
Theorem em_iteration_log_likelihood_weights (np : library) (K : nat)
    (x : matrix) (lm lv lp : nat) (rp p : option nat) (w : vec)
    (l_new : float64) (s s' : state np) :
  means (self np s) = Some lm ->
  variances (self np s) = Some lv ->
  pi_k (self np s) = Some lp ->
  lp <> lm -> lp <> lv ->
  heap np s !! lp = Some (Arr1 w) ->
  n_cluster (self np s) <> 0%nat -> x <> [] ->
  em_iteration np K x (Some lm) (Some lv) rp s = (Ok (p, l_new), s') ->
  exists gamma mv vv pnew,
    e_step np K x (Some lm) (Some lv) rp s = (Ok gamma, s) /\
    heap np s' !! lm = Some (Arr2 mv) /\
    heap np s' !! lv = Some (Arr3 vv) /\
    p = Some pnew /\ pnew <> lp /\
    heap np s' !! pnew = Some (Arr1 (new_weights K x gamma)) /\
    heap np s' !! lp = Some (Arr1 w) /\
    log_likelihood np (n_cluster (self np s)) x mv vv w = Ok l_new.
Proof. exact (em_iteration_inv np K x lm lv lp rp p w l_new s s'). Qed.

(** [em_iteration_log_likelihood_weights] on the first pass of the small
    model. *)
Lemma em_iteration_log_likelihood_weights_witness :
  exists gamma mv vv pnew,
    e_step toy 1 two_points (Some 0%nat) (Some 1%nat) (Some 2%nat)
      (unit_state 100 (Fin (1 / 10000)) 2 unit_heap)
    = (Ok gamma, unit_state 100 (Fin (1 / 10000)) 2 unit_heap) /\
    heap toy (unit_state 100 (Fin (1 / 10000)) 2
                (unit_heap ++ [Arr1 [Fin 1]])) !! 0%nat = Some (Arr2 mv) /\
    heap toy (unit_state 100 (Fin (1 / 10000)) 2
                (unit_heap ++ [Arr1 [Fin 1]])) !! 1%nat = Some (Arr3 vv) /\
    Some (length unit_heap) = Some pnew /\ pnew <> 2%nat /\
    heap toy (unit_state 100 (Fin (1 / 10000)) 2
                (unit_heap ++ [Arr1 [Fin 1]])) !! pnew
    = Some (Arr1 (new_weights 1 two_points gamma)) /\
    heap toy (unit_state 100 (Fin (1 / 10000)) 2
                (unit_heap ++ [Arr1 [Fin 1]])) !! 2%nat = Some (Arr1 [Fin 1]) /\
    log_likelihood toy
      (n_cluster (self toy (unit_state 100 (Fin (1 / 10000)) 2 unit_heap)))
      two_points mv vv [Fin 1]
    = Ok (Fin unit_log_likelihood).
Proof.
  assert (H20 : 2%nat <> 0%nat) by discriminate.
  assert (H21 : 2%nat <> 1%nat) by discriminate.
  assert (H10 : 1%nat <> 0%nat) by discriminate.
  assert (Hx : two_points <> []) by discriminate.
  exact (em_iteration_log_likelihood_weights toy 1 two_points 0 1 2
           (Some 2%nat) (Some (length unit_heap)) [Fin 1]
           (Fin unit_log_likelihood)
           (unit_state 100 (Fin (1 / 10000)) 2 unit_heap)
           (unit_state 100 (Fin (1 / 10000)) 2 (unit_heap ++ [Arr1 [Fin 1]]))
           eq_refl eq_refl eq_refl H20 H21 eq_refl H10 Hx
           (em_iteration_unit 100 (Fin (1 / 10000)) 2 2 unit_heap
              unit_arrays_heap unit_arrays_heap)).
Defined.

(** ** Degenerate values that raise nothing *)

Lemma flog_nonneg a :
  nonneg a -> (exists r, flog a = Fin r) \/ (a = Fin 0 /\ flog a = NInf).
Proof.
  intros (r & -> & Hr). simpl.
  destruct (Rle_lt_or_eq_dec 0 r Hr) as [Hpos | <-].
  - rewrite Rsign_pos by exact Hpos. eauto.
  - rewrite Rsign_zero. auto.
Qed.

Lemma vsum_flog_nonneg (ds : vec) :
  Forall nonneg ds ->
  (exists r, vsum (map flog ds) = Fin r) \/ vsum (map flog ds) = NInf.
Proof.
  induction 1 as [| a ds Ha _ IH]; [left; exists 0; reflexivity |].
  cbn [map vsum fold_right]. fold (vsum (map flog ds)).
  destruct (flog_nonneg a Ha) as [[r ->] | [_ ->]], IH as [[r' ->] | ->];
    simpl; eauto.
Qed.

Lemma vsum_flog_zero (ds : vec) :
  Forall nonneg ds -> Exists (fun d => d = Fin 0) ds ->
  vsum (map flog ds) = NInf.
Proof.
  intros Hall Hex. induction Hex as [a ds -> | a ds _ IH].
  - apply Forall_cons in Hall as [_ Hall].
    cbn [map vsum fold_right]. fold (vsum (map flog ds)).
    simpl flog. rewrite Rsign_zero.
    destruct (vsum_flog_nonneg ds Hall) as [[r ->] | ->]; reflexivity.
  - apply Forall_cons in Hall as [Ha Hall].
    cbn [map vsum fold_right]. fold (vsum (map flog ds)).
    rewrite IH by exact Hall.
    destruct (flog_nonneg a Ha) as [[r ->] | [_ ->]]; reflexivity.
Qed.

(** A point of mixture density zero: on components and data of the same
    dimension [D], when the densities of all points are finite and not
    negative and one of them is zero, [np.log] gives [-inf] for it and the
    method returns [-inf]; nothing is raised. *)
Theorem log_likelihood_zero_density (np : library) (K D : nat)
    (x mv : matrix) (vv : list matrix) (pv : vec)
    (inst : list Gaussian_pdf) :
  build_inst np K mv vv = Ok inst ->
  (K <= length pv)%nat ->
  Forall (well_shaped D) inst ->
  Forall (fun xi => length xi = D) x ->
  Forall (fun xi => nonneg (mixture_density pv inst xi)) x ->
  Exists (fun xi => mixture_density pv inst xi = Fin 0) x ->
  log_likelihood np K x mv vv pv = Ok NInf.
Proof.
  intros Hinst Hlen Hshape Hwidth Hall Hex.
  rewrite (log_likelihood_run np K D x mv vv pv inst Hinst Hlen Hshape Hwidth).
  f_equal. unfold total_log_likelihood.
  rewrite <- (map_map (mixture_density pv inst) flog).
  apply vsum_flog_zero.
  - apply Forall_map. exact Hall.
  - rewrite map_fmap. apply Exists_fmap. exact Hex.
Qed.

Lemma mixture_density_no_weight a :
  mixture_density [Fin 0] [unit_pdf] [Fin a] = Fin 0.
Proof.
  unfold mixture_density. cbn [zip_with vsum fold_right].
  rewrite density_unit. simpl. f_equal. ring.
Qed.

(** [log_likelihood_zero_density] on the unit component with weight
    zero. *)
Lemma log_likelihood_zero_density_witness :
  log_likelihood toy 1 two_points [[Fin 0]] [[[Fin 1]]] [Fin 0] = Ok NInf.
Proof.
  apply (log_likelihood_zero_density toy 1 1 two_points [[Fin 0]]
           [[[Fin 1]]] [Fin 0] [unit_pdf] (build_inst_unit_pdf no_draws)
           (le_n 1) well_shaped_unit two_points_width).
  - assert (Hz : forall a, nonneg (mixture_density [Fin 0] [unit_pdf] [Fin a])).
    { intros a. rewrite mixture_density_no_weight.
      exists 0. split; [reflexivity | lra]. }
    unfold two_points. constructor; [apply Hz |].
    constructor; [apply Hz | constructor].
  - left. apply mixture_density_no_weight.
Defined.

Lemma fsub_fin a b : is_fin a -> is_fin b -> is_fin (fsub a b).
Proof. intros [x ->] [y ->]. eexists. reflexivity. Qed.

Lemma vsub_fin (a b : vec) :
  Forall is_fin a -> Forall is_fin b -> Forall is_fin (vsub a b).
Proof.
  intros Ha. revert b. induction Ha as [| x a Hx _ IH]; intros b Hb.
  - constructor.
  - destruct Hb as [| y b Hy Hb]; [constructor |].
    simpl. constructor; [apply fsub_fin; assumption | apply IH; assumption].
Qed.

Lemma length_vsub (a b : vec) :
  length a = length b -> length (vsub a b) = length a.
Proof. intros H. unfold vsub. rewrite length_zip_with. lia. Qed.

Lemma vscale_zero (c : float64) (b : vec) :
  is_fin c -> Forall is_fin b ->
  vscale (Fin 0) (map (fmul c) b) = replicate (length b) (Fin 0).
Proof.
  intros [r ->] Hb. unfold vscale.
  induction Hb as [| a b [y ->] _ IH]; [reflexivity |].
  cbn [map replicate length]. rewrite IH. f_equal.
  simpl. f_equal. ring.
Qed.

(** An outer product of finite vectors scaled by zero. *)
Lemma mscale_zero_outer (a b : vec) :
  Forall is_fin a -> Forall is_fin b ->
  mscale (Fin 0) (outer a b) = zeros (length a) (length b).
Proof.
  intros Ha Hb. unfold mscale, outer, zeros. rewrite map_map.
  induction Ha as [| c a Hc _ IH]; [reflexivity |].
  cbn [map replicate length]. rewrite IH, vscale_zero by assumption.
  reflexivity.
Qed.

Lemma vadd_zeros n :
  vadd (replicate n (Fin 0)) (replicate n (Fin 0)) = replicate n (Fin 0).
Proof.
  induction n as [| n IH]; [reflexivity |].
  cbn [replicate vadd zip_with].
  fold (vadd (replicate n (Fin 0)) (replicate n (Fin 0))).
  rewrite IH. f_equal. simpl. f_equal. ring.
Qed.

Lemma madd_zeros n m : madd (zeros n m) (zeros n m) = zeros n m.
Proof.
  unfold zeros, madd. induction n as [| n IH]; [reflexivity |].
  cbn [replicate zip_with]. rewrite IH, vadd_zeros. reflexivity.
Qed.

Lemma msum_zeros d (ms : list matrix) :
  Forall (fun m => m = zeros d d) ms -> msum d ms = zeros d d.
Proof.
  induction 1 as [| m ms -> _ IH]; [reflexivity |].
  cbn [msum fold_right]. fold (msum d ms). rewrite IH. apply madd_zeros.
Qed.

Lemma mdiv_zeros n m :
  mdiv (zeros n m) (Fin 0) = replicate n (replicate m NaN).
Proof.
  unfold mdiv, zeros, vdiv.
  assert (Hrow : map (fun a => fdiv a (Fin 0)) (replicate m (Fin 0))
                 = replicate m NaN).
  { induction m as [| m IH]; [reflexivity |].
    cbn [replicate map]. rewrite IH. f_equal. simpl.
    destruct (Req_dec_T 0 0) as [_ | H]; [| contradiction].
    rewrite Rsign_zero. reflexivity. }
  induction n as [| n IH]; [reflexivity |].
  cbn [replicate map]. rewrite IH, Hrow. reflexivity.
Qed.

Lemma count_occ_0_Forall (assign : list nat) k :
  count_occ Nat.eq_dec assign k = 0%nat -> Forall (fun a => a <> k) assign.
Proof.
  intros H. apply Forall_forall. intros a Ha Heq. subst a.
  apply list_elem_of_In in Ha.
  apply (count_occ_In Nat.eq_dec) in Ha. lia.
Qed.

Lemma empty_cluster_closed_form (K D : nat) (x : matrix)
    (assign : list nat) (k : nat) (m : vec) :
  (k < K)%nat ->
  Forall (fun a => (a < K)%nat) assign ->
  length assign = length x ->
  x <> [] ->
  count_occ Nat.eq_dec assign k = 0%nat ->
  Forall (fun xi => length xi = D /\ Forall is_fin xi) x ->
  length m = D -> Forall is_fin m ->
  weighted_outer_products D x (hard_assignment K assign) k m
    = replicate D (replicate D NaN) /\
  cluster_fractions K assign !! k = Some (Fin 0).
Proof.
  intros Hk Hall Hlen Hx Hcount Hrows Hm Hfin.
  pose proof (count_occ_0_Forall assign k Hcount) as Hne.
  split.
  - unfold weighted_outer_products.
    rewrite responsibility_mass_hard, Hcount by assumption.
    change (of_nat 0) with (Fin 0).
    rewrite msum_zeros; [apply mdiv_zeros |].
    unfold hard_assignment. clear Hcount Hx.
    revert x Hlen Hrows.
    induction assign as [| a assign IH]; intros x Hlen Hrows.
    + constructor.
    + destruct x as [| xi x]; [discriminate |].
      apply Forall_cons in Hall as [Ha Hall].
      apply Forall_cons in Hne as [Hak Hne].
      apply Forall_cons in Hrows as [[Hxi Hxfin] Hrows].
      cbn [map zip_with]. constructor.
      * rewrite nth_one_hot_row by assumption.
        destruct (Nat.eq_dec a k) as [Heq | _]; [contradiction |].
        rewrite mscale_zero_outer by (apply vsub_fin; assumption).
        rewrite length_vsub by congruence. rewrite Hxi. reflexivity.
      * apply IH; auto.
  - unfold cluster_fractions.
    rewrite map_fmap, list_lookup_fmap, lookup_seq_lt by exact Hk.
    cbn [fmap option_fmap option_map Nat.add]. rewrite Hcount.
    unfold of_nat. simpl INR.
    assert (HN : INR (length assign) <> 0).
    { apply not_0_INR. rewrite Hlen.
      destruct x; [contradiction | discriminate]. }
    unfold fdiv. destruct (Req_dec_T (INR (length assign)) 0) as [H | _];
      [contradiction |].
    do 2 f_equal. field. exact HN.
Qed.

(** A cluster to which the clustering assigns no point: its mass is zero,
    so the initialisation gives it the weight [0] and a covariance whose
    every entry is [0 / 0]; nothing is raised. *)
Theorem empty_cluster_initialisation (K : nat) (x gamma : matrix)
    (assign : list nat) (k : nat) (m : vec) :
  (k < K)%nat ->
  Forall (fun a => (a < K)%nat) assign ->
  length assign = length x ->
  one_hot K (length x) assign = Ok gamma ->
  x <> [] ->
  count_occ Nat.eq_dec assign k = 0%nat ->
  Forall (fun xi => length xi = ncols x /\ Forall is_fin xi) x ->
  length m = ncols x -> Forall is_fin m ->
  weighted_cov (ncols x) x gamma k m (nth k (sum_axis0 K gamma) NaN)
    = replicate (ncols x) (replicate (ncols x) NaN) /\
  vdiv (sum_axis0 K gamma) (of_nat (length x)) !! k = Some (Fin 0).
Proof.
  intros Hk Hall Hlen Hgamma Hx Hcount Hrows Hm Hfin.
  rewrite (one_hot_run K (length x) assign Hlen Hall) in Hgamma.
  injection Hgamma as <-.
  rewrite (weighted_cov_outer_products K) by exact Hk.
  rewrite <- Hlen, (sum_axis0_hard K assign Hall).
  eapply empty_cluster_closed_form; eauto.
Qed.

(** [empty_cluster_initialisation] on two clusters of which the second is
    empty. *)
Lemma empty_cluster_initialisation_witness :
  weighted_cov (ncols two_points) two_points
    [[Fin 1; Fin 0]; [Fin 1; Fin 0]] 1 [Fin 0]
    (nth 1 (sum_axis0 2 [[Fin 1; Fin 0]; [Fin 1; Fin 0]]) NaN)
    = replicate (ncols two_points) (replicate (ncols two_points) NaN) /\
  vdiv (sum_axis0 2 [[Fin 1; Fin 0]; [Fin 1; Fin 0]])
    (of_nat (length two_points)) !! 1%nat = Some (Fin 0).
Proof.
  assert (Hx : two_points <> []) by discriminate.
  assert (Hall : Forall (fun a => (a < 2)%nat) [0; 0]%nat)
    by (repeat constructor).
  assert (Hrows : Forall (fun xi => length xi = ncols two_points /\
                                    Forall is_fin xi) two_points).
  { repeat constructor; eexists; reflexivity. }
  assert (Hfin : Forall is_fin [Fin 0])
    by (repeat constructor; eexists; reflexivity).
  exact (empty_cluster_initialisation 2 two_points
           [[Fin 1; Fin 0]; [Fin 1; Fin 0]] [0; 0]%nat 1 [Fin 0]
           (le_n 2) Hall eq_refl eq_refl Hx eq_refl Hrows eq_refl Hfin).
Defined.

(** ** The M-step *)

(** The weights an M-step stores, for responsibilities whose rows are
    non-negative and sum to one over at least one point: the M-step
    returns, the new array holds [N_k / N], and these [K] numbers are
    non-negative and sum to one. *)
Theorem m_step_weights_distribution (np : library) (K : nat)
    (x gamma mv : matrix) (vv : list matrix) (lm lv : nat) (s : state np) :
  lm <> lv ->
  heap np s !! lm = Some (Arr2 mv) ->
  shape2 K (ncols x) mv ->
  heap np s !! lv = Some (Arr3 vv) ->
  length vv = K ->
  length gamma = length x ->
  x <> [] ->
  Forall (fun row => length row = K /\ Forall nonneg row /\ vsum row = Fin 1)
         gamma ->
  exists p s' w,
    m_step np K x gamma (Some lm) (Some lv) s = (Ok p, s') /\
    heap np s' !! p = Some (Arr1 w) /\
    w = vdiv (sum_axis0 K gamma) (of_nat (length x)) /\
    length w = K /\ Forall nonneg w /\ vsum w = Fin 1.
Proof.
  intros Hne Hm Hshape Hv Hlen Hg Hx Hrows.
  destruct (new_weights_distribution K x gamma Hg Hx Hrows)
    as (Hnn & Hsum & Hlenw).
  eexists _, _, (new_weights K x gamma).
  split; [apply (m_step_run np K x gamma lm lv s mv vv); assumption |].
  split.
  - cbn [heap with_heap]. rewrite lookup_app_r by (rewrite !length_insert; lia).
    rewrite !length_insert, Nat.sub_diag. reflexivity.
  - auto.
Qed.

Lemma m_step_stages (np : library) (K : nat)
    (x gamma mv : matrix) (vv : list matrix) (lm lv : nat) (s : state np) :
  lm <> lv ->
  heap np s !! lm = Some (Arr2 mv) ->
  shape2 K (ncols x) mv ->
  heap np s !! lv = Some (Arr3 vv) ->
  length vv = K ->
  Forall (fun xi => length xi = ncols x) x ->
  exists s1 s2 mu sigma,
    update_means np (ncols x) x gamma (sum_axis0 K gamma) (Some lm)
      (seq 0 K) s = (Ok tt, s1) /\
    heap np s1 !! lm = Some (Arr2 mu) /\
    heap np s1 !! lv = Some (Arr3 vv) /\
    update_variances np (ncols x) x gamma (sum_axis0 K gamma) (Some lm)
      (Some lv) (seq 0 K) s1 = (Ok tt, s2) /\
    heap np s2 !! lm = Some (Arr2 mu) /\
    heap np s2 !! lv = Some (Arr3 sigma) /\
    length mu = K /\ length sigma = K /\
    forall k, (k < K)%nat ->
      mu !! k = Some (weighted_average (ncols x) x gamma k) /\
      sigma !! k = Some (weighted_outer_products (ncols x) x gamma k
                           (weighted_average (ncols x) x gamma k)).
Proof.
  intros Hne Hm [Hmlen Hmrows] Hv Hvlen Hx.
  pose proof (update_means_run np (ncols x) x gamma (sum_axis0 K gamma) lm K
                0 mv s Hm Hmlen Hmrows) as Hmeans.
  cbn zeta in Hmeans. simpl in Hmeans.
  fold (new_means K x gamma) in Hmeans.
  set (s1 := with_heap np s (<[lm := Arr2 (new_means K x gamma)]> (heap np s)))
    in *.
  assert (Hm1 : heap np s1 !! lm = Some (Arr2 (new_means K x gamma))).
  { apply list_lookup_insert_eq. eapply lookup_lt_Some; exact Hm. }
  assert (Hv1 : heap np s1 !! lv = Some (Arr3 vv)).
  { unfold s1. cbn [heap with_heap].
    rewrite list_lookup_insert_ne by exact Hne. exact Hv. }
  pose proof (update_variances_run np (ncols x) x gamma (sum_axis0 K gamma)
                lm lv (new_means K x gamma) K 0 vv s1 Hne Hm1) as Hvars.
  cbn zeta in Hvars. rewrite length_new_means in Hvars.
  specialize (Hvars (le_n K) Hv1 Hvlen). simpl in Hvars.
  fold (new_variances K x gamma (new_means K x gamma)) in Hvars.
  exists s1. eexists.
  exists (new_means K x gamma), (new_variances K x gamma (new_means K x gamma)).
  split; [exact Hmeans |]. split; [exact Hm1 |]. split; [exact Hv1 |].
  split; [exact Hvars |].
  split.
  { cbn [heap with_heap]. rewrite list_lookup_insert_ne by (intros ->; contradiction).
    exact Hm1. }
  split.
  { cbn [heap with_heap]. apply list_lookup_insert_eq.
    eapply lookup_lt_Some; exact Hv1. }
  split; [apply length_new_means |].
  split; [unfold new_variances; rewrite length_map; apply length_seq |].
  intros k Hk.
  assert (Hmu : new_means K x gamma !! k
                = Some (weighted_average (ncols x) x gamma k)).
  { unfold new_means.
    rewrite map_fmap, list_lookup_fmap, lookup_seq_lt by exact Hk.
    cbn [fmap option_fmap option_map Nat.add].
    rewrite (weighted_mean_average K) by assumption. reflexivity. }
  split; [exact Hmu |].
  unfold new_variances.
  rewrite map_fmap, list_lookup_fmap, lookup_seq_lt by exact Hk.
  cbn [fmap option_fmap option_map Nat.add].
  rewrite (nth_lookup_Some _ _ [] _ Hmu).
  rewrite (weighted_cov_outer_products K) by exact Hk. reflexivity.
Qed.

(** The order of the two loops of the M-step: when the first loop ends all
    [K] rows of [means] hold the new means while [variances] is still
    untouched, and the second loop takes its residuals against those new
    means. *)
Theorem m_step_means_then_covariances (np : library) (K : nat)
    (x gamma mv : matrix) (vv : list matrix) (lm lv : nat) (s : state np) :
  lm <> lv ->
  heap np s !! lm = Some (Arr2 mv) ->
  shape2 K (ncols x) mv ->
  heap np s !! lv = Some (Arr3 vv) ->
  length vv = K ->
  Forall (fun xi => length xi = ncols x) x ->
  exists s1 s2 mu sigma,
    update_means np (ncols x) x gamma (sum_axis0 K gamma) (Some lm)
      (seq 0 K) s = (Ok tt, s1) /\
    heap np s1 !! lm = Some (Arr2 mu) /\
    heap np s1 !! lv = Some (Arr3 vv) /\
    update_variances np (ncols x) x gamma (sum_axis0 K gamma) (Some lm)
      (Some lv) (seq 0 K) s1 = (Ok tt, s2) /\
    heap np s2 !! lm = Some (Arr2 mu) /\
    heap np s2 !! lv = Some (Arr3 sigma) /\
    length mu = K /\ length sigma = K /\
    forall k, (k < K)%nat ->
      mu !! k = Some (weighted_average (ncols x) x gamma k) /\
      sigma !! k = Some (weighted_outer_products (ncols x) x gamma k
                           (weighted_average (ncols x) x gamma k)).
Proof. exact (m_step_stages np K x gamma mv vv lm lv s). Qed.

Lemma unit_rows_stochastic :
  Forall (fun row => length row = 1%nat /\ Forall nonneg row /\ vsum row = Fin 1)
         [[Fin 1]; [Fin 1]].
Proof.
  assert (H : length [Fin 1] = 1%nat /\ Forall nonneg [Fin 1] /\
              vsum [Fin 1] = Fin 1).
  { split; [reflexivity |]. split.
    - constructor; [| constructor]. exists 1. split; [reflexivity | lra].
    - simpl. f_equal. lra. }
  constructor; [exact H |]. constructor; [exact H | constructor].
Qed.

(** [m_step_weights_distribution] on the small model. *)
Lemma m_step_weights_distribution_witness :
  exists p s' w,
    m_step toy 1 two_points [[Fin 1]; [Fin 1]] (Some 0%nat) (Some 1%nat)
      (unit_state 100 (Fin (1 / 10000)) 2 unit_heap) = (Ok p, s') /\
    heap toy s' !! p = Some (Arr1 w) /\
    w = vdiv (sum_axis0 1 [[Fin 1]; [Fin 1]]) (of_nat (length two_points)) /\
    length w = 1%nat /\ Forall nonneg w /\ vsum w = Fin 1.
Proof.
  assert (H01 : 0%nat <> 1%nat) by discriminate.
  assert (Hx : two_points <> []) by discriminate.
  exact (m_step_weights_distribution toy 1 two_points [[Fin 1]; [Fin 1]]
           [[Fin 0]] [[[Fin 1]]] 0 1
           (unit_state 100 (Fin (1 / 10000)) 2 unit_heap)
           H01 eq_refl (shape2_one_row 1 [Fin 0] eq_refl) eq_refl eq_refl
           eq_refl Hx unit_rows_stochastic).
Defined.

(** [m_step_means_then_covariances] on the small model. *)
Lemma m_step_means_then_covariances_witness :
  exists s1 s2 mu sigma,
    update_means toy (ncols two_points) two_points [[Fin 1]; [Fin 1]]
      (sum_axis0 1 [[Fin 1]; [Fin 1]]) (Some 0%nat) (seq 0 1)
      (unit_state 100 (Fin (1 / 10000)) 2 unit_heap) = (Ok tt, s1) /\
    heap toy s1 !! 0%nat = Some (Arr2 mu) /\
    heap toy s1 !! 1%nat = Some (Arr3 [[[Fin 1]]]) /\
    update_variances toy (ncols two_points) two_points [[Fin 1]; [Fin 1]]
      (sum_axis0 1 [[Fin 1]; [Fin 1]]) (Some 0%nat) (Some 1%nat) (seq 0 1) s1
      = (Ok tt, s2) /\
    heap toy s2 !! 0%nat = Some (Arr2 mu) /\
    heap toy s2 !! 1%nat = Some (Arr3 sigma) /\
    length mu = 1%nat /\ length sigma = 1%nat /\
    forall k, (k < 1)%nat ->
      mu !! k = Some (weighted_average (ncols two_points) two_points
                        [[Fin 1]; [Fin 1]] k) /\
      sigma !! k = Some (weighted_outer_products (ncols two_points) two_points
                           [[Fin 1]; [Fin 1]] k
                           (weighted_average (ncols two_points) two_points
                              [[Fin 1]; [Fin 1]] k)).
Proof.
  assert (H01 : 0%nat <> 1%nat) by discriminate.
  assert (Hx : Forall (fun xi : vec => length xi = ncols two_points) two_points)
    by (repeat constructor).
  exact (m_step_means_then_covariances toy 1 two_points [[Fin 1]; [Fin 1]]
           [[Fin 0]] [[[Fin 1]]] 0 1
           (unit_state 100 (Fin (1 / 10000)) 2 unit_heap)
           H01 eq_refl (shape2_one_row 1 [Fin 0] eq_refl) eq_refl eq_refl Hx).
Defined.

(** ** [sample] *)

(** An argument that is not an [int], or an [int] that is not positive, is
    refused by the first statement: nothing has been touched and the
    generator has not been seeded. *)
Theorem sample_rejects_bad_argument (np : library) (s : state np) :
  (forall b, sample np (PyBool b) s
             = (Raise (AssertionError "N should be a positive integer"), s)) /\
  (forall f, sample np (PyFloat f) s
             = (Raise (AssertionError "N should be a positive integer"), s)) /\
  (forall t, sample np (PyStr t) s
             = (Raise (AssertionError "N should be a positive integer"), s)) /\
  sample np PyNone s
    = (Raise (AssertionError "N should be a positive integer"), s) /\
  (forall z, (z <= 0)%Z ->
             sample np (PyInt z) s
             = (Raise (AssertionError "N should be a positive integer"), s)).
Proof.
  repeat split; try reflexivity.
  intros z Hz. unfold sample.
  destruct (Z.ltb_spec 0 z) as [H | _]; [lia | reflexivity].
Qed.

(** On a model whose [means] is still [None], a positive [int] passes the
    assertion, the generator is seeded, and the call raises. *)
Theorem sample_before_fit (np : library) (z : Z) (s : state np) :
  means (self np s) = None ->
  (0 < z)%Z ->
  sample np (PyInt z) s
  = (Raise (Exception "Train GMM before sampling"), seeded np s).
Proof.
  intros Hm Hz. unfold sample.
  destruct (Z.ltb_spec 0 z) as [_ | H]; [| lia].
  unfold bind, seed, get_self. cbn [self]. rewrite Hm. reflexivity.
Qed.

(** [sample_before_fit] on the model that holds no parameters. *)
Lemma sample_before_fit_witness :
  sample toy (PyInt 5) unfitted_state
  = (Raise (Exception "Train GMM before sampling"), seeded toy unfitted_state).
Proof.
  apply (sample_before_fit toy 5 unfitted_state); reflexivity.
Defined.

Lemma zeros_shape n D : shape2 n D (zeros n D).
Proof.
  unfold zeros. split; [apply length_replicate |].
  apply Forall_replicate. apply length_replicate.
Qed.

Lemma fill_samples_shape np D k ns :
  forall samples r s s' n,
    fill_samples np D k ns samples s = (Ok r, s') ->
    shape2 n D samples -> shape2 n D r.
Proof.
  induction ns as [| i ns IH]; intros samples r s s' n H Hshape;
    cbn [fill_samples] in H.
  - injection H as <- _. exact Hshape.
  - apply bind_Ok in H as (kn & s1 & _ & H).
    apply bind_Ok in H as (g & s2 & _ & H).
    apply bind_Ok in H as (mv & s3 & _ & H).
    apply bind_Ok in H as (m & s4 & _ & H).
    apply bind_Ok in H as (vv & s5 & _ & H).
    apply bind_Ok in H as (v & s6 & _ & H).
    apply bind_Ok in H as (row & s7 & _ & H).
    destruct (Nat.eqb_spec (length row) D) as [Hrow | _]; [| discriminate].
    eapply IH; [exact H |].
    destruct Hshape as [Hlen Hrows]. split.
    + rewrite length_insert. exact Hlen.
    + apply Forall_insert; assumption.
Qed.

(** When [sample] returns, the model has means, an array of some
    [D] columns, the argument was a positive [int], and the result has
    exactly that many rows, each of [D] entries. *)
Theorem sample_shape (np : library) (z : Z) (s s' : state np)
    (samples : matrix) :
  sample np (PyInt z) s = (Ok samples, s') ->
  (0 < z)%Z /\
  exists lm mv,
    means (self np s) = Some lm /\
    heap np s !! lm = Some (Arr2 mv) /\
    shape2 (Z.to_nat z) (ncols mv) samples.
Proof.
  unfold sample. intros H.
  destruct (Z.ltb_spec 0 z) as [Hz | _]; [| discriminate].
  split; [exact Hz |].
  apply bind_Ok in H as (u & s1 & Hseed & H). injection Hseed as _ <-.
  apply bind_Ok in H as (g & s2 & Hg & H). injection Hg as <- <-.
  cbn [self] in H.
  destruct (means (self np s)) as [lm |] eqn:Hm; [| discriminate].
  apply bind_Ok in H as (pv & s2 & Hpv & H).
  assert (s2 = {| self := self np s; heap := heap np s;
                  gen := random_seed np 42 |}) as ->.
  { destruct (pi_k (self np s)); [| discriminate].
    eapply reads_load1; eauto. }
  apply bind_Ok in H as (mv & s3 & Hmv & H).
  apply load2_Ok in Hmv as (-> & lm' & Hlm' & Hmv).
  injection Hlm' as <-. cbn [heap] in Hmv.
  apply bind_Ok in H as (k & s4 & _ & H).
  exists lm, mv. split; [reflexivity |]. split; [exact Hmv |].
  eapply fill_samples_shape; [exact H | apply zeros_shape].
Qed.

(** [sample_shape] on two samples of the fitted small model. *)
Lemma sample_shape_witness :
  (0 < 2)%Z /\
  exists lm mv,
    means (self toy (unit_state 100 (Fin (1 / 10000)) 3
                       (unit_heap ++ [Arr1 [Fin 1]]))) = Some lm /\
    heap toy (unit_state 100 (Fin (1 / 10000)) 3
                (unit_heap ++ [Arr1 [Fin 1]])) !! lm = Some (Arr2 mv) /\
    shape2 (Z.to_nat 2) (ncols mv) [[Fin 0]; [Fin 0]].
Proof.
  exact (sample_shape toy 2
           (unit_state 100 (Fin (1 / 10000)) 3 (unit_heap ++ [Arr1 [Fin 1]]))
           (unit_state 100 (Fin (1 / 10000)) 3 (unit_heap ++ [Arr1 [Fin 1]]))
           [[Fin 0]; [Fin 0]] eq_refl).
Defined.

(** ** The seed and the pass at which [fit] returns *)

(** Both methods seed the generator before they draw: the state of the
    generator at the call has no influence on what they return, on the
    model or on the arrays; after [fit] on a two-dimensional array and
    after [sample] on a positive [int] the generator too is in the same
    state. *)
Theorem entry_generator_state_irrelevant (np : library) (s : state np)
    (g : rng np) :
  (forall x, fst (fit np x (with_gen np s g)) = fst (fit np x s)) /\
  (forall xm, fit np (Arr2 xm) (with_gen np s g) = fit np (Arr2 xm) s) /\
  (forall N, fst (sample np N (with_gen np s g)) = fst (sample np N s)) /\
  (forall z, (0 < z)%Z ->
             sample np (PyInt z) (with_gen np s g) = sample np (PyInt z) s).
Proof.
  assert (Hfit : forall xm,
             fit np (Arr2 xm) (with_gen np s g) = fit np (Arr2 xm) s)
    by reflexivity.
  assert (Hsample : forall z, (0 < z)%Z ->
             sample np (PyInt z) (with_gen np s g) = sample np (PyInt z) s).
  { intros z Hz. unfold sample.
    destruct (Z.ltb_spec 0 z) as [_ | H]; [reflexivity | lia]. }
  split; [| split; [exact Hfit | split; [| exact Hsample]]].
  - intros [v | xm | t]; [reflexivity | rewrite Hfit; reflexivity | reflexivity].
  - intros [z | b | f | t |]; try reflexivity.
    unfold sample. destruct (Z.ltb 0 z); reflexivity.
Qed.

Lemma em_loop_break np K x m v n :
  forall j l rp s r i s',
    em_loop np K x m v (seq j n) l rp s = (Ok (r, Some i), s') ->
    exists c l0 rp0 s0 l_new,
      i = Z.of_nat (j + c) /\ (c < n)%nat /\
      unconverged_passes np K x m v c l rp s l0 rp0 s0 /\
      em_iteration np K x m v rp0 s0 = (Ok (r, l_new), s') /\
      converged l0 l_new (e (self np s')) = true.
Proof.
  induction n as [| n IH]; intros j l rp s r i s' H; cbn [seq em_loop] in H.
  - discriminate.
  - apply bind_Ok in H as ([p l1] & s1 & Hit & H).
    apply bind_Ok in H as (g & s2 & Hg & H). injection Hg as <- <-.
    cbn [fst snd] in H.
    destruct (converged l l1 (e (self np s1))) eqn:Hc.
    + injection H as <- <- <-.
      exists 0%nat, l, rp, s, l1. rewrite Nat.add_0_r.
      split; [reflexivity |]. split; [lia |].
      split; [constructor |]. split; [exact Hit | exact Hc].
    + apply IH in H as (c & l0 & rp0 & s0 & l_new & Hi & Hlt & Hp & Hlast & Hconv).
      exists (S c), l0, rp0, s0, l_new.
      split; [rewrite Hi; f_equal; lia |]. split; [lia |].
      split; [econstructor; eauto |]. split; [exact Hlast | exact Hconv].
Qed.

Lemma fit_Ok_passes (np : library) (x : matrix) (n : Z)
    (s s' : state np) :
  fit np (Arr2 x) s = (Ok n, s') ->
  exists K s1 l c l0 rp0 s0 p l_new s2,
    initialise np x (seeded np s) = (Ok K, s1) /\
    compute_log_likelihood np (Arr2 x) None None None s1 = (Ok l, s1) /\
    n = Z.of_nat c /\ (0 <= n < max_iter (self np s))%Z /\
    unconverged_passes np K x (means (self np s1)) (variances (self np s1))
      c l (pi_k (self np s1)) s1 l0 rp0 s0 /\
    em_iteration np K x (means (self np s1)) (variances (self np s1)) rp0 s0
      = (Ok (p, l_new), s2) /\
    converged l0 l_new (e (self np s)) = true /\
    s' = with_parameters np s2 (means (self np s1)) (variances (self np s1)) p.
Proof.
  unfold fit. cbn [assert_2d]. intros H.
  unfold bind at 1, ret at 1 in H.
  apply bind_Ok in H as (u & s0 & Hseed & H). injection Hseed as _ <-.
  apply bind_Ok in H as (K & s1 & Hinit & H).
  apply bind_Ok in H as (l & s1' & Hl & H).
  pose proof (reads_compute_log_likelihood np _ _ _ _ _ _ _ Hl) as ->.
  apply bind_Ok in H as (g & s1' & Hg & H). injection Hg as <- <-.
  apply bind_Ok in H as ([r on] & s2 & Hloop & H).
  apply bind_Ok in H as (u2 & s3 & Hset & H).
  cbn [fst snd] in *. injection Hset as _ <-.
  destruct on as [i |]; [| discriminate]. injection H as <- <-.
  pose proof (keeps_config_initialise np _ _ _ _ Hinit) as (_ & He & Hmi & _).
  cbn [self] in He, Hmi.
  pose proof (keeps_self_em_loop np _ _ _ _ _ _ _ _ _ _ Hloop) as Hs.
  apply em_loop_break in Hloop
    as (c & l0 & rp0 & sa & l_new & Hi & Hlt & Hp & Hlast & Hconv).
  exists K, s1, l, c, l0, rp0, sa, r, l_new, s2.
  split; [exact Hinit |]. split; [exact Hl |].
  split; [exact Hi |].
  split; [rewrite Hi, Hmi; lia |].
  split; [exact Hp |]. split; [exact Hlast |].
  split; [| reflexivity].
  rewrite He, <- Hs. exact Hconv.
Qed.

(** When [fit] returns [n], the body of the loop ran [n + 1] times: the
    first [n] passes did not meet the tolerance, pass number [n], counted
    from zero, did, and nothing ran after it but the three assignments;
    [n] is below [max_iter]. *)
Theorem fit_returns_pass_index (np : library) (x : matrix) (n : Z)
    (s s' : state np) :
  fit np (Arr2 x) s = (Ok n, s') ->
  exists K s1 l c l0 rp0 s0 p l_new s2,
    initialise np x (seeded np s) = (Ok K, s1) /\
    compute_log_likelihood np (Arr2 x) None None None s1 = (Ok l, s1) /\
    n = Z.of_nat c /\ (0 <= n < max_iter (self np s))%Z /\
    unconverged_passes np K x (means (self np s1)) (variances (self np s1))
      c l (pi_k (self np s1)) s1 l0 rp0 s0 /\
    em_iteration np K x (means (self np s1)) (variances (self np s1)) rp0 s0
      = (Ok (p, l_new), s2) /\
    converged l0 l_new (e (self np s)) = true /\
    s' = with_parameters np s2 (means (self np s1)) (variances (self np s1)) p.
Proof. exact (fit_Ok_passes np x n s s'). Qed.

(** [fit_returns_pass_index] on the run that converges in its first
    pass. *)
Lemma fit_returns_pass_index_witness :
  exists K s1 l c l0 rp0 s0 p l_new s2,
    initialise toy two_points (seeded toy (fresh_state 100 (Fin (1 / 10000))))
      = (Ok K, s1) /\
    compute_log_likelihood toy (Arr2 two_points) None None None s1
      = (Ok l, s1) /\
    0%Z = Z.of_nat c /\
    (0 <= 0 < max_iter (self toy (fresh_state 100 (Fin (1 / 10000)))))%Z /\
    unconverged_passes toy K two_points (means (self toy s1))
      (variances (self toy s1)) c l (pi_k (self toy s1)) s1 l0 rp0 s0 /\
    em_iteration toy K two_points (means (self toy s1))
      (variances (self toy s1)) rp0 s0 = (Ok (p, l_new), s2) /\
    converged l0 l_new (e (self toy (fresh_state 100 (Fin (1 / 10000)))))
      = true /\
    unit_state 100 (Fin (1 / 10000)) 3 (unit_heap ++ [Arr1 [Fin 1]])
    = with_parameters toy s2 (means (self toy s1)) (variances (self toy s1)) p.
Proof.
  assert (Hmi : (0 < 100)%Z) by reflexivity.
  assert (Htol : 0 < 1 / 10000) by lra.
  exact (fit_returns_pass_index toy two_points 0
           (fresh_state 100 (Fin (1 / 10000)))
           (unit_state 100 (Fin (1 / 10000)) 3 (unit_heap ++ [Arr1 [Fin 1]]))
           (fit_unit 100 (1 / 10000) Hmi Htol)).
Defined.

(** ** The passes of the loop of [fit] *)

(** Passes that do not meet the tolerance go on to the next pass. *)
Lemma em_loop_unconverged_passes np K x m v c l rp s l0 rp0 s0 :
  unconverged_passes np K x m v c l rp s l0 rp0 s0 ->
  forall j rest,
    em_loop np K x m v (seq j c ++ rest) l rp s
    = em_loop np K x m v rest l0 rp0 s0.
Proof.
  induction 1 as [| n l rp s p l1 s1 l' rp' s' Hit Hc _ IH]; intros j rest.
  - reflexivity.
  - cbn [seq app em_loop].
    rewrite (bind_run np _ _ _ _ _ Hit).
    unfold bind at 1, get_self at 1. cbn [fst snd]. rewrite Hc.
    apply IH.
Qed.

Lemma em_loop_exhausted np K x m v c l rp s l0 rp0 s0 :
  unconverged_passes np K x m v c l rp s l0 rp0 s0 ->
  em_loop np K x m v (seq 0 c) l rp s = (Ok (rp0, None), s0).
Proof.
  intros H. rewrite <- (app_nil_r (seq 0 c)).
  rewrite (em_loop_unconverged_passes np K x m v c l rp s l0 rp0 s0 H).
  reflexivity.
Qed.

Lemma em_loop_converges np K x m v c n l rp s l0 rp0 s0 p l_new s2 :
  (c < n)%nat ->
  unconverged_passes np K x m v c l rp s l0 rp0 s0 ->
  em_iteration np K x m v rp0 s0 = (Ok (p, l_new), s2) ->
  converged l0 l_new (e (self np s2)) = true ->
  em_loop np K x m v (seq 0 n) l rp s = (Ok (p, Some (Z.of_nat c)), s2).
Proof.
  intros Hlt Hp Hit Hc.
  rewrite (seq_split c n Hlt).
  rewrite (em_loop_unconverged_passes np K x m v c l rp s l0 rp0 s0 Hp).
  cbn [em_loop]. rewrite (bind_run np _ _ _ _ _ Hit).
  unfold bind at 1, get_self at 1. cbn [fst snd]. rewrite Hc. reflexivity.
Qed.

Lemma unconverged_passes_self np K x m v c l rp s l0 rp0 s0 :
  unconverged_passes np K x m v c l rp s l0 rp0 s0 ->
  self np s0 = self np s.
Proof.
  induction 1 as [| n l rp s p l1 s1 l' rp' s' Hit _ _ IH]; [reflexivity |].
  rewrite IH. eapply keeps_self_em_iteration; eauto.
Qed.

Lemma not_in_pair (lp lm lv : nat) : lp <> lm -> lp <> lv -> lp ∉ [lm; lv].
Proof.
  intros Hm Hv Hin. inversion Hin as [| ? ? ? Hin1]; subst; [contradiction |].
  inversion Hin1 as [| ? ? ? Hin2]; subst; [contradiction |].
  inversion Hin2.
Qed.

(** Passes of the loop leave alone every array but the two that [means]
    and [variances] refer to. *)
Lemma unconverged_passes_frame np K x lm lv lp c l rp s l0 rp0 s0 :
  lp <> lm -> lp <> lv ->
  unconverged_passes np K x (Some lm) (Some lv) c l rp s l0 rp0 s0 ->
  (lp < length (heap np s))%nat ->
  (length (heap np s) <= length (heap np s0))%nat /\
  heap np s0 !! lp = heap np s !! lp.
Proof.
  intros Hm Hv.
  induction 1 as [| n l rp s p l1 s1 l' rp' s' Hit _ _ IH]; intros Hlt.
  - auto.
  - destruct (writes_only_em_iteration np K x lm lv rp _ _ _ Hit)
      as [Hlen Hframe].
    destruct IH as [Hlen' Hsame]; [lia |].
    split; [lia |]. rewrite Hsame. apply Hframe; [| exact Hlt].
    apply not_in_pair; assumption.
Qed.

(** [fit] on a two-dimensional array, once the initialisation, the first
    log-likelihood and the loop have run. *)
Lemma fit_run np (x : matrix) (s s1 s2 : state np) K l r :
  initialise np x (seeded np s) = (Ok K, s1) ->
  compute_log_likelihood np (Arr2 x) None None None s1 = (Ok l, s1) ->
  em_loop np K x (means (self np s1)) (variances (self np s1))
    (seq 0 (Z.to_nat (max_iter (self np s1)))) l (pi_k (self np s1)) s1
    = (Ok r, s2) ->
  fit np (Arr2 x) s
  = (match snd r with
     | Some n => Ok n
     | None => Raise (UnboundLocalError "number_of_updates")
     end,
     with_parameters np s2 (means (self np s1)) (variances (self np s1))
       (fst r)).
Proof.
  intros Hinit Hl Hloop.
  unfold fit. cbn [assert_2d]. unfold bind at 1, ret at 1.
  rewrite (bind_run np (seed np 42) _ s tt (seeded np s) eq_refl).
  rewrite (bind_run np _ _ _ _ _ Hinit).
  rewrite (bind_run np _ _ _ _ _ Hl).
  unfold bind at 1, get_self at 1.
  rewrite (bind_run np _ _ _ _ _ Hloop).
  destruct r as [p [n |]]; reflexivity.
Qed.

(** C1, as the code has it: when the loop has run its [max_iter] passes
    and none has met the tolerance, [fit] does not return [max_iter].  The
    three attributes are assigned and [return number_of_updates] raises
    [UnboundLocalError]: the name is bound only before [break]. *)
Theorem fit_budget_exhausted (np : library) (x : matrix) (s s1 s2 : state np)
    (K : nat) (l l' : float64) (rp' : option nat) :
  initialise np x (seeded np s) = (Ok K, s1) ->
  compute_log_likelihood np (Arr2 x) None None None s1 = (Ok l, s1) ->
  unconverged_passes np K x (means (self np s1)) (variances (self np s1))
    (Z.to_nat (max_iter (self np s1))) l (pi_k (self np s1)) s1 l' rp' s2 ->
  fit np (Arr2 x) s
  = (Raise (UnboundLocalError "number_of_updates"),
     with_parameters np s2 (means (self np s1)) (variances (self np s1)) rp')
  /\ forall n s', fit np (Arr2 x) s <> (Ok n, s').
Proof.
  intros Hinit Hl Hp.
  assert (H : fit np (Arr2 x) s
              = (Raise (UnboundLocalError "number_of_updates"),
                 with_parameters np s2 (means (self np s1))
                   (variances (self np s1)) rp')).
  { rewrite (fit_run np x s s1 s2 K l (rp', None) Hinit Hl
               (em_loop_exhausted np _ _ _ _ _ _ _ _ _ _ _ Hp)).
    reflexivity. }
  split; [exact H |]. intros n s'. rewrite H. discriminate.
Qed.

(** One pass of the small model with the tolerance [0.0]. *)
Lemma unit_pass_unconverged mi :
  unconverged_passes toy 1 two_points (Some 0%nat) (Some 1%nat) 1
    (Fin unit_log_likelihood) (Some 2%nat) (unit_state mi (Fin 0) 2 unit_heap)
    (Fin unit_log_likelihood) (Some 3%nat)
    (unit_state mi (Fin 0) 2 (unit_heap ++ [Arr1 [Fin 1]])).
Proof.
  eapply passes_more.
  - exact (em_iteration_unit mi (Fin 0) 2 2 unit_heap unit_arrays_heap
             unit_arrays_heap).
  - apply converged_never.
  - apply passes_none.
Qed.

(** [fit_budget_exhausted] on [max_iter = 1] and the tolerance [0.0]. *)
Lemma fit_budget_exhausted_witness :
  fit toy (Arr2 two_points) (fresh_state 1 (Fin 0))
  = (Raise (UnboundLocalError "number_of_updates"),
     with_parameters toy
       (unit_state 1 (Fin 0) 2 (unit_heap ++ [Arr1 [Fin 1]]))
       (Some 0%nat) (Some 1%nat) (Some 3%nat))
  /\ forall n s', fit toy (Arr2 two_points) (fresh_state 1 (Fin 0))
                  <> (Ok n, s').
Proof.
  exact (fit_budget_exhausted toy two_points (fresh_state 1 (Fin 0))
           (unit_state 1 (Fin 0) 2 unit_heap)
           (unit_state 1 (Fin 0) 2 (unit_heap ++ [Arr1 [Fin 1]]))
           1 (Fin unit_log_likelihood) (Fin unit_log_likelihood) (Some 3%nat)
           (initialise_unit 1 (Fin 0))
           (compute_log_likelihood_unit 1 (Fin 0) 2 unit_heap unit_arrays_heap)
           (unit_pass_unconverged 1)).
Defined.

(** C3: [fit] returns [n] exactly when the pass whose loop counter is [n],
    counted from zero, is the first to meet the tolerance: [n] passes that
    do not meet it are followed by one whose log-likelihood differs from
    the baseline by less than [self.e], and the call returns [n] after the
    three assignments; [n] is below [max_iter]. *)
Theorem fit_returns_loop_counter (np : library) (x : matrix) (n : Z)
    (s s' : state np) :
  fit np (Arr2 x) s = (Ok n, s') <->
  exists K s1 l c l0 rp0 s0 p l_new s2,
    initialise np x (seeded np s) = (Ok K, s1) /\
    compute_log_likelihood np (Arr2 x) None None None s1 = (Ok l, s1) /\
    n = Z.of_nat c /\ (0 <= n < max_iter (self np s))%Z /\
    unconverged_passes np K x (means (self np s1)) (variances (self np s1))
      c l (pi_k (self np s1)) s1 l0 rp0 s0 /\
    em_iteration np K x (means (self np s1)) (variances (self np s1)) rp0 s0
      = (Ok (p, l_new), s2) /\
    flt (fabs (fsub l0 l_new)) (e (self np s)) = true /\
    s' = with_parameters np s2 (means (self np s1)) (variances (self np s1)) p.
Proof.
  split.
  - intros H. apply fit_Ok_passes in H. exact H.
  - intros (K & s1 & l & c & l0 & rp0 & s0 & p & l_new & s2 &
            Hinit & Hl & -> & Hn & Hp & Hit & Hc & ->).
    pose proof (keeps_config_initialise np _ _ _ _ Hinit) as (_ & He & Hmi & _).
    cbn [self] in He, Hmi.
    assert (Hs2 : self np s2 = self np s1).
    { rewrite (keeps_self_em_iteration np _ _ _ _ _ _ _ _ Hit).
      eapply unconverged_passes_self; eauto. }
    assert (Hloop : em_loop np K x (means (self np s1)) (variances (self np s1))
                      (seq 0 (Z.to_nat (max_iter (self np s1)))) l
                      (pi_k (self np s1)) s1
                    = (Ok (p, Some (Z.of_nat c)), s2)).
    { apply (em_loop_converges np K x _ _ c _ l _ s1 l0 rp0 s0 p l_new s2);
        try assumption.
      - change (max_iter (self np (seeded np s))) with (max_iter (self np s))
          in Hmi.
        rewrite <- Hmi. lia.
      - change (e (self np (seeded np s))) with (e (self np s)) in He.
        unfold converged. rewrite Hs2, <- He. exact Hc. }
    rewrite (fit_run np x s s1 s2 K l _ Hinit Hl Hloop). reflexivity.
Qed.

(** C2, as the code has it: in every pass, after any number of passes that
    did not meet the tolerance, the new log-likelihood is computed from
    the means and covariances just updated in place and from the array
    [self.pi_k] refers to, which is still the one the loop started with;
    the weights of the M-step are another, new array, which plays no
    part. *)
Theorem new_log_likelihood_keeps_first_weights (np : library) (K : nat)
    (x : matrix) (lm lv lp : nat) (w0 : vec) (c : nat) (l l0 : float64)
    (rp rp0 p : option nat) (l_new : float64) (s s0 s2 : state np) :
  means (self np s) = Some lm ->
  variances (self np s) = Some lv ->
  pi_k (self np s) = Some lp ->
  lp <> lm -> lp <> lv ->
  heap np s !! lp = Some (Arr1 w0) ->
  n_cluster (self np s) <> 0%nat -> x <> [] ->
  unconverged_passes np K x (Some lm) (Some lv) c l rp s l0 rp0 s0 ->
  em_iteration np K x (Some lm) (Some lv) rp0 s0 = (Ok (p, l_new), s2) ->
  exists gamma mv vv pnew,
    e_step np K x (Some lm) (Some lv) rp0 s0 = (Ok gamma, s0) /\
    heap np s2 !! lm = Some (Arr2 mv) /\
    heap np s2 !! lv = Some (Arr3 vv) /\
    p = Some pnew /\ pnew <> lp /\
    heap np s2 !! pnew = Some (Arr1 (new_weights K x gamma)) /\
    pi_k (self np s2) = Some lp /\
    heap np s2 !! lp = Some (Arr1 w0) /\
    log_likelihood np (n_cluster (self np s)) x mv vv w0 = Ok l_new.
Proof.
  intros Hm Hv Hp Hnm Hnv Hw HK Hx Hpasses Hit.
  pose proof (unconverged_passes_self np _ _ _ _ _ _ _ _ _ _ _ Hpasses) as Hs.
  destruct (unconverged_passes_frame np K x lm lv lp c l rp s l0 rp0 s0
              Hnm Hnv Hpasses) as [_ Hsame].
  { eapply lookup_lt_Some; eauto. }
  rewrite <- Hs in Hm, Hv, Hp, HK. rewrite <- Hsame in Hw.
  destruct (em_iteration_inv np K x lm lv lp rp0 p w0 l_new s0 s2
              Hm Hv Hp Hnm Hnv Hw HK Hx Hit)
    as (gamma & mv & vv & pnew & H1 & H2 & H3 & H4 & H5 & H6 & H7 & H8).
  exists gamma, mv, vv, pnew.
  rewrite Hs in H8.
  rewrite (keeps_self_em_iteration np _ _ _ _ _ _ _ _ Hit).
  auto 12.
Qed.

(** [new_log_likelihood_keeps_first_weights] on the first pass of the
    small model. *)
Lemma new_log_likelihood_keeps_first_weights_witness :
  exists gamma mv vv pnew,
    e_step toy 1 two_points (Some 0%nat) (Some 1%nat) (Some 2%nat)
      (unit_state 100 (Fin (1 / 10000)) 2 unit_heap)
    = (Ok gamma, unit_state 100 (Fin (1 / 10000)) 2 unit_heap) /\
    heap toy (unit_state 100 (Fin (1 / 10000)) 2
                (unit_heap ++ [Arr1 [Fin 1]])) !! 0%nat = Some (Arr2 mv) /\
    heap toy (unit_state 100 (Fin (1 / 10000)) 2
                (unit_heap ++ [Arr1 [Fin 1]])) !! 1%nat = Some (Arr3 vv) /\
    Some (length unit_heap) = Some pnew /\ pnew <> 2%nat /\
    heap toy (unit_state 100 (Fin (1 / 10000)) 2
                (unit_heap ++ [Arr1 [Fin 1]])) !! pnew
    = Some (Arr1 (new_weights 1 two_points gamma)) /\
    pi_k (self toy (unit_state 100 (Fin (1 / 10000)) 2
                      (unit_heap ++ [Arr1 [Fin 1]]))) = Some 2%nat /\
    heap toy (unit_state 100 (Fin (1 / 10000)) 2
                (unit_heap ++ [Arr1 [Fin 1]])) !! 2%nat = Some (Arr1 [Fin 1]) /\
    log_likelihood toy
      (n_cluster (self toy (unit_state 100 (Fin (1 / 10000)) 2 unit_heap)))
      two_points mv vv [Fin 1]
    = Ok (Fin unit_log_likelihood).
Proof.
  assert (H20 : 2%nat <> 0%nat) by discriminate.
  assert (H21 : 2%nat <> 1%nat) by discriminate.
  assert (H10 : 1%nat <> 0%nat) by discriminate.
  exact (new_log_likelihood_keeps_first_weights toy 1 two_points 0 1 2
           [Fin 1] 0 (Fin unit_log_likelihood) (Fin unit_log_likelihood)
           (Some 2%nat) (Some 2%nat) (Some (length unit_heap))
           (Fin unit_log_likelihood)
           (unit_state 100 (Fin (1 / 10000)) 2 unit_heap)
           (unit_state 100 (Fin (1 / 10000)) 2 unit_heap)
           (unit_state 100 (Fin (1 / 10000)) 2 (unit_heap ++ [Arr1 [Fin 1]]))
           eq_refl eq_refl eq_refl H20 H21 eq_refl H10 two_points_not_empty
           (passes_none toy 1 two_points (Some 0%nat) (Some 1%nat)
              (Fin unit_log_likelihood) (Some 2%nat)
              (unit_state 100 (Fin (1 / 10000)) 2 unit_heap))
           (em_iteration_unit 100 (Fin (1 / 10000)) 2 2 unit_heap
              unit_arrays_heap unit_arrays_heap)).
Defined.

(** ** The weights of a fitted model *)





(** ** The two loops of the M-step *)

(** C8: the M-step runs its two loops one after the other, on
    responsibilities of [N] rows and [K] columns.  When the first loop
    ends, all [K] rows of [means] hold the new means, the
    responsibility-weighted sums of the data divided by [N_k], and
    [variances] is still untouched; the M-step then returns, and
    covariance [k] is the weighted sum of the outer products of the
    residuals against the new mean [k], divided by [N_k]. *)
Theorem m_step_means_before_covariances (np : library) (K : nat)
    (x gamma mv : matrix) (vv : list matrix) (lm lv : nat) (s : state np) :
  lm <> lv ->
  heap np s !! lm = Some (Arr2 mv) ->
  shape2 K (ncols x) mv ->
  heap np s !! lv = Some (Arr3 vv) ->
  length vv = K ->
  Forall (fun xi => length xi = ncols x) x ->
  shape2 (length x) K gamma ->
  exists s1 mu sigma p s',
    update_means np (ncols x) x gamma (sum_axis0 K gamma) (Some lm)
      (seq 0 K) s = (Ok tt, s1) /\
    heap np s1 !! lm = Some (Arr2 mu) /\
    heap np s1 !! lv = Some (Arr3 vv) /\
    m_step np K x gamma (Some lm) (Some lv) s = (Ok p, s') /\
    heap np s' !! lm = Some (Arr2 mu) /\
    heap np s' !! lv = Some (Arr3 sigma) /\
    length mu = K /\ length sigma = K /\
    forall k, (k < K)%nat ->
      mu !! k = Some (weighted_average (ncols x) x gamma k) /\
      sigma !! k = Some (weighted_outer_products (ncols x) x gamma k
                           (weighted_average (ncols x) x gamma k)).
Proof.
  intros Hne Hm Hshape Hv Hvlen Hx _.
  destruct (m_step_stages np K x gamma mv vv lm lv s Hne Hm Hshape Hv Hvlen Hx)
    as (s1 & s2 & mu & sigma & Hmeans & Hm1 & Hv1 & Hvars & Hm2 & Hv2 &
        Hlmu & Hlsigma & Hrows).
  exists s1, mu, sigma. eexists _, _.
  split; [exact Hmeans |]. split; [exact Hm1 |]. split; [exact Hv1 |].
  split.
  { unfold m_step.
    rewrite (bind_run np _ _ _ _ _ Hmeans), (bind_run np _ _ _ _ _ Hvars).
    reflexivity. }
  cbn [heap with_heap].
  split; [apply lookup_app_l_Some; exact Hm2 |].
  split; [apply lookup_app_l_Some; exact Hv2 |].
  auto.
Qed.

(** [m_step_means_before_covariances] on the small model. *)
Lemma m_step_means_before_covariances_witness :
  exists s1 mu sigma p s',
    update_means toy (ncols two_points) two_points [[Fin 1]; [Fin 1]]
      (sum_axis0 1 [[Fin 1]; [Fin 1]]) (Some 0%nat) (seq 0 1)
      (unit_state 100 (Fin (1 / 10000)) 2 unit_heap) = (Ok tt, s1) /\
    heap toy s1 !! 0%nat = Some (Arr2 mu) /\
    heap toy s1 !! 1%nat = Some (Arr3 [[[Fin 1]]]) /\
    m_step toy 1 two_points [[Fin 1]; [Fin 1]] (Some 0%nat) (Some 1%nat)
      (unit_state 100 (Fin (1 / 10000)) 2 unit_heap) = (Ok p, s') /\
    heap toy s' !! 0%nat = Some (Arr2 mu) /\
    heap toy s' !! 1%nat = Some (Arr3 sigma) /\
    length mu = 1%nat /\ length sigma = 1%nat /\
    forall k, (k < 1)%nat ->
      mu !! k = Some (weighted_average (ncols two_points) two_points
                        [[Fin 1]; [Fin 1]] k) /\
      sigma !! k = Some (weighted_outer_products (ncols two_points) two_points
                           [[Fin 1]; [Fin 1]] k
                           (weighted_average (ncols two_points) two_points
                              [[Fin 1]; [Fin 1]] k)).
Proof.
  assert (H01 : 0%nat <> 1%nat) by discriminate.
  assert (Hx : Forall (fun xi : vec => length xi = ncols two_points) two_points)
    by (repeat constructor).
  assert (Hg : shape2 (length two_points) 1 [[Fin 1]; [Fin 1]]).
  { split; [reflexivity |]. repeat constructor. }
  exact (m_step_means_before_covariances toy 1 two_points [[Fin 1]; [Fin 1]]
           [[Fin 0]] [[[Fin 1]]] 0 1
           (unit_state 100 (Fin (1 / 10000)) 2 unit_heap)
           H01 eq_refl (shape2_one_row 1 [Fin 0] eq_refl) eq_refl eq_refl Hx
           Hg).
Defined.

(** ** [sample] on a fitted model *)

Section Sampling.

Context (np : library).
Context (s : state np) (lm lv : nat) (mv : matrix) (vv : list matrix).
Context (D : nat) (k : list nat).
Hypothesis Hmeans : means (self np s) = Some lm.
Hypothesis Hvariances : variances (self np s) = Some lv.
Hypothesis Hmv : heap np s !! lm = Some (Arr2 mv).
Hypothesis Hvv : heap np s !! lv = Some (Arr3 vv).
Hypothesis Hshape : Forall (fun m => length m = D) mv.
Hypothesis Hlen : length vv = length mv.
Hypothesis Hk : Forall (fun kn => (kn < length mv)%nat) k.
Hypothesis Hdraw :
  forall m v g, m ∈ mv ->
    exists row g',
      random_multivariate_normal np m v g = (Ok row, g') /\
      length row = length m.

(** The loop that fills [samples] runs to its end. *)
Lemma fill_samples_returns ns :
  Forall (fun n => (n < length k)%nat) ns ->
  forall samples st,
    self np st = self np s -> heap np st = heap np s ->
    exists r st',
      fill_samples np D k ns samples st = (Ok r, st') /\
      self np st' = self np s /\ heap np st' = heap np s.
Proof.
  induction 1 as [| n ns Hn _ IH]; intros samples st Hself Hheap.
  - exists samples, st. auto.
  - cbn [fill_samples].
    destruct (lookup_lt_is_Some_2 k n Hn) as [kn Hkn].
    assert (Hlt : (kn < length mv)%nat).
    { rewrite Forall_forall in Hk. apply Hk.
      eapply list_elem_of_lookup_2; eauto. }
    destruct (lookup_lt_is_Some_2 mv kn Hlt) as [m Hm].
    destruct (lookup_lt_is_Some_2 vv kn) as [v Hv]; [lia |].
    destruct (Hdraw m v (gen np st)) as (row & g' & Hrow & Hlrow).
    { eapply list_elem_of_lookup_2; eauto. }
    assert (HD : length row = D).
    { rewrite Hlrow. rewrite Forall_forall in Hshape. apply Hshape.
      eapply list_elem_of_lookup_2; eauto. }
    unfold bind at 1, lift at 1, index at 1. rewrite Hkn.
    unfold bind at 1, get_self at 1.
    rewrite Hself, Hmeans, Hvariances.
    rewrite (bind_run np _ _ _ _ _ (load2_run np lm st mv
               ltac:(rewrite Hheap; exact Hmv))).
    unfold bind at 1, lift at 1, index at 1. rewrite Hm.
    rewrite (bind_run np _ _ _ _ _ (load3_run np lv st vv
               ltac:(rewrite Hheap; exact Hvv))).
    unfold bind at 1, lift at 1, index at 1. rewrite Hv.
    unfold bind at 1. rewrite Hrow.
    apply Nat.eqb_eq in HD. rewrite HD.
    apply IH; [exact Hself | exact Hheap].
Qed.

End Sampling.

(** C9: the three behaviours of [sample].  On a fitted model, whose
    [means] are [K] rows of [D] entries with [K] covariances and [K]
    weights, and with draws of [numpy.random] that succeed (indices below
    [K], vectors as long as the mean), [sample(N)] for a positive [int]
    returns [N] rows of [D] entries and leaves the model alone.  An
    argument that is not a positive [int] is refused before anything else
    happens, and on a model whose [means] is [None] a positive [int] ends
    in the exception of line 147. *)
Theorem sample_returns_rows (np : library) (z : Z) (s : state np)
    (lm lv lp : nat) (mv : matrix) (vv : list matrix) (pv : vec) :
  (0 < z)%Z ->
  means (self np s) = Some lm ->
  variances (self np s) = Some lv ->
  pi_k (self np s) = Some lp ->
  heap np s !! lm = Some (Arr2 mv) ->
  heap np s !! lv = Some (Arr3 vv) ->
  heap np s !! lp = Some (Arr1 pv) ->
  shape2 (length pv) (ncols mv) mv ->
  length vv = length pv ->
  (forall g, exists k g',
     random_choice np (length pv) (Z.to_nat z) pv g = (Ok k, g') /\
     length k = Z.to_nat z /\
     Forall (fun kn => (kn < length pv)%nat) k) ->
  (forall m v g, m ∈ mv ->
     exists row g',
       random_multivariate_normal np m v g = (Ok row, g') /\
       length row = length m) ->
  (exists samples s',
     sample np (PyInt z) s = (Ok samples, s') /\
     shape2 (Z.to_nat z) (ncols mv) samples /\
     self np s' = self np s /\ heap np s' = heap np s) /\
  (forall N, (forall z', N = PyInt z' -> (z' <= 0)%Z) ->
     sample np N s
     = (Raise (AssertionError "N should be a positive integer"), s)) /\
  (forall s0, means (self np s0) = None ->
     sample np (PyInt z) s0
     = (Raise (Exception "Train GMM before sampling"), seeded np s0)).
Proof.
  intros Hz Hm Hv Hp Hmv Hvv Hpv [Hrows Hshape] Hlen Hchoice Hdraw.
  split; [| split].
  - destruct (Hchoice (random_seed np 42)) as (k & g' & Hk & Hlk & Hks).
    set (s1 := {| self := self np s; heap := heap np s; gen := g' |}).
    destruct (fill_samples_returns np s lm lv mv vv (ncols mv) k Hm Hv Hmv
                Hvv Hshape
                ltac:(congruence)
                ltac:(rewrite Hrows; exact Hks) Hdraw
                (seq 0 (Z.to_nat z))
                ltac:(apply Forall_forall; intros n Hn;
                      apply elem_of_seq in Hn; lia)
                (zeros (Z.to_nat z) (ncols mv)) s1 eq_refl eq_refl)
      as (r & s' & Hfill & Hself & Hheap).
    exists r, s'.
    assert (Hrun : sample np (PyInt z) s = (Ok r, s')).
    { unfold sample.
      destruct (Z.ltb_spec 0 z) as [_ | Hneg]; [| lia].
      unfold bind at 1, seed at 1.
      unfold bind at 1, get_self at 1. cbn [self]. rewrite Hm, Hp.
      rewrite (bind_run np _ _ _ _ _ (load1_run np lp (seeded np s) pv Hpv)).
      rewrite (bind_run np _ _ _ _ _ (load2_run np lm (seeded np s) mv Hmv)).
      unfold bind at 1. cbn [gen self heap seeded]. rewrite Hk.
      exact Hfill. }
    split; [exact Hrun |].
    split; [| split; assumption].
    eapply fill_samples_shape; [exact Hfill | apply zeros_shape].
  - intros N HN. destruct N as [z' | b | f | t |]; try reflexivity.
    unfold sample. destruct (Z.ltb_spec 0 z') as [Hpos | _]; [| reflexivity].
    specialize (HN z' eq_refl). lia.
  - intros s0 Hnone. unfold sample.
    destruct (Z.ltb_spec 0 z) as [_ | Hneg]; [| lia].
    unfold bind, seed, get_self. cbn [self]. rewrite Hnone. reflexivity.
Qed.

Lemma toy_choice (g : rng toy) :
  exists k g',
    random_choice toy (length [Fin 1]) (Z.to_nat 2) [Fin 1] g = (Ok k, g') /\
    length k = Z.to_nat 2 /\
    Forall (fun kn => (kn < length [Fin 1])%nat) k.
Proof.
  exists [0; 0]%nat, g. split; [reflexivity |]. split; [reflexivity |].
  repeat constructor.
Qed.

Lemma toy_draw (m : vec) (v : matrix) (g : rng toy) :
  m ∈ [[Fin 0]] ->
  exists row g',
    random_multivariate_normal toy m v g = (Ok row, g') /\
    length row = length m.
Proof. intros _. exists m, g. split; reflexivity. Qed.

(** [sample_returns_rows] on two samples of the fitted small model. *)
Lemma sample_returns_rows_witness :
  (exists samples s',
     sample toy (PyInt 2)
       (unit_state 100 (Fin (1 / 10000)) 3 (unit_heap ++ [Arr1 [Fin 1]]))
     = (Ok samples, s') /\
     shape2 (Z.to_nat 2) (ncols [[Fin 0]]) samples /\
     self toy s'
     = self toy (unit_state 100 (Fin (1 / 10000)) 3
                   (unit_heap ++ [Arr1 [Fin 1]])) /\
     heap toy s'
     = heap toy (unit_state 100 (Fin (1 / 10000)) 3
                   (unit_heap ++ [Arr1 [Fin 1]]))) /\
  (forall N, (forall z', N = PyInt z' -> (z' <= 0)%Z) ->
     sample toy N
       (unit_state 100 (Fin (1 / 10000)) 3 (unit_heap ++ [Arr1 [Fin 1]]))
     = (Raise (AssertionError "N should be a positive integer"),
        unit_state 100 (Fin (1 / 10000)) 3 (unit_heap ++ [Arr1 [Fin 1]]))) /\
  (forall s0, means (self toy s0) = None ->
     sample toy (PyInt 2) s0
     = (Raise (Exception "Train GMM before sampling"), seeded toy s0)).
Proof.
  assert (Hz : (0 < 2)%Z) by reflexivity.
  exact (sample_returns_rows toy 2
           (unit_state 100 (Fin (1 / 10000)) 3 (unit_heap ++ [Arr1 [Fin 1]]))
           0 1 3 [[Fin 0]] [[[Fin 1]]] [Fin 1]
           Hz eq_refl eq_refl eq_refl eq_refl eq_refl eq_refl
           (shape2_one_row 1 [Fin 0] eq_refl) eq_refl toy_choice toy_draw).
Defined.

(** ** Two runs *)

(** C10: [fit] on a two-dimensional array and [sample] on a positive
    [int] seed the generator with 42 before anything is drawn, so the state
    of the generator at the call plays no part: from the same model and
    arrays, two runs of [fit] end with the same result, model, arrays and
    generator, two runs of [sample] likewise, and a second call of
    [sample(N)] right after the first returns what the first returned. *)
Theorem seed_makes_runs_repeat (np : library) (s : state np)
    (g1 g2 : rng np) :
  (forall xm, fit np (Arr2 xm) (with_gen np s g1)
              = fit np (Arr2 xm) (with_gen np s g2)) /\
  (forall z, (0 < z)%Z ->
             sample np (PyInt z) (with_gen np s g1)
             = sample np (PyInt z) (with_gen np s g2)) /\
  (forall N, fst (sample np N (snd (sample np N s)))
             = fst (sample np N s)).
Proof.
  assert (Hsample : forall z g, (0 < z)%Z ->
             sample np (PyInt z) (with_gen np s g) = sample np (PyInt z) s).
  { intros z g Hz. unfold sample.
    destruct (Z.ltb_spec 0 z) as [_ | H]; [reflexivity | lia]. }
  split; [reflexivity |]. split.
  - intros z Hz. rewrite !Hsample by exact Hz. reflexivity.
  - intros N. destruct (sample np N s) as [r s1] eqn:E. cbn [fst snd].
    destruct (keeps_model_sample np N s r s1 E) as [Hself Hheap].
    assert (Hs1 : s1 = with_gen np s (gen np s1)).
    { destruct s1. unfold with_gen. cbn [self heap gen] in *. congruence. }
    destruct N as [z | b | f | t |];
      try (injection E as <- <-; reflexivity).
    destruct (Z.ltb_spec 0 z) as [Hz | Hz].
    + rewrite Hs1, (Hsample z _ Hz), E. reflexivity.
    + unfold sample in E |- *.
      destruct (Z.ltb_spec 0 z) as [Hpos | _]; [lia |].
      injection E as <- <-. reflexivity.
Qed.

(** ** The E-step on a row of infinite mass *)

(** [e_step_rows_sum_to_one] on the E-step of the small model. *)
Lemma e_step_rows_sum_to_one_witness :
  exists mv vv pv Normal,
    densities toy 1 two_points mv vv = Ok Normal /\
    load1 toy (Some 2%nat) (unit_state 100 (Fin (1 / 10000)) 2 unit_heap)
    = (Ok pv, unit_state 100 (Fin (1 / 10000)) 2 unit_heap) /\
    [[Fin 1]; [Fin 1]] = map (fun row => normalize (vmul pv row)) Normal /\
    forall i row mass,
      Normal !! i = Some row ->
      vsum (vmul pv row) = Fin mass ->
      0 < mass ->
      exists g,
        [[Fin 1]; [Fin 1]] !! i = Some g /\
        g = vdiv (vmul pv row) (Fin mass) /\
        vsum g = Fin 1.
Proof.
  exact (e_step_rows_sum_to_one toy 1 two_points (Some 0%nat) (Some 1%nat)
           (Some 2%nat) (unit_state 100 (Fin (1 / 10000)) 2 unit_heap)
           [[Fin 1]; [Fin 1]]
           (unit_state 100 (Fin (1 / 10000)) 2 unit_heap)
           (e_step_unit 100 (Fin (1 / 10000)) 2 2 unit_heap
              unit_arrays_heap)).
Defined.

(** C6 as stated fails on a mass that is positive but not finite.  An
    instance whose constant [c] is [0.0], as when the determinant
    underflows, has the density [inf] at its mean; the mass of that point
    is [inf], and the normalisation [inf / inf] leaves [nan] in its row,
    which does not sum to one. *)
Lemma infinite_mass_row_is_nan :
  getLikelihood {| pdf_mean := [Fin 0]; pdf_variance := [[Fin 0]];
                   pdf_c := Fin 0; pdf_inv := [[Fin 1]] |} [Fin 0]
    = Ok PInf /\
  vsum (vmul [Fin 1] [PInf]) = PInf /\
  responsibilities 1 1 [Fin 1] [[PInf]] = Ok [[NaN]] /\
  vsum [NaN] <> Fin 1.
Proof.
  split; [| split; [| split]].
  - unfold getLikelihood. simpl.
    destruct (Rlt_dec 0 0) as [H | _]; [lra |]. simpl.
    rewrite sqrt_0.
    destruct (Req_dec_T 0 0) as [_ | H]; [| contradiction].
    rewrite Rsign_pos by apply exp_pos. reflexivity.
  - simpl. rewrite Rsign_pos by lra. reflexivity.
  - rewrite responsibilities_rows;
      [| discriminate | reflexivity | apply shape2_one_row; reflexivity].
    simpl. rewrite Rsign_pos by lra. reflexivity.
  - discriminate.
Qed.
